(** * openworld: the chunked voxel world of [main.js]

    A shallow embedding of the world core of [main.js]: chunk storage and
    block queries ([getChunkKey], [getBlock], [setBlock]), the terrain
    generator ([generateChunkData]), the face-culling mesher
    ([buildChunkMesh]), the physics step ([updatePhysics]), the
    persistence pair ([saveWorld], [loadWorld]), the streaming of chunks
    ([updateChunks]), the handlers of the jump button and of the stick,
    the block actions ([doRaycastAction]), the point collision test
    ([resolveCollision]) and the frame loop ([animate]).

    Number model.  JavaScript numbers that the program uses as integers
    (chunk coordinates, local coordinates, array indices, block ids) are
    [Z]; continuous quantities (camera position, velocity, angles, time
    step) are real numbers [R] with exact arithmetic, [Math.floor] being
    [Zfloor].  The program computes on IEEE-754 doubles, whose operations
    round: at an input where a rounded result crosses an integer, a
    floor of the program differs from the floor of the exact value.
    Statements about positions therefore name cells by the program's own
    expressions, or keep the inputs away from such boundaries.  Section
    16 embeds [setBlock] and [doRaycastAction] on doubles, with the
    machine operations of [PrimFloat], and the properties show two
    inputs at which the two readings part.  A value that may be
    [undefined] is an [option]; the only exception the modelled code can
    raise is a [TypeError] (property access on [undefined]). *)

From Stdlib Require Import ZArith List String Ascii Decimal DecimalString DecimalZ.
From Stdlib Require Import Reals Lra Lia.
From Stdlib Require PrimFloat FloatOps SpecFloat Uint63.
From stdpp Require Import base option list list_numbers.

Local Open Scope Z_scope.

(** ** 1. Configuration *)

Definition CHUNK_SIZE : Z := 16.
Definition CHUNK_HEIGHT : Z := 24.
Definition RENDER_DISTANCE : Z := 2.
Definition GRAVITY : R := 25%R.
Definition JUMP_FORCE : R := 8%R.
Definition SPEED : R := 6%R.

Module BLOCK.
Definition AIR : Z := 0.
Definition GRASS : Z := 1.
Definition DIRT : Z := 2.
Definition STONE : Z := 3.
Definition SAND : Z := 4.
Definition WOOD : Z := 5.
Definition BRICK : Z := 6.
End BLOCK.

(** The role of a face, the string argument [faceName] of [addFace]. *)
Inductive faceName := side | top | bottom.

(** An entry of [TEXTURE_MAP]: an object with some of the properties
    [all], [side], [top], [bottom], each an atlas offset. *)
Record texdef := {
  tex_all : option (Z * Z);
  tex_side : option (Z * Z);
  tex_top : option (Z * Z);
  tex_bottom : option (Z * Z)
}.

Definition tex_only_all (t : Z * Z) : texdef :=
  {| tex_all := Some t; tex_side := None; tex_top := None; tex_bottom := None |}.

(** [TEXTURE_MAP[type]]; [None] is [undefined] (no such property, which
    includes [type = undefined] and [BLOCK.AIR]). *)
Definition TEXTURE_MAP (type : option Z) : option texdef :=
  match type with
  | Some 1 => Some {| tex_all := None; tex_top := Some (0, 0);
                      tex_side := Some (0, 1); tex_bottom := Some (0, 2) |}
  | Some 2 => Some (tex_only_all (0, 2))
  | Some 3 => Some (tex_only_all (1, 0))
  | Some 4 => Some (tex_only_all (1, 1))
  | Some 5 => Some {| tex_all := None; tex_side := Some (1, 2);
                      tex_top := Some (1, 3); tex_bottom := Some (1, 3) |}
  | Some 6 => Some (tex_only_all (2, 0))
  | _ => None
  end.

Definition tex_face (def : texdef) (f : faceName) : option (Z * Z) :=
  match f with
  | side => tex_side def
  | top => tex_top def
  | bottom => tex_bottom def
  end.

(** [def.all || def[faceName] || [0,0]] (an array is always truthy). *)
Definition uvCoords (def : texdef) (f : faceName) : Z * Z :=
  match tex_all def with
  | Some t => t
  | None => match tex_face def f with
            | Some t => t
            | None => (0, 0)
            end
  end.

(** ** 2. JavaScript values used as chunk coordinates

    [updateChunks] and [setBlock] only ever produce integers, but
    [loadWorld] obtains the coordinates from [key.split(',').map(Number)],
    which can also yield [NaN] or leave a component [undefined]. *)
Inductive jsnum := Num (z : Z) | NaN | Undefined.

(** The string a template literal [`${v}`] produces. *)
Definition jsnum_to_string (v : jsnum) : string :=
  match v with
  | Num z => NilZero.string_of_int (Z.to_int z)
  | NaN => "NaN"
  | Undefined => "undefined"
  end.

(** [c * CHUNK_SIZE + x] *)
Definition world_coord (c : jsnum) (x : Z) : jsnum :=
  match c with
  | Num z => Num (z * CHUNK_SIZE + x)
  | _ => NaN
  end.

(** [function getChunkKey(cx, cz) { return `${cx},${cz}`; }] *)
Definition getChunkKey (cx cz : jsnum) : string :=
  (jsnum_to_string cx ++ "," ++ jsnum_to_string cz)%string.

(** ** 3. Geometry, chunks and the world map *)

(** One quad pushed by [addFace]: the outward offset [(ox, oy, oz)], the
    cell's world position, the block type and the tile chosen in the
    atlas.  The vertex data that THREE derives from these (plane geometry,
    rotation matrix, remapped UVs) is not modelled. *)
Record face := {
  f_ox : Z; f_oy : Z; f_oz : Z;
  f_px : jsnum; f_py : Z; f_pz : jsnum;
  f_type : Z;
  f_role : faceName;
  f_uv : Z * Z
}.

(** A [THREE.Mesh] built from the merged quads.  Objects are compared by
    identity in [scene.remove], hence the allocation number. *)
Record Mesh := { mesh_id : nat; mesh_faces : list face }.

(** A value of [chunks]: [{ mesh, data: Uint8Array }]. *)
Record Chunk := { data : list Z; mesh : option Mesh }.

(** The object [chunks] used as a map from key to chunk.  Properties are
    kept in insertion order, which is the order [for (let key in chunks)]
    visits them (no chunk key is an array index). *)
Definition ChunkMap := list (string * Chunk).

Fixpoint chunks_get (cs : ChunkMap) (key : string) : option Chunk :=
  match cs with
  | [] => None
  | (k, c) :: cs' => if String.eqb k key then Some c else chunks_get cs' key
  end.

(** [chunks[key] = c]: replaces the value of an existing property in
    place, otherwise adds the property last. *)
Fixpoint chunks_set (cs : ChunkMap) (key : string) (c : Chunk) : ChunkMap :=
  match cs with
  | [] => [(key, c)]
  | (k, c') :: cs' =>
      if String.eqb k key then (k, c) :: cs' else (k, c') :: chunks_set cs' key c
  end.

(** The globals the world functions share: [chunks], the children of
    [scene], and the number of meshes created so far. *)
Record World := {
  chunks : ChunkMap;
  scene : list Mesh;
  meshes_made : nat
}.

(** ** 4. Typed arrays *)

(** [(y * CHUNK_SIZE * CHUNK_SIZE) + (z * CHUNK_SIZE) + x] *)
Definition cell_index (x y z : Z) : Z :=
  (y * CHUNK_SIZE * CHUNK_SIZE) + (z * CHUNK_SIZE) + x.

(** [data[index]] on a [Uint8Array]: [undefined] outside the array. *)
Definition data_get (d : list Z) (index : Z) : option Z :=
  if index <? 0 then None else d !! Z.to_nat index.

(** [data[index] = v] on a [Uint8Array]: the value is reduced modulo 256,
    and a write outside the array is ignored. *)
Definition data_set (d : list Z) (index : Z) (v : Z) : list Z :=
  if index <? 0 then d else <[Z.to_nat index := v mod 256]> d.

(** [new Uint8Array(array)] for an array of integers. *)
Definition Uint8Array_from (l : list Z) : list Z := map (fun v => v mod 256) l.

(** ** 5. Exceptions and loops *)

(** The completion of a computation that does not touch the globals: a
    value, or a thrown [TypeError]. *)
Inductive completion (A : Type) := Normal (a : A) | TypeError.
Arguments Normal {A} a.
Arguments TypeError {A}.

(** Run [k] on the value of [m], unless [m] has thrown already. *)
Definition cbind {A B} (m : completion A) (k : A -> completion B) : completion B :=
  match m with
  | Normal a => k a
  | TypeError => TypeError
  end.

(** [for (let i = 0; i < n; i++) acc = body(i, acc)] *)
Definition for_range {A} (n : Z) (body : Z -> A -> A) (acc : A) : A :=
  foldl (fun a i => body i a) acc (seqZ 0 n).

(** ** 6. Block queries and the mesher *)

(** [getBlock(cx, cz, x, y, z)].  The result is [None] when the array read
    yields [undefined]. *)
Definition getBlock (cs : ChunkMap) (cx cz : jsnum) (x y z : Z) : option Z :=
  let key := getChunkKey cx cz in
  match chunks_get cs key with
  | None => Some BLOCK.AIR
  | Some c =>
      if (x <? 0) || (x >=? CHUNK_SIZE) || (z <? 0) || (z >=? CHUNK_SIZE)
         || (y <? 0) || (y >=? CHUNK_HEIGHT)
      then Some BLOCK.AIR
      else data_get (data c) (cell_index x y z)
  end.

(** [addFace(ox, oy, oz, rx, ry, pos, type, faceName)] pushes one quad; it
    throws when [TEXTURE_MAP[type]] is [undefined] ([def.all] on
    [undefined]).  The Euler angles [rx], [ry] are determined by the
    offset and are left out. *)
Definition addFace (ox oy oz : Z) (px : jsnum) (py : Z) (pz : jsnum)
    (type : option Z) (role : faceName) (geometries : list face)
  : completion (list face) :=
  match TEXTURE_MAP type, type with
  | Some def, Some t =>
      Normal (geometries ++
        [{| f_ox := ox; f_oy := oy; f_oz := oz;
            f_px := px; f_py := py; f_pz := pz;
            f_type := t; f_role := role; f_uv := uvCoords def role |}])
  | _, _ => TypeError
  end.

(** The six neighbour tests of the loop body, in source order: right,
    left, top, bottom, front, back. *)
Definition neighbours : list (Z * Z * Z * faceName) :=
  [ (1, 0, 0, side); (-1, 0, 0, side);
    (0, 1, 0, top); (0, -1, 0, bottom);
    (0, 0, 1, side); (0, 0, -1, side) ].

(** One neighbour test: [if (getBlock(...) === BLOCK.AIR) addFace(...)]. *)
Definition mesh_neighbour (cs : ChunkMap) (cx cz : jsnum) (x y z : Z)
    (type : option Z) (n : Z * Z * Z * faceName) (geometries : list face)
  : completion (list face) :=
  let '(ox, oy, oz, role) := n in
  if decide (getBlock cs cx cz (x + ox) (y + oy) (z + oz) = Some BLOCK.AIR)
  then addFace ox oy oz (world_coord cx x) y (world_coord cz z) type role geometries
  else Normal geometries.

(** The body of the innermost loop of [buildChunkMesh]. *)
Definition mesh_cell (cs : ChunkMap) (cx cz : jsnum) (d : list Z) (x y z : Z)
    (geometries : list face) : completion (list face) :=
  let type := data_get d (cell_index x y z) in
  if decide (type = Some BLOCK.AIR) then Normal geometries
  else
    foldl (fun g n => cbind g (mesh_neighbour cs cx cz x y z type n))
          (Normal geometries) neighbours.

(** The three nested loops of [buildChunkMesh]: the quads in the order
    they are pushed to [geometries], or the [TypeError] that ended them. *)
Definition mesh_faces_of (cs : ChunkMap) (cx cz : jsnum) (d : list Z)
  : completion (list face) :=
  for_range CHUNK_HEIGHT (fun y =>
    for_range CHUNK_SIZE (fun z =>
      for_range CHUNK_SIZE (fun x g =>
        cbind g (mesh_cell cs cx cz d x y z)))) (Normal []).

(** How a function that mutates the globals ends: it returns, or a
    [TypeError] escapes; either way the globals are left as they were at
    that moment. *)
Inductive outcome := Returned (w : World) | Threw (w : World).

Definition outcome_world (o : outcome) : World :=
  match o with Returned w | Threw w => w end.

(** [buildChunkMesh(cx, cz, data)].  Nothing is stored when no quad was
    pushed; otherwise the mesh is created, stored in [chunks[key].mesh]
    (a [TypeError] when there is no such chunk) and added to the scene. *)
Definition buildChunkMesh (w : World) (cx cz : jsnum) (d : list Z) : outcome :=
  match mesh_faces_of (chunks w) cx cz d with
  | TypeError => Threw w
  | Normal [] => Returned w
  | Normal geometries =>
      let m := {| mesh_id := meshes_made w; mesh_faces := geometries |} in
      let key := getChunkKey cx cz in
      match chunks_get (chunks w) key with
      | None => Threw {| chunks := chunks w; scene := scene w;
                         meshes_made := S (meshes_made w) |}
      | Some c =>
          Returned {| chunks := chunks_set (chunks w) key
                                  {| data := data c; mesh := Some m |};
                      scene := scene w ++ [m];
                      meshes_made := S (meshes_made w) |}
      end
  end.

(** ** 7. Terrain generation *)

(** [Math.floor(5 + Math.sin(worldX * 0.1) * 2 + Math.cos(worldZ * 0.1) * 2)] *)
Definition terrain_height (worldX worldZ : Z) : Z :=
  Zfloor (5 + sin (IZR worldX * 0.1) * 2 + cos (IZR worldZ * 0.1) * 2)%R.

(** The body of the loop over [y] in [generateChunkData]. *)
Definition generate_cell (height x z y : Z) (d : list Z) : list Z :=
  let index := cell_index x y z in
  if decide (y < height) then
    data_set d index (if decide (y < height - 3) then BLOCK.STONE else BLOCK.DIRT)
  else if decide (y = height) then data_set d index BLOCK.GRASS
  else data_set d index BLOCK.AIR.

(** [generateChunkData(cx, cz)]: a zero-filled [Uint8Array] written cell
    by cell, column after column. *)
Definition generateChunkData (cx cz : Z) : list Z :=
  let data0 := replicate (Z.to_nat (CHUNK_SIZE * CHUNK_HEIGHT * CHUNK_SIZE)) 0 in
  for_range CHUNK_SIZE (fun x =>
    for_range CHUNK_SIZE (fun z d =>
      let worldX := cx * CHUNK_SIZE + x in
      let worldZ := cz * CHUNK_SIZE + z in
      let height := terrain_height worldX worldZ in
      for_range CHUNK_HEIGHT (generate_cell height x z) d)) data0.

(** ** 8. Editing *)

(** [scene.remove(mesh)]: the object is taken out of the children. *)
Definition scene_remove (sc : list Mesh) (m : Mesh) : list Mesh :=
  filter (fun m' => mesh_id m' <> mesh_id m) sc.

(** [setBlock(wx, wy, wz, id)], the arithmetic on the position read as
    exact; [Binary64.setBlock64] of section 16 is the same function on
    doubles. *)
Definition setBlock (w : World) (wx wy wz : R) (id : Z) : outcome :=
  let cx := Zfloor (wx / IZR CHUNK_SIZE) in
  let cz := Zfloor (wz / IZR CHUNK_SIZE) in
  let lx := Zfloor (wx - IZR cx * IZR CHUNK_SIZE) in
  let lz := Zfloor (wz - IZR cz * IZR CHUNK_SIZE) in
  let ly := Zfloor wy in
  let key := getChunkKey (Num cx) (Num cz) in
  match chunks_get (chunks w) key with
  | Some c =>
      if (ly >=? 0) && (ly <? CHUNK_HEIGHT) then
        let index := cell_index lx ly lz in
        let d := data_set (data c) index id in
        let sc := match mesh c with
                  | Some m => scene_remove (scene w) m
                  | None => scene w
                  end in
        buildChunkMesh
          {| chunks := chunks_set (chunks w) key {| data := d; mesh := mesh c |};
             scene := sc; meshes_made := meshes_made w |}
          (Num cx) (Num cz) d
      else Returned w
  | None => Returned w
  end.

(** ** 9. The camera and the part of THREE that the physics step uses

    [three.module.js] is imported by [main.js] and is not part of it; the
    definitions of this section restate the library's own: vectors with
    componentwise operations, [Vector3.normalize] dividing by
    [length() || 1], [Euler] angles in the library's default order ['XYZ'],
    which [Object3D] turns into [quaternion] by [Quaternion.setFromEuler]
    whenever a component of [rotation] is assigned, and
    [Vector3.applyQuaternion] rotating a vector by [q v q^-1]. *)

Record Vector3 := { vx : R; vy : R; vz : R }.

Record Euler := { ex : R; ey : R; ez : R }.

Record Quaternion := { qx : R; qy : R; qz : R; qw : R }.

Local Open Scope R_scope.

(** [Quaternion.setFromEuler(euler)], case ['XYZ']. *)
Definition setFromEuler (e : Euler) : Quaternion :=
  let c1 := cos (ex e / 2) in
  let c2 := cos (ey e / 2) in
  let c3 := cos (ez e / 2) in
  let s1 := sin (ex e / 2) in
  let s2 := sin (ey e / 2) in
  let s3 := sin (ez e / 2) in
  {| qx := s1 * c2 * c3 + c1 * s2 * s3;
     qy := c1 * s2 * c3 - s1 * c2 * s3;
     qz := c1 * c2 * s3 + s1 * s2 * c3;
     qw := c1 * c2 * c3 - s1 * s2 * s3 |}.

(** [v.applyQuaternion(q)] *)
Definition applyQuaternion (v : Vector3) (q : Quaternion) : Vector3 :=
  let ix := qw q * vx v + qy q * vz v - qz q * vy v in
  let iy := qw q * vy v + qz q * vx v - qx q * vz v in
  let iz := qw q * vz v + qx q * vy v - qy q * vx v in
  let iw := - qx q * vx v - qy q * vy v - qz q * vz v in
  {| vx := ix * qw q + iw * - qx q + iy * - qz q - iz * - qy q;
     vy := iy * qw q + iw * - qy q + iz * - qx q - ix * - qz q;
     vz := iz * qw q + iw * - qz q + ix * - qy q - iy * - qx q |}.

(** [v.length()] *)
Definition length3 (v : Vector3) : R :=
  sqrt (vx v * vx v + vy v * vy v + vz v * vz v).

(** [v.normalize()], that is [v.divideScalar(v.length() || 1)]. *)
Definition normalize (v : Vector3) : Vector3 :=
  let l := length3 v in
  let s := if Req_dec_T l 0 then 1 else l in
  {| vx := vx v / s; vy := vy v / s; vz := vz v / s |}.

(** [a.addScaledVector(v, s)] *)
Definition addScaledVector (a v : Vector3) (s : R) : Vector3 :=
  {| vx := vx a + vx v * s; vy := vy a + vy v * s; vz := vz a + vz v * s |}.

(** [a.add(v)] *)
Definition add3 (a v : Vector3) : Vector3 :=
  {| vx := vx a + vx v; vy := vy a + vy v; vz := vz a + vz v |}.

(** [v.y = y] *)
Definition set_y (v : Vector3) (y : R) : Vector3 :=
  {| vx := vx v; vy := y; vz := vz v |}.

(** The globals of the physics step: the camera ([position], and
    [rotation], from which THREE derives [quaternion]), the [player]
    object and the stick input [moveInput]. *)
Record Body := {
  position : Vector3;
  rotation : Euler;
  velocity : Vector3;
  onGround : bool;
  moveInput_x : R;
  moveInput_y : R
}.

(** [camera.quaternion] *)
Definition quaternion (b : Body) : Quaternion := setFromEuler (rotation b).

(** ** 10. Physics *)

(** The camera's horizontal forward axis:
    [new THREE.Vector3(0, 0, -1).applyQuaternion(camera.quaternion)],
    then [forward.y = 0; forward.normalize()]. *)
Definition forward_axis (b : Body) : Vector3 :=
  normalize (set_y (applyQuaternion {| vx := 0; vy := 0; vz := -1 |} (quaternion b)) 0).

(** The camera's horizontal right axis, from [(1, 0, 0)] likewise. *)
Definition right_axis (b : Body) : Vector3 :=
  normalize (set_y (applyQuaternion {| vx := 1; vy := 0; vz := 0 |} (quaternion b)) 0).

(** [moveVec] of [updatePhysics]. *)
Definition moveVec (b : Body) (dt : R) : Vector3 :=
  addScaledVector
    (addScaledVector {| vx := 0; vy := 0; vz := 0 |}
       (forward_axis b) (- moveInput_y b * SPEED * dt))
    (right_axis b) (moveInput_x b * SPEED * dt).

(** [updatePhysics(dt)], the arithmetic read as exact. *)
Definition updatePhysics (cs : ChunkMap) (dt : R) (b : Body) : Body :=
  (* Apply Gravity *)
  let vel := set_y (velocity b) (vy (velocity b) - GRAVITY * dt) in
  (* Movement Vector relative to camera Look *)
  let pos := add3 (position b) (moveVec b dt) in
  let pos := set_y pos (vy pos + vy vel * dt) in
  (* Check block below feet *)
  let chX := Zfloor (vx pos / IZR CHUNK_SIZE) in
  let chZ := Zfloor (vz pos / IZR CHUNK_SIZE) in
  let lx := Zfloor (vx pos - IZR chX * IZR CHUNK_SIZE) in
  let lz := Zfloor (vz pos - IZR chZ * IZR CHUNK_SIZE) in
  let ly := Zfloor (vy pos - 1.6) in
  let blockBelow := getBlock cs (Num chX) (Num chZ) lx ly lz in
  let '(pos, vel, ground) :=
    if decide (blockBelow = Some BLOCK.AIR) then (pos, vel, false)
    else (set_y pos (IZR ly + 1 + 1.6), set_y vel 0, true) in
  (* Kill plane *)
  let '(pos, vel) :=
    if Rlt_dec (vy pos) (-10)
    then ({| vx := 0; vy := 30; vz := 0 |}, {| vx := 0; vy := 0; vz := 0 |})
    else (pos, vel) in
  {| position := pos; rotation := rotation b; velocity := vel;
     onGround := ground; moveInput_x := moveInput_x b;
     moveInput_y := moveInput_y b |}.

Local Close Scope R_scope.

(** ** 11. JSON text of a save

    [saveWorld] hands [JSON.stringify] an object whose values are arrays
    of integers, and [loadWorld] reads such a text back with [JSON.parse].
    Both are modelled on exactly these documents: an object, no white
    space, whose keys are made of digits, ['-'] and [','] (the characters
    of a chunk key; such a key needs no escape, and a key that is not all
    digits is enumerated in insertion order), and whose values are arrays
    of integer literals.  The text is read by a character automaton. *)

Definition SaveData := list (string * list Z).

Definition dquote : ascii := "034"%char.

Definition print_int (v : Z) : string := NilZero.string_of_int (Z.to_int v).

Fixpoint print_elems (l : list Z) : string :=
  match l with
  | [] => ""
  | [v] => print_int v
  | v :: l' => print_int v ++ "," ++ print_elems l'
  end%string.

Definition print_entry (e : string * list Z) : string :=
  (String dquote (fst e) ++ String dquote (":[" ++ print_elems (snd e) ++ "]"))%string.

Fixpoint print_entries (o : SaveData) : string :=
  match o with
  | [] => ""
  | [e] => print_entry e
  | e :: o' => print_entry e ++ "," ++ print_entries o'
  end%string.

(** [JSON.stringify(saveData)] *)
Definition JSON_stringify (o : SaveData) : string :=
  ("{" ++ print_entries o ++ "}")%string.

Definition is_digit (c : ascii) : bool :=
  match uint_of_char c (Some Nil) with Some _ => true | None => false end.

Definition is_key_char (c : ascii) : bool :=
  is_digit c || Ascii.eqb c "-" || Ascii.eqb c ",".

Fixpoint string_forallb (p : ascii -> bool) (s : string) : bool :=
  match s with
  | EmptyString => true
  | String c s' => p c && string_forallb p s'
  end.

(** A key is accepted once it is closed when it is not made of digits
    only (which would make it an array index, or the empty key). *)
Definition key_ok (k : string) : bool := negb (string_forallb is_digit k).

(** [o[k] = v] on the object under construction: a repeated key keeps its
    place and takes the later value. *)
Fixpoint obj_set (o : SaveData) (k : string) (v : list Z) : SaveData :=
  match o with
  | [] => [(k, v)]
  | (k', v') :: o' =>
      if String.eqb k' k then (k', v) :: o' else (k', v') :: obj_set o' k v
  end.

(** An integer literal while it is read: nothing yet, a lone minus sign, a
    zero (no digit may follow), or digits after a non-zero first one, kept
    least significant first. *)
Inductive numst :=
  | NoNum
  | Minus
  | Zero (neg : bool)
  | Digits (neg : bool) (lu : uint).

Definition num_step (n : numst) (c : ascii) : option numst :=
  match n with
  | NoNum =>
      if Ascii.eqb c "-" then Some Minus
      else if Ascii.eqb c "0" then Some (Zero false)
      else option_map (Digits false) (uint_of_char c (Some Nil))
  | Minus =>
      if Ascii.eqb c "0" then Some (Zero true)
      else option_map (Digits true) (uint_of_char c (Some Nil))
  | Zero _ => None
  | Digits neg lu => option_map (Digits neg) (uint_of_char c (Some lu))
  end.

Definition num_value (n : numst) : option Z :=
  match n with
  | Zero _ => Some 0
  | Digits false lu => Some (Z.of_int (Pos (Decimal.rev lu)))
  | Digits true lu => Some (Z.of_int (Neg (Decimal.rev lu)))
  | _ => None
  end.

(** The states of the reader; [o] is the object read so far, [k] the key
    of the entry being read and [acc] the elements of its array so far. *)
Inductive pstate :=
  | PStart
  | PFirst
  | PKey (o : SaveData) (k : string)
  | PColon (o : SaveData) (k : string)
  | POpen (o : SaveData) (k : string)
  | PElemFirst (o : SaveData) (k : string)
  | PElem (o : SaveData) (k : string) (acc : list Z) (n : numst)
  | PAfterArr (o : SaveData)
  | PNext (o : SaveData)
  | PEnd (o : SaveData).

Definition elem_step (o : SaveData) (k : string) (acc : list Z) (n : numst)
    (c : ascii) : option pstate :=
  if Ascii.eqb c "," then
    option_map (fun v => PElem o k (acc ++ [v]) NoNum) (num_value n)
  else if Ascii.eqb c "]" then
    option_map (fun v => PAfterArr (obj_set o k (acc ++ [v]))) (num_value n)
  else option_map (PElem o k acc) (num_step n c).

Definition pstep (st : pstate) (c : ascii) : option pstate :=
  match st with
  | PStart => if Ascii.eqb c "{" then Some PFirst else None
  | PFirst =>
      if Ascii.eqb c dquote then Some (PKey [] "")
      else if Ascii.eqb c "}" then Some (PEnd [])
      else None
  | PKey o k =>
      if Ascii.eqb c dquote then (if key_ok k then Some (PColon o k) else None)
      else if is_key_char c then Some (PKey o (k ++ String c ""))
      else None
  | PColon o k => if Ascii.eqb c ":" then Some (POpen o k) else None
  | POpen o k => if Ascii.eqb c "[" then Some (PElemFirst o k) else None
  | PElemFirst o k =>
      if Ascii.eqb c "]" then Some (PAfterArr (obj_set o k []))
      else option_map (PElem o k []) (num_step NoNum c)
  | PElem o k acc n => elem_step o k acc n c
  | PAfterArr o =>
      if Ascii.eqb c "," then Some (PNext o)
      else if Ascii.eqb c "}" then Some (PEnd o)
      else None
  | PNext o => if Ascii.eqb c dquote then Some (PKey o "") else None
  | PEnd _ => None
  end.

Fixpoint prun (st : pstate) (s : string) : option pstate :=
  match s with
  | EmptyString => Some st
  | String c s' =>
      match pstep st c with
      | Some st' => prun st' s'
      | None => None
      end
  end.

(** [JSON.parse(json)] on the documents described above; [None] for any
    other text (for which [JSON.parse] throws a [SyntaxError] or returns a
    value of another shape). *)
Definition JSON_parse (json : string) : option SaveData :=
  match prun PStart json with
  | Some (PEnd o) => Some o
  | _ => None
  end.

(** ** 12. Saving and loading *)

(** [key.split(',')] *)
Fixpoint split_comma (s : string) : list string :=
  match s with
  | EmptyString => [EmptyString]
  | String c s' =>
      if Ascii.eqb c "," then EmptyString :: split_comma s'
      else match split_comma s' with
           | p :: ps => String c p :: ps
           | [] => [String c EmptyString]
           end
  end.

(** [Number(s)] for a string of digits and minus signs: the empty string
    is [0], an optional sign followed by digits is that integer, anything
    else is [NaN]. *)
Definition Number (s : string) : jsnum :=
  match s with
  | EmptyString => Num 0
  | _ => match NilZero.int_of_string s with
         | Some i => Num (Z.of_int i)
         | None => NaN
         end
  end.

(** [const [cx, cz] = key.split(',').map(Number)] *)
Definition key_coords (key : string) : jsnum * jsnum :=
  let parts := map Number (split_comma key) in
  (default Undefined (parts !! 0%nat), default Undefined (parts !! 1%nat)).

(** The object [saveData] built by [saveWorld]: every chunk's key with
    [Array.from(chunks[key].data)]. *)
Definition save_data (cs : ChunkMap) : SaveData :=
  map (fun kc => (fst kc, data (snd kc))) cs.

(** [saveWorld()]: the string stored under ['openWorldSave']. *)
Definition saveWorld (w : World) : string :=
  JSON_stringify (save_data (chunks w)).

(** The ways [loadWorld] ends: after the alert "No save found.", after
    the alert "World Loaded!", or by an escaping [TypeError]; and the
    stored texts that the JSON model above does not cover. *)
Inductive load_outcome :=
  | NoSaveFound (w : World)
  | WorldLoaded (w : World)
  | LoadThrew (w : World)
  | NotModelled.

(** The first loop of [loadWorld]: every chunk's mesh leaves the scene. *)
Definition clear_meshes (cs : ChunkMap) (sc : list Mesh) : list Mesh :=
  foldl (fun sc kc => match mesh (snd kc) with
                      | Some m => scene_remove sc m
                      | None => sc
                      end) sc cs.

(** The second loop of [loadWorld], over the entries of [saveData]. *)
Fixpoint load_entries (w : World) (entries : SaveData) : outcome :=
  match entries with
  | [] => Returned w
  | (key, arr) :: rest =>
      let '(cx, cz) := key_coords key in
      let d := Uint8Array_from arr in
      let w1 := {| chunks := chunks_set (chunks w) key {| data := d; mesh := None |};
                   scene := scene w; meshes_made := meshes_made w |} in
      match buildChunkMesh w1 cx cz d with
      | Returned w2 => load_entries w2 rest
      | Threw w2 => Threw w2
      end
  end.

(** [loadWorld()], given the item stored under ['openWorldSave']
    ([None] is [null]). *)
Definition loadWorld (w : World) (item : option string) : load_outcome :=
  match item with
  | None | Some EmptyString => NoSaveFound w
  | Some json =>
      match JSON_parse json with
      | None => NotModelled
      | Some saveData =>
          let w0 := {| chunks := []; scene := clear_meshes (chunks w) (scene w);
                       meshes_made := meshes_made w |} in
          match load_entries w0 saveData with
          | Returned w' => WorldLoaded w'
          | Threw w' => LoadThrew w'
          end
      end
  end.

(** ** 13. Streaming *)

(** Run [k] on the globals [o] returned with, unless a [TypeError] has
    escaped already. *)
Definition obind (o : outcome) (k : World -> outcome) : outcome :=
  match o with
  | Returned w => k w
  | Threw w => Threw w
  end.

(** [for (let i = lo; i <= hi; i++) acc = body(i, acc)] *)
Definition for_between {A} (lo hi : Z) (body : Z -> A -> A) (acc : A) : A :=
  foldl (fun a i => body i a) acc (seqZ lo (hi - lo + 1)).

(** The body of the inner loop of [updateChunks], for the chunk
    [(cx, cz)]: a chunk that is not in the map is generated, stored
    without a mesh and meshed. *)
Definition stream_chunk (w : World) (cx cz : Z) : outcome :=
  let key := getChunkKey (Num cx) (Num cz) in
  match chunks_get (chunks w) key with
  | Some _ => Returned w
  | None =>
      let d := generateChunkData cx cz in
      buildChunkMesh
        {| chunks := chunks_set (chunks w) key {| data := d; mesh := None |};
           scene := scene w; meshes_made := meshes_made w |}
        (Num cx) (Num cz) d
  end.

(** [updateChunks()], given [camera.position]. *)
Definition updateChunks (w : World) (camera_position : Vector3) : outcome :=
  let playerChunkX := Zfloor (vx camera_position / IZR CHUNK_SIZE) in
  let playerChunkZ := Zfloor (vz camera_position / IZR CHUNK_SIZE) in
  for_between (- RENDER_DISTANCE) RENDER_DISTANCE (fun x =>
    for_between (- RENDER_DISTANCE) RENDER_DISTANCE (fun z o =>
      obind o (fun w' => stream_chunk w' (playerChunkX + x) (playerChunkZ + z))))
    (Returned w).

(** ** 14. Interaction *)

Local Open Scope R_scope.

(** The handler of the jump button:
    [if (player.onGround) player.velocity.y = JUMP_FORCE;] *)
Definition jump (b : Body) : Body :=
  if onGround b then
    {| position := position b; rotation := rotation b;
       velocity := set_y (velocity b) JUMP_FORCE;
       onGround := onGround b;
       moveInput_x := moveInput_x b; moveInput_y := moveInput_y b |}
  else b.

(** The [touchmove] handler of the move zone, for a touch [(dx, dy)] away
    from the origin of the stick:
    [moveInput.x = Math.max(-1, Math.min(1, dx / 50))], and [moveInput.y]
    from [dy] likewise. *)
Definition touchmove_move (dx dy : R) (b : Body) : Body :=
  {| position := position b; rotation := rotation b;
     velocity := velocity b; onGround := onGround b;
     moveInput_x := Rmax (-1) (Rmin 1 (dx / 50));
     moveInput_y := Rmax (-1) (Rmin 1 (dy / 50)) |}.

(** The argument of [doRaycastAction]: ['break'] or ['place']. *)
Inductive action := Break | Place.

(** An element of the array that [raycaster.intersectObjects] returns:
    [hit.point] and [hit.face.normal].  The ray cast itself is THREE's
    and is not modelled; [doRaycastAction] below takes its result. *)
Record Intersection := { point : Vector3; face_normal : Vector3 }.

(** [doRaycastAction(action)], given [camera.position], [selectedBlock]
    (an integer) and the intersections of the ray through the middle of
    the screen, nearest first. *)
Definition doRaycastAction (w : World) (camera_position : Vector3)
    (selectedBlock : Z) (intersects : list Intersection) (a : action) : outcome :=
  match intersects with
  | [] => Returned w
  | hit :: _ =>
      let p := point hit in
      let n := face_normal hit in
      let tx := vx p + (match a with Break => - vx n | Place => vx n end) * 0.1 in
      let ty := vy p + (match a with Break => - vy n | Place => vy n end) * 0.1 in
      let tz := vz p + (match a with Break => - vz n | Place => vz n end) * 0.1 in
      match a with
      | Break => setBlock w tx ty tz BLOCK.AIR
      | Place =>
          (* Collision check: don't place inside player *)
          let bx := Zfloor tx in
          let by_ := Zfloor ty in
          let bz := Zfloor tz in
          let px := Zfloor (vx camera_position) in
          let py := Zfloor (vy camera_position - 1.5) in
          let pHead := Zfloor (vy camera_position) in
          if (bx =? px)%Z && (bz =? Zfloor (vz camera_position))%Z
             && ((by_ =? py)%Z || (by_ =? pHead)%Z)
          then Returned w
          else setBlock w tx ty tz selectedBlock
      end
  end.

(** The Euler angles [(rx, ry)] that the six neighbour tests of
    [buildChunkMesh] pass to [addFace], by the offset of the face; the
    quad is a [PlaneGeometry], whose normal is [(0, 0, 1)], turned by
    [new THREE.Euler(rx, ry, 0)]. *)
Definition face_angles (ox oy oz : Z) : R * R :=
  if (ox =? 1)%Z then (0, PI / 2)
  else if (ox =? -1)%Z then (0, - PI / 2)
  else if (oy =? 1)%Z then (- PI / 2, 0)
  else if (oy =? -1)%Z then (PI / 2, 0)
  else if (oz =? 1)%Z then (0, 0)
  else (0, PI).

(** The normal of the quad that [addFace] makes for the offset
    [(ox, oy, oz)]. *)
Definition quad_normal (ox oy oz : Z) : Vector3 :=
  let '(rx, ry) := face_angles ox oy oz in
  applyQuaternion {| vx := 0; vy := 0; vz := 1 |}
    (setFromEuler {| ex := rx; ey := ry; ez := 0 |}).

(** The middle of the quad of the cell at world position [(X, Y, Zc)]:
    [matrix.setPosition(pos.x + ox * 0.5, pos.y + oy * 0.5, pos.z + oz * 0.5)]. *)
Definition quad_centre (X Y Zc ox oy oz : Z) : Vector3 :=
  {| vx := IZR X + IZR ox * 0.5;
     vy := IZR Y + IZR oy * 0.5;
     vz := IZR Zc + IZR oz * 0.5 |}.

(** ** 15. Collision and the frame loop *)

(** [isSolid(x, y, z)] of [resolveCollision], on integer world
    coordinates. *)
Definition isSolid (cs : ChunkMap) (x y z : Z) : bool :=
  let chX := Zfloor (IZR x / IZR CHUNK_SIZE) in
  let chZ := Zfloor (IZR z / IZR CHUNK_SIZE) in
  let localX := (x - chX * CHUNK_SIZE)%Z in
  let localZ := (z - chZ * CHUNK_SIZE)%Z in
  if decide (getBlock cs (Num chX) (Num chZ) localX y localZ = Some BLOCK.AIR)
  then false else true.

(** [resolveCollision(newPos)]: a point test at the feet and at the head. *)
Definition resolveCollision (cs : ChunkMap) (newPos : Vector3) : bool :=
  let cx := Zfloor (vx newPos) in
  let cz := Zfloor (vz newPos) in
  let feetY := Zfloor (vy newPos - 1.5) in
  let headY := Zfloor (vy newPos) in
  isSolid cs cx feetY cz || isSolid cs cx headY cz.

(** One frame of [animate]: the physics step with the fixed [dt], then
    the streaming of chunks around the new camera position. *)
Definition animate (w : World) (b : Body) : outcome * Body :=
  let dt := 0.016 in
  let b' := updatePhysics (chunks w) dt b in
  (updateChunks w (position b'), b').

Local Close Scope R_scope.

(** ** 16. The arithmetic of an edit on doubles

    JavaScript numbers are IEEE-754 doubles.  The sections above read
    the arithmetic on positions as exact; this section reads that of
    [setBlock] and of [doRaycastAction] as the program computes it, on
    doubles, with the machine operations of [PrimFloat]. *)

(** [setBlock] from the chunk and the local coordinates on: the key, the
    two tests, the write and the rebuild of the mesh. *)
Definition setBlock_cell (w : World) (cx cz lx ly lz : Z) (id : Z) : outcome :=
  let key := getChunkKey (Num cx) (Num cz) in
  match chunks_get (chunks w) key with
  | Some c =>
      if (ly >=? 0) && (ly <? CHUNK_HEIGHT) then
        let index := cell_index lx ly lz in
        let d := data_set (data c) index id in
        let sc := match mesh c with
                  | Some m => scene_remove (scene w) m
                  | None => scene w
                  end in
        buildChunkMesh
          {| chunks := chunks_set (chunks w) key {| data := d; mesh := mesh c |};
             scene := sc; meshes_made := meshes_made w |}
          (Num cx) (Num cz) d
      else Returned w
  | None => Returned w
  end.

Module Binary64.
Import PrimFloat FloatOps SpecFloat.

(** The double of an integer below [2^53] in absolute value. *)
Definition of_int (z : Z) : float :=
  if z <? 0 then (- of_uint63 (Uint63.of_Z (- z)))%float
  else of_uint63 (Uint63.of_Z z).

(** [Math.floor] on a double.  A finite double other than zero is
    [m * 2^e] or [- m * 2^e] with [m] below [2^53].  When [e] is not
    negative it is an integer, its own floor; otherwise its floor is the
    quotient, rounded down, of the signed [m] by [2^(-e)], an integer
    below [2^53].  Zeros, infinities and NaN are their own floor. *)
Definition floor64 (f : float) : float :=
  match Prim2SF f with
  | S754_finite s m e =>
      if e <? 0 then of_int ((if s then Z.neg m else Z.pos m) / 2 ^ (- e)) else f
  | _ => f
  end.

(** The integer that a double holds, if it holds one. *)
Definition to_int (f : float) : option Z :=
  match Prim2SF f with
  | S754_zero _ => Some 0
  | S754_finite s m e =>
      let n := if s then Z.neg m else Z.pos m in
      if 0 <=? e then Some (n * 2 ^ e)
      else if n mod 2 ^ (- e) =? 0 then Some (n / 2 ^ (- e)) else None
  | _ => None
  end.

(** The real number that a finite double holds. *)
Definition to_R (f : float) : R :=
  match Prim2SF f with
  | S754_finite s m e =>
      let n := if s then Z.neg m else Z.pos m in
      if 0 <=? e then IZR (n * 2 ^ e) else (IZR n / IZR (2 ^ (- e)))%R
  | _ => 0%R
  end.

Definition CHUNK_SIZE64 : float := 16%float.

(** [setBlock(wx, wy, wz, id)] on doubles.  The five coordinates are
    computed by the machine operations; the key, the tests and the index
    are then computed on the integers that they hold, as in
    [setBlock_cell].  The result is [None] when a coordinate is NaN or
    infinite, a case that is not modelled. *)
Definition setBlock64 (w : World) (wx wy wz : float) (id : Z) : option outcome :=
  let cx := floor64 (wx / CHUNK_SIZE64) in
  let cz := floor64 (wz / CHUNK_SIZE64) in
  let lx := floor64 (wx - cx * CHUNK_SIZE64) in
  let lz := floor64 (wz - cz * CHUNK_SIZE64) in
  let ly := floor64 wy in
  match to_int cx, to_int cz, to_int lx, to_int ly, to_int lz with
  | Some cx, Some cz, Some lx, Some ly, Some lz =>
      Some (setBlock_cell w cx cz lx ly lz id)
  | _, _, _, _, _ => None
  end.

(** [camera.position], [hit.point] and [hit.face.normal] on doubles. *)
Record Vector64 := { x64 : float; y64 : float; z64 : float }.

Record Intersection64 := { point64 : Vector64; face_normal64 : Vector64 }.

(** [doRaycastAction(action)] on doubles.  [0x1.999999999999ap-4] is the
    double of the literal [0.1]; [===] on numbers is the equality of
    doubles, [eqb]. *)
Definition doRaycastAction64 (w : World) (camera_position : Vector64)
    (selectedBlock : Z) (intersects : list Intersection64) (a : action)
    : option outcome :=
  match intersects with
  | [] => Some (Returned w)
  | hit :: _ =>
      let p := point64 hit in
      let n := face_normal64 hit in
      let tx := (x64 p + (match a with Break => - x64 n | Place => x64 n end)
                         * 0x1.999999999999ap-4)%float in
      let ty := (y64 p + (match a with Break => - y64 n | Place => y64 n end)
                         * 0x1.999999999999ap-4)%float in
      let tz := (z64 p + (match a with Break => - z64 n | Place => z64 n end)
                         * 0x1.999999999999ap-4)%float in
      match a with
      | Break => setBlock64 w tx ty tz BLOCK.AIR
      | Place =>
          (* Collision check: don't place inside player *)
          let bx := floor64 tx in
          let by_ := floor64 ty in
          let bz := floor64 tz in
          let px := floor64 (x64 camera_position) in
          let py := floor64 (y64 camera_position - 1.5) in
          let pHead := floor64 (y64 camera_position) in
          if (bx =? px)%float && (bz =? floor64 (z64 camera_position))%float
             && ((by_ =? py)%float || (by_ =? pHead)%float)
          then Some (Returned w)
          else setBlock64 w tx ty tz selectedBlock
      end
  end.

(** The chunk coordinate and the local coordinate that [setBlock64]
    computes from a world coordinate. *)
Definition resolve64 (v : float) : option (Z * Z) :=
  let c := floor64 (v / CHUNK_SIZE64) in
  let l := floor64 (v - c * CHUNK_SIZE64) in
  match to_int c, to_int l with
  | Some c, Some l => Some (c, l)
  | _, _ => None
  end.

(** The world cell that holds a position: the floors of its
    coordinates, as integers. *)
Definition cell64 (x y z : float) : option (Z * Z * Z) :=
  match to_int (floor64 x), to_int (floor64 y), to_int (floor64 z) with
  | Some x, Some y, Some z => Some (x, y, z)
  | _, _, _ => None
  end.

(** The cell of the player's feet, [(px, py, floor(camera.position.z))]
    in [doRaycastAction], and the cell [(bx, by, bz)] of the target of a
    placement. *)
Definition feet64 (camera_position : Vector64) : option (Z * Z * Z) :=
  cell64 (x64 camera_position) (y64 camera_position - 1.5) (z64 camera_position).

Definition place_cell64 (hit : Intersection64) : option (Z * Z * Z) :=
  let p := point64 hit in
  let n := face_normal64 hit in
  cell64 (x64 p + x64 n * 0x1.999999999999ap-4)
         (y64 p + y64 n * 0x1.999999999999ap-4)
         (z64 p + z64 n * 0x1.999999999999ap-4).

(** The double nearest to [-1e-17], which is [-6490371073168535 / 2^109]. *)
Definition tiny : float := (-0x1.70ef54646d497p-57)%float.

(** A camera in the world column [(-1, 0)], with the feet in the cell
    [(-1, 1, 0)], and a hit on the face towards [-z] of the block at
    [(-1, 1, 1)], whose quad lies in the plane [z = 0.5] between
    [x = -1.5] and [x = -0.5]: the point of the hit has for [x] the
    double next below [-1], which is [-1 - 2^(-52)]. *)
Definition camera_beside : Vector64 :=
  {| x64 := -0.5; y64 := 2.75; z64 := 0.25 |}.

(** A hit on the top face of the block at the origin cell [(0, 7, 0)],
    whose quad lies in the plane [y = 7.5] between [x = -0.5] and
    [x = 0.5], at a point with [x = tiny]. *)
Definition hit_tiny : Intersection64 :=
  {| point64 := {| x64 := tiny; y64 := 7.5; z64 := 0.25 |};
     face_normal64 := {| x64 := 0; y64 := 1; z64 := 0 |} |}.

Definition hit_below_minus_one : Intersection64 :=
  {| point64 := {| x64 := -0x1.0000000000001p+0; y64 := 1.25; z64 := 0.5 |};
     face_normal64 := {| x64 := 0; y64 := 0; z64 := -1 |} |}.

End Binary64.

(** * Properties *)

(** ** Notions used in the statements *)

(** A block array as [generateChunkData] allocates it and as the game
    fills it: one byte per cell, each a block id. *)
Definition wf_data (d : list Z) : Prop :=
  Z.of_nat (length d) = 6144 /\ Forall (fun v => 0 <= v <= 6) d.

(** Local coordinates of a cell of a chunk. *)
Definition in_chunk (x y z : Z) : Prop :=
  0 <= x < CHUNK_SIZE /\ 0 <= y < CHUNK_HEIGHT /\ 0 <= z < CHUNK_SIZE.

(** The bounds test of [getBlock]. *)
Definition outside (x y z : Z) : bool :=
  (x <? 0) || (x >=? CHUNK_SIZE) || (z <? 0) || (z >=? CHUNK_SIZE)
  || (y <? 0) || (y >=? CHUNK_HEIGHT).

(** What [getBlock] answers for a loaded chunk, from its array alone. *)
Definition local_block (d : list Z) (x y z : Z) : option Z :=
  if outside x y z then Some BLOCK.AIR else data_get d (cell_index x y z).

(** The number of faces of a cell that lie on the boundary of its chunk. *)
Definition boundary_faces (x y z : Z) : nat :=
  length (List.filter (fun n : Z * Z * Z * faceName =>
                         outside (x + n.1.1.1) (y + n.1.1.2) (z + n.1.2))
                      neighbours).

(** A block array filled with one block, and a world of nine chunks, the
    chunk [(0, 0)] and its eight neighbours, all filled with Stone. *)
Definition filled (t : Z) : list Z := replicate (Z.to_nat 6144) t.

Definition stone_world : World :=
  {| chunks := map (fun c : Z * Z =>
                      (getChunkKey (Num c.1) (Num c.2),
                       {| data := filled BLOCK.STONE; mesh := None |}))
                   [(0, 0); (-1, -1); (-1, 0); (-1, 1); (0, -1);
                    (0, 1); (1, -1); (1, 0); (1, 1)];
     scene := []; meshes_made := 0 |}.

(** The quad of the face of cell [(x, y, z)], of type [t], towards [n]. *)
Definition quad (cx cz : jsnum) (x y z t : Z) (n : Z * Z * Z * faceName) : face :=
  let '(ox, oy, oz, role) := n in
  {| f_ox := ox; f_oy := oy; f_oz := oz;
     f_px := world_coord cx x; f_py := y; f_pz := world_coord cz z;
     f_type := t; f_role := role;
     f_uv := match TEXTURE_MAP (Some t) with
             | Some def => uvCoords def role
             | None => (0, 0)
             end |}.

(** The quads of one cell, in the order the loop body pushes them. *)
Definition cell_quads (d : list Z) (cx cz : jsnum) (x y z : Z) : list face :=
  match data_get d (cell_index x y z) with
  | Some t =>
      if decide (t = BLOCK.AIR) then []
      else flat_map
             (fun n =>
                if decide (local_block d (x + n.1.1.1) (y + n.1.1.2) (z + n.1.2)
                           = Some BLOCK.AIR)
                then [quad cx cz x y z t n] else [])
             neighbours
  | None => []
  end.

(** The quads of a chunk, in the order of the three loops. *)
Definition chunk_quads (d : list Z) (cx cz : jsnum) : list face :=
  flat_map (fun y =>
    flat_map (fun z =>
      flat_map (fun x => cell_quads d cx cz x y z) (seqZ 0 CHUNK_SIZE))
    (seqZ 0 CHUNK_SIZE))
  (seqZ 0 CHUNK_HEIGHT).

(** *** Terrain, flat worlds and saves *)

(** The block that [generateChunkData] writes at height [y] of a column
    of surface height [height]. *)
Definition column_block (height y : Z) : Z :=
  if decide (y < height) then
    (if decide (y < height - 3) then BLOCK.STONE else BLOCK.DIRT)
  else if decide (y = height) then BLOCK.GRASS
  else BLOCK.AIR.

(** The cells already written when the loops of [generateChunkData] are
    at column [(xw, zw)], height [yw]. *)
Definition written (xw zw yw x y z : Z) : Prop :=
  x < xw \/ (x = xw /\ (z < zw \/ (z = zw /\ y < yw))).

(** The array is complete and the written cells hold their block. *)
Definition generated (cx cz : Z) (xw zw yw : Z) (d : list Z) : Prop :=
  Z.of_nat (length d) = 6144 /\
  forall x y z, in_chunk x y z -> written xw zw yw x y z ->
    data_get d (cell_index x y z)
    = Some (column_block
              (terrain_height (cx * CHUNK_SIZE + x) (cz * CHUNK_SIZE + z)) y).

(** A flat block array: Stone and Dirt below, Grass at height 5, Air
    above; and a world of one such chunk. *)
Definition flat_data : list Z :=
  (fun i => column_block 5 (i / 256)) <$> seqZ 0 6144.

Definition flat_chunks : ChunkMap :=
  [(getChunkKey (Num 0) (Num 0), {| data := flat_data; mesh := None |})].

(** Keys that [JSON_stringify] and [JSON_parse] agree on. *)
Definition valid_key (k : string) : Prop :=
  string_forallb is_key_char k = true /\ key_ok k = true.

(** The object made by setting the entries of [o] one after the other. *)
Definition obj_of (o0 o : SaveData) : SaveData :=
  foldl (fun acc e => obj_set acc (fst e) (snd e)) o0 o.

(** The characters of a printed integer. *)
Definition is_num_char (c : ascii) : bool := is_digit c || Ascii.eqb c "-".

(** A world map as the game builds it: one chunk per key, every key the
    key of integer chunk coordinates, every block array well formed. *)
Definition wf_chunks (cs : ChunkMap) : Prop :=
  NoDup (map fst cs) /\
  Forall (fun kc => (exists cx cz, fst kc = getChunkKey (Num cx) (Num cz)) /\
                    wf_data (data (snd kc))) cs.

(** The same, for the entries of a save. *)
Definition wf_entry (e : string * list Z) : Prop :=
  (exists cx cz, fst e = getChunkKey (Num cx) (Num cz)) /\ wf_data (snd e).

(** [saveData[key]] *)
Fixpoint obj_get (o : SaveData) (key : string) : option (list Z) :=
  match o with
  | [] => None
  | (k, v) :: o' => if String.eqb k key then Some v else obj_get o' key
  end.

(** *** Bodies *)

Local Open Scope R_scope.

(** [new THREE.Vector3()] *)
Definition zero3 : Vector3 := {| vx := 0; vy := 0; vz := 0 |}.

(** The position after the movement and the integration of the vertical
    velocity, before the ground test. *)
Definition moved (b : Body) (dt : R) : Vector3 :=
  let pos := add3 (position b) (moveVec b dt) in
  set_y pos (vy pos + (vy (velocity b) - GRAVITY * dt) * dt).

(** The block that the ground test of a step samples. *)
Definition block_below (cs : ChunkMap) (b : Body) (dt : R) : option Z :=
  let pos := moved b dt in
  let chX := Zfloor (vx pos / 16) in
  let chZ := Zfloor (vz pos / 16) in
  getBlock cs (Num chX) (Num chZ)
    (Zfloor (vx pos - IZR chX * 16)) (Zfloor (vy pos - 1.6))
    (Zfloor (vz pos - IZR chZ * 16)).


(** The body at rest on a surface whose top block is at height 5. *)
Definition landed (b : Body) : Body :=
  {| position := set_y (position b) (5 + 1 + 1.6);
     rotation := rotation b;
     velocity := set_y (velocity b) 0;
     onGround := true;
     moveInput_x := moveInput_x b; moveInput_y := moveInput_y b |}.

(** A body at rest in the air at height 30, over the middle of chunk
    [(0, 0)]. *)
Definition body_at_30 : Body :=
  {| position := {| vx := 8; vy := 30; vz := 8 |};
     rotation := {| ex := 0; ey := 0; ez := 0 |};
     velocity := zero3;
     onGround := false;
     moveInput_x := 0; moveInput_y := 0 |}.

(** A camera at height 30 turned by [pitch] and [yaw], with the stick
    held at [strafe] and [fwd] (pushing the stick up, which is forward,
    gives a negative [moveInput.y]). *)
Definition looking (pitch yaw fwd strafe : R) : Body :=
  {| position := {| vx := 0; vy := 30; vz := 0 |};
     rotation := {| ex := pitch; ey := yaw; ez := 0 |};
     velocity := zero3;
     onGround := false;
     moveInput_x := strafe; moveInput_y := - fwd |}.

Local Close Scope R_scope.

(** *** World cells *)

(** The block of the world cell [(wx, wy, wz)]: the chunk holding the
    cell is the floored quotient of [wx] and [wz] by the chunk size, the
    local coordinates are the remainders. *)
Definition block_at (cs : ChunkMap) (wx wy wz : Z) : option Z :=
  getBlock cs (Num (wx / 16)) (Num (wz / 16)) (wx mod 16) wy (wz mod 16).

(** *** Streaming *)

(** The chunk [(cx, cz)] is in the world map. *)
Definition loaded (w : World) (cx cz : Z) : Prop :=
  chunks_get (chunks w) (getChunkKey (Num cx) (Num cz)) <> None.

(** An entry of the world map that holds the generated terrain of a
    chunk among those that [K] selects. *)
Definition generated_entry (K : Z -> Z -> Prop) (kc : string * Chunk) : Prop :=
  exists cx cz, K cx cz /\ fst kc = getChunkKey (Num cx) (Num cz) /\
                data (snd kc) = generateChunkData cx cz.

(** The chunks within [RENDER_DISTANCE] of the chunk [(pcx, pcz)]. *)
Definition near (pcx pcz cx cz : Z) : Prop :=
  pcx - RENDER_DISTANCE <= cx <= pcx + RENDER_DISTANCE /\
  pcz - RENDER_DISTANCE <= cz <= pcz + RENDER_DISTANCE.

(** [w'] is [w] with entries of generated terrain, of chunks that [K]
    selects, added after the entries of [w], which are all kept as they
    are, under new keys. *)
Definition streamed (K : Z -> Z -> Prop) (w w' : World) : Prop :=
  exists extra, chunks w' = chunks w ++ extra /\
    Forall (generated_entry K) extra /\
    NoDup (map fst extra) /\
    forall key, key ∈ map fst extra -> chunks_get (chunks w) key = None.

(** *** Jumps *)

Local Open Scope R_scope.

(** The body [k] steps after a jump from rest on a surface whose top
    block is at height 5. *)
Definition jumping (b : Body) (k : nat) : Body :=
  {| position := set_y (position b)
                   (5 + 1 + 1.6 + 0.128 * INR k - 0.0032 * INR k * (INR k + 1));
     rotation := rotation b;
     velocity := set_y (velocity b) (8 - 0.4 * INR k);
     onGround := false;
     moveInput_x := moveInput_x b; moveInput_y := moveInput_y b |}.

Local Close Scope R_scope.

(** *** The scene *)

(** The quads that the scene shows for a chunk: those of the chunk's
    mesh, when that mesh is among the children of the scene. *)
Definition shown (sc : list Mesh) (c : Chunk) : list face :=
  match mesh c with
  | Some m => if decide (mesh_id m ∈ map mesh_id sc) then mesh_faces m else []
  | None => []
  end.

(** The scene agrees with the world map: the map is well formed; what
    the scene shows for every chunk of the map is the quads of its
    block array as it is now; every mesh of the scene is the mesh of a
    chunk of the map.  The last three parts say that meshes are objects
    with an identity: they are numbered apart, below the counter. *)
Record scene_ok (w : World) : Prop := {
  ok_chunks : wf_chunks (chunks w);
  ok_shown : forall cx cz c,
    chunks_get (chunks w) (getChunkKey (Num cx) (Num cz)) = Some c ->
    shown (scene w) c = chunk_quads (data c) (Num cx) (Num cz);
  ok_owner : forall m, m ∈ scene w ->
    exists key c, chunks_get (chunks w) key = Some c /\ mesh c = Some m;
  ok_nodup : NoDup (map mesh_id (scene w));
  ok_below : forall key c m,
    chunks_get (chunks w) key = Some c -> mesh c = Some m ->
    (mesh_id m < meshes_made w)%nat;
  ok_distinct : forall k1 k2 c1 c2 m1 m2,
    chunks_get (chunks w) k1 = Some c1 -> chunks_get (chunks w) k2 = Some c2 ->
    mesh c1 = Some m1 -> mesh c2 = Some m2 -> mesh_id m1 = mesh_id m2 -> k1 = k2
}.

(** The mesh that the chunk [(cx, cz)] has, if the chunk is in the map
    and has one. *)
Definition old_mesh (w : World) (cx cz : Z) : option Mesh :=
  chunks_get (chunks w) (getChunkKey (Num cx) (Num cz)) ≫= mesh.

(** The scene after [if (mesh) scene.remove(mesh)]. *)
Definition scene_without (sc : list Mesh) (mo : option Mesh) : list Mesh :=
  match mo with
  | Some m => scene_remove sc m
  | None => sc
  end.

(** The world after the block array [d] has been stored for the chunk
    [(cx, cz)] and its mesh rebuilt: the chunk's old mesh, if any, has
    left the scene, and a new mesh has been stored and added when [d]
    has a quad. *)
Definition install (w : World) (cx cz : Z) (d : list Z) : World :=
  let key := getChunkKey (Num cx) (Num cz) in
  let mo := old_mesh w cx cz in
  let sc := scene_without (scene w) mo in
  match chunk_quads d (Num cx) (Num cz) with
  | [] => {| chunks := chunks_set (chunks w) key {| data := d; mesh := mo |};
             scene := sc; meshes_made := meshes_made w |}
  | qs => let m := {| mesh_id := meshes_made w; mesh_faces := qs |} in
          {| chunks := chunks_set (chunks w) key {| data := d; mesh := Some m |};
             scene := sc ++ [m]; meshes_made := S (meshes_made w) |}
  end.

(** The worlds of a game: the empty world of start-up, and what
    [updateChunks], [doRaycastAction] with a block id as the selected
    block, on real numbers or on doubles, and [loadWorld] on the save of
    such a world make of one when they return. *)
Inductive played : World -> Prop :=
  | played_start : played {| chunks := []; scene := []; meshes_made := 0 |}
  | played_stream w camera_position w' :
      played w -> updateChunks w camera_position = Returned w' -> played w'
  | played_action w camera_position selectedBlock intersects a w' :
      played w -> 0 <= selectedBlock <= 6 ->
      doRaycastAction w camera_position selectedBlock intersects a = Returned w' ->
      played w'
  | played_action64 w camera_position selectedBlock intersects a w' :
      played w -> 0 <= selectedBlock <= 6 ->
      Binary64.doRaycastAction64 w camera_position selectedBlock intersects a
      = Some (Returned w') ->
      played w'
  | played_load w0 w w' :
      played w0 -> played w ->
      loadWorld w0 (Some (saveWorld w)) = WorldLoaded w' -> played w'.

(** ** Loops that push to a list *)

Section Loops.
Context {I E : Type}.
Variable body : I -> completion (list E) -> completion (list E).

Lemma foldl_normal (q : I -> list E) (l : list I) :
  (forall i, i ∈ l -> forall g, body i (Normal g) = Normal (g ++ q i)) ->
  forall g, foldl (fun a i => body i a) (Normal g) l = Normal (g ++ flat_map q l).
Proof.
  induction l as [|i l IH]; intros Hb g; simpl.
  - by rewrite app_nil_r.
  - rewrite Hb by left. rewrite IH.
    + by rewrite app_assoc.
    + intros j Hj. apply Hb. by right.
Qed.

Hypothesis body_strict : forall i, body i TypeError = TypeError.

Lemma foldl_thrown (l : list I) :
  foldl (fun a i => body i a) TypeError l = TypeError.
Proof. induction l as [|i l IH]; simpl; [done|]. by rewrite body_strict. Qed.

Lemma foldl_throws (l : list I) (i : I) :
  i ∈ l -> (forall a, body i a = TypeError) ->
  forall a, foldl (fun a i => body i a) a l = TypeError.
Proof.
  intros Hi Hthrow. induction l as [|j l IH]; intros a.
  - by apply elem_of_nil in Hi.
  - simpl. apply elem_of_cons in Hi as [->|Hi].
    + rewrite Hthrow. apply foldl_thrown.
    + by apply IH.
Qed.
End Loops.

(** ** Block queries *)

Lemma getBlock_loaded cs cx cz c x y z :
  chunks_get cs (getChunkKey cx cz) = Some c ->
  getBlock cs cx cz x y z = local_block (data c) x y z.
Proof. intros H. unfold getBlock, local_block. by rewrite H. Qed.

Lemma getBlock_unloaded cs cx cz x y z :
  chunks_get cs (getChunkKey cx cz) = None ->
  getBlock cs cx cz x y z = Some BLOCK.AIR.
Proof. intros H. unfold getBlock. by rewrite H. Qed.

Lemma cell_index_range x y z :
  in_chunk x y z -> 0 <= cell_index x y z < 6144.
Proof. unfold in_chunk, cell_index, CHUNK_SIZE, CHUNK_HEIGHT. lia. Qed.

Lemma data_get_wf d x y z :
  wf_data d -> in_chunk x y z ->
  exists t, data_get d (cell_index x y z) = Some t /\ 0 <= t <= 6.
Proof.
  intros [Hlen Hall] Hin. pose proof (cell_index_range _ _ _ Hin) as Hi.
  unfold data_get. destruct (Z.ltb_spec (cell_index x y z) 0); [lia|].
  destruct (lookup_lt_is_Some_2 d (Z.to_nat (cell_index x y z))) as [t Ht]; [lia|].
  exists t. split; [done|].
  rewrite Forall_lookup in Hall. by apply (Hall _ _ Ht).
Qed.

Lemma TEXTURE_MAP_block t :
  1 <= t <= 6 -> exists def, TEXTURE_MAP (Some t) = Some def.
Proof.
  intros Ht.
  assert (t = 1 \/ t = 2 \/ t = 3 \/ t = 4 \/ t = 5 \/ t = 6) as Hc by lia.
  destruct Hc as [->|[->|[->|[->|[->| ->]]]]]; simpl; eauto.
Qed.

(** ** The mesher on a loaded, well-formed chunk *)

Lemma addFace_block ox oy oz cx cz x y z t role g :
  1 <= t <= 6 ->
  addFace ox oy oz (world_coord cx x) y (world_coord cz z) (Some t) role g
  = Normal (g ++ [quad cx cz x y z t (ox, oy, oz, role)]).
Proof.
  intros Ht. destruct (TEXTURE_MAP_block t Ht) as [def Hdef].
  unfold addFace, quad. by rewrite Hdef.
Qed.

Lemma mesh_cell_normal cs cx cz c x y z g :
  chunks_get cs (getChunkKey cx cz) = Some c ->
  wf_data (data c) -> in_chunk x y z ->
  mesh_cell cs cx cz (data c) x y z g
  = Normal (g ++ cell_quads (data c) cx cz x y z).
Proof.
  intros Hc Hwf Hin. unfold mesh_cell, cell_quads.
  destruct (data_get_wf _ _ _ _ Hwf Hin) as (t & -> & Ht).
  destruct (decide (Some t = Some BLOCK.AIR)) as [[= ->]|Hne].
  - rewrite decide_True by done. by rewrite app_nil_r.
  - rewrite decide_False by congruence.
    apply (foldl_normal (fun n a => cbind a (mesh_neighbour cs cx cz x y z (Some t) n))).
    intros [[[ox oy] oz] role] _ g'. simpl.
    rewrite (getBlock_loaded _ _ _ _ _ _ _ Hc).
    destruct (decide (local_block (data c) (x + ox) (y + oy) (z + oz)
                      = Some BLOCK.AIR)); [|by rewrite app_nil_r].
    apply addFace_block. unfold BLOCK.AIR in Hne.
    assert (t <> 0) by congruence. lia.
Qed.

Lemma mesh_faces_of_normal cs cx cz c :
  chunks_get cs (getChunkKey cx cz) = Some c ->
  wf_data (data c) ->
  mesh_faces_of cs cx cz (data c) = Normal (chunk_quads (data c) cx cz).
Proof.
  intros Hc Hwf. unfold mesh_faces_of, chunk_quads, for_range.
  apply (foldl_normal _ _ _ : _ -> forall g, _ = Normal (g ++ _)) with (g := []).
  intros y Hy g. apply elem_of_seqZ in Hy.
  apply foldl_normal. intros z Hz g'. apply elem_of_seqZ in Hz.
  apply foldl_normal. intros x Hx g''. apply elem_of_seqZ in Hx.
  simpl. apply mesh_cell_normal; [done..|].
  unfold in_chunk. lia.
Qed.

(** Membership in the quads of a chunk, cell by cell. *)
Lemma elem_of_chunk_quads d cx cz f :
  f ∈ chunk_quads d cx cz <->
  exists x y z, in_chunk x y z /\ f ∈ cell_quads d cx cz x y z.
Proof.
  unfold chunk_quads, in_chunk. rewrite list_elem_of_In, in_flat_map. split.
  - intros (y & Hy & H). apply in_flat_map in H as (z & Hz & H).
    apply in_flat_map in H as (x & Hx & H).
    apply list_elem_of_In, elem_of_seqZ in Hx, Hy, Hz.
    apply list_elem_of_In in H. exists x, y, z. split; [lia|done].
  - intros (x & y & z & Hin & H). exists y. split.
    { apply list_elem_of_In, elem_of_seqZ. lia. }
    apply in_flat_map. exists z. split.
    { apply list_elem_of_In, elem_of_seqZ. lia. }
    apply in_flat_map. exists x. split.
    { apply list_elem_of_In, elem_of_seqZ. lia. }
    by apply list_elem_of_In.
Qed.

(** A quad belongs to a cell exactly when the cell is solid and the
    neighbouring place, in the same array, is outside or holds Air. *)
Lemma elem_of_cell_quads d cx cz x y z f :
  f ∈ cell_quads d cx cz x y z <->
  exists t n, data_get d (cell_index x y z) = Some t /\ t <> BLOCK.AIR /\
    n ∈ neighbours /\
    local_block d (x + n.1.1.1) (y + n.1.1.2) (z + n.1.2) = Some BLOCK.AIR /\
    f = quad cx cz x y z t n.
Proof.
  unfold cell_quads. split.
  - destruct (data_get d (cell_index x y z)) as [t|]; [|by intros ?%elem_of_nil].
    destruct (decide (t = BLOCK.AIR)) as [|Hne]; [by intros ?%elem_of_nil|].
    rewrite list_elem_of_In, in_flat_map. intros (n & Hn & H).
    destruct (decide _) as [Hair|]; [|by destruct H].
    destruct H as [<-|[]]. exists t, n. by rewrite list_elem_of_In.
  - intros (t & n & -> & Hne & Hn & Hair & ->).
    rewrite decide_False by done.
    rewrite list_elem_of_In, in_flat_map. exists n. split; [by apply list_elem_of_In|].
    rewrite decide_True by done. by left.
Qed.

(** The build stores the quads of a loaded, well-formed chunk, and
    stores nothing when there are none. *)
Lemma buildChunkMesh_loaded w cx cz c :
  chunks_get (chunks w) (getChunkKey cx cz) = Some c ->
  wf_data (data c) ->
  buildChunkMesh w cx cz (data c) =
  Returned
    (match chunk_quads (data c) cx cz with
     | [] => w
     | qs =>
         let m := {| mesh_id := meshes_made w; mesh_faces := qs |} in
         {| chunks := chunks_set (chunks w) (getChunkKey cx cz)
                        {| data := data c; mesh := Some m |};
            scene := scene w ++ [m];
            meshes_made := S (meshes_made w) |}
     end).
Proof.
  intros Hc Hwf. unfold buildChunkMesh.
  rewrite (mesh_faces_of_normal _ _ _ _ Hc Hwf), Hc.
  by destruct (chunk_quads (data c) cx cz).
Qed.

Lemma outside_spec x y z : outside x y z = false <-> in_chunk x y z.
Proof. unfold outside, in_chunk, CHUNK_SIZE, CHUNK_HEIGHT. lia. Qed.

Lemma local_block_inside d x y z :
  in_chunk x y z -> local_block d x y z = data_get d (cell_index x y z).
Proof. intros H%outside_spec. unfold local_block. by rewrite H. Qed.

Lemma local_block_outside d x y z :
  ~ in_chunk x y z -> local_block d x y z = Some BLOCK.AIR.
Proof.
  intros H. unfold local_block. destruct (outside x y z) eqn:E; [done|].
  by apply outside_spec in E.
Qed.

Lemma quad_inj cx cz x y z t n x' y' z' t' n' :
  quad (Num cx) (Num cz) x y z t n = quad (Num cx) (Num cz) x' y' z' t' n' ->
  x = x' /\ y = y' /\ z = z' /\ t = t' /\ n = n'.
Proof.
  destruct n as [[[ox oy] oz] role], n' as [[[ox' oy'] oz'] role'].
  unfold quad, world_coord, CHUNK_SIZE. intros [=]. subst.
  repeat split; lia.
Qed.

(** ** Counting the quads of a chunk without Air *)

Lemma length_flat_map_ext {A B} (f : A -> list B) (k : A -> nat) (l : list A) :
  (forall a, a ∈ l -> length (f a) = k a) ->
  length (flat_map f l) = list_sum (map k l).
Proof.
  intros H. rewrite length_flat_map. f_equal. apply map_ext_in.
  intros a Ha. by apply H, list_elem_of_In.
Qed.

Lemma data_get_solid d x y z :
  wf_data d -> Forall (fun v => v <> BLOCK.AIR) d -> in_chunk x y z ->
  exists t, data_get d (cell_index x y z) = Some t /\ t <> BLOCK.AIR.
Proof.
  intros Hwf Hs Hin. destruct (data_get_wf _ _ _ _ Hwf Hin) as (t & Ht & _).
  exists t. split; [done|]. unfold data_get in Ht.
  destruct (cell_index x y z <? 0); [done|].
  rewrite Forall_lookup in Hs. by apply (Hs _ _ Ht).
Qed.

Lemma length_cell_quads_solid d cx cz x y z :
  wf_data d -> Forall (fun v => v <> BLOCK.AIR) d -> in_chunk x y z ->
  length (cell_quads d cx cz x y z) = boundary_faces x y z.
Proof.
  intros Hwf Hs Hin. unfold cell_quads, boundary_faces.
  destruct (data_get_solid _ _ _ _ Hwf Hs Hin) as (t & -> & Ht).
  rewrite decide_False by done.
  induction neighbours as [|n l IH]; [done|]. simpl.
  rewrite length_app, IH. unfold local_block.
  destruct (outside _ _ _) eqn:E.
  - by rewrite decide_True.
  - apply outside_spec in E.
    destruct (data_get_solid _ _ _ _ Hwf Hs E) as (t' & -> & Ht').
    rewrite decide_False; [done|congruence].
Qed.

Lemma length_chunk_quads_solid d cx cz :
  wf_data d -> Forall (fun v => v <> BLOCK.AIR) d ->
  length (chunk_quads d cx cz) = 2048%nat.
Proof.
  intros Hwf Hs. unfold chunk_quads.
  rewrite (length_flat_map_ext _ (fun y =>
    list_sum (map (fun z =>
      list_sum (map (fun x => boundary_faces x y z) (seqZ 0 CHUNK_SIZE)))
      (seqZ 0 CHUNK_SIZE)))); [by vm_compute|].
  intros y Hy%elem_of_seqZ. apply length_flat_map_ext.
  intros z Hz%elem_of_seqZ. apply length_flat_map_ext.
  intros x Hx%elem_of_seqZ. apply length_cell_quads_solid; [done..|].
  unfold in_chunk. lia.
Qed.

Lemma filled_wf t : 0 <= t <= 6 -> wf_data (filled t).
Proof.
  intros Ht. split.
  - unfold filled. rewrite length_replicate. lia.
  - by apply Forall_replicate.
Qed.

Lemma filled_solid t : t <> BLOCK.AIR -> Forall (fun v => v <> BLOCK.AIR) (filled t).
Proof. intros Ht. by apply Forall_replicate. Qed.

Lemma chunks_get_set cs key c :
  chunks_get (chunks_set cs key c) key = Some c.
Proof.
  induction cs as [|[k c'] cs IH]; simpl.
  - by rewrite String.eqb_refl.
  - destruct (String.eqb k key) eqn:E; simpl; by rewrite E.
Qed.

(** ** Faces at chunk edges *)

Ltac in_neighbours := apply list_elem_of_In; simpl; tauto.

Lemma data_get_filled t x y z :
  in_chunk x y z -> data_get (filled t) (cell_index x y z) = Some t.
Proof.
  intros Hin. pose proof (cell_index_range _ _ _ Hin).
  unfold data_get, filled. destruct (Z.ltb_spec (cell_index x y z) 0); [lia|].
  apply lookup_replicate_2. lia.
Qed.

Lemma stone_world_loaded cx cz :
  -1 <= cx <= 1 -> -1 <= cz <= 1 ->
  chunks_get (chunks stone_world) (getChunkKey (Num cx) (Num cz))
  = Some {| data := filled BLOCK.STONE; mesh := None |}.
Proof.
  intros Hx Hz.
  assert (cx = -1 \/ cx = 0 \/ cx = 1) as [->|[->| ->]] by lia;
    assert (cz = -1 \/ cz = 0 \/ cz = 1) as [->|[->| ->]] by lia;
    reflexivity.
Qed.

(** A solid cell's quad towards a place outside its chunk is always
    among the chunk's quads. *)
Lemma boundary_quad_emitted d cx cz x y z t n :
  in_chunk x y z -> data_get d (cell_index x y z) = Some t -> t <> BLOCK.AIR ->
  n ∈ neighbours -> ~ in_chunk (x + n.1.1.1) (y + n.1.1.2) (z + n.1.2) ->
  quad cx cz x y z t n ∈ chunk_quads d cx cz.
Proof.
  intros Hin Ht Hne Hn Hout. apply elem_of_chunk_quads. exists x, y, z.
  split; [done|]. apply elem_of_cell_quads. exists t, n.
  repeat split; try done. by apply local_block_outside.
Qed.

(** C1, counterexample: every chunk around [(0, 0)] is loaded and filled
    with Stone, the cell [(15, 0, 0)] of chunk [(0, 0)] and the adjacent
    cell [(0, 0, 0)] of chunk [(1, 0)] are both Stone, and still the build
    of chunk [(0, 0)] stores a mesh, of 2048 quads, with the quad of that
    cell's face towards [x + 1]. *)
Lemma C1_solid_neighbours_counterexample :
  (forall cx cz, -1 <= cx <= 1 -> -1 <= cz <= 1 ->
     forall x y z, in_chunk x y z ->
       getBlock (chunks stone_world) (Num cx) (Num cz) x y z = Some BLOCK.STONE) /\
  exists m,
    chunks_get
      (chunks (outcome_world
                 (buildChunkMesh stone_world (Num 0) (Num 0) (filled BLOCK.STONE))))
      (getChunkKey (Num 0) (Num 0))
    = Some {| data := filled BLOCK.STONE; mesh := Some m |} /\
    length (mesh_faces m) = 2048%nat /\
    quad (Num 0) (Num 0) 15 0 0 BLOCK.STONE (1, 0, 0, side) ∈ mesh_faces m.
Proof.
  split.
  - intros cx cz Hx Hz x y z Hin.
    rewrite (getBlock_loaded _ _ _ _ _ _ _ (stone_world_loaded cx cz Hx Hz)).
    rewrite local_block_inside by done. by apply data_get_filled.
  - pose proof (stone_world_loaded 0 0 ltac:(lia) ltac:(lia)) as Hc.
    assert (wf_data (filled BLOCK.STONE)) as Hwf by (apply filled_wf; done).
    assert (Forall (fun v => v <> BLOCK.AIR) (filled BLOCK.STONE)) as Hs
      by (by apply filled_solid).
    pose proof (length_chunk_quads_solid _ (Num 0) (Num 0) Hwf Hs) as Hlen.
    pose proof (buildChunkMesh_loaded _ _ _ _ Hc Hwf) as Hb.
    cbn [data] in Hb. rewrite Hb. clear Hb.
    destruct (chunk_quads (filled BLOCK.STONE) (Num 0) (Num 0)) as [|q qs] eqn:E;
      [done|].
    eexists. split; [apply chunks_get_set|]. split; [done|].
    cbn [mesh_faces]. rewrite <- E.
    apply (boundary_quad_emitted _ _ _ 15 0 0 BLOCK.STONE (1, 0, 0, side)).
    + unfold in_chunk, CHUNK_SIZE, CHUNK_HEIGHT. lia.
    + apply data_get_filled. unfold in_chunk, CHUNK_SIZE, CHUNK_HEIGHT. lia.
    + done.
    + in_neighbours.
    + unfold in_chunk, CHUNK_SIZE. simpl. lia.
Qed.

(** C1, as amended: the mesher culls faces only inside a chunk.  For a
    loaded, well-formed chunk at integer coordinates the build pushes
    exactly the quads of the solid cells' faces whose neighbouring place is
    outside the chunk's own bounds or holds Air in the same array: a face
    between two solid cells of the chunk gets no quad, a solid cell's face
    at the chunk's edge always gets one, whatever the world map holds for
    the neighbouring chunk, and a chunk without Air yields the 2048 quads
    of its outer surface.  [buildChunkMesh] returns, and stores these
    quads as the chunk's mesh unless there are none. *)
Theorem C1_mesher_culls_inside_chunk_only (w : World) (cx cz : Z) (c : Chunk) :
  chunks_get (chunks w) (getChunkKey (Num cx) (Num cz)) = Some c ->
  wf_data (data c) ->
  exists fs,
    mesh_faces_of (chunks w) (Num cx) (Num cz) (data c) = Normal fs /\
    (exists w',
       buildChunkMesh w (Num cx) (Num cz) (data c) = Returned w' /\
       match fs with
       | [] => w' = w
       | _ => exists m,
           chunks_get (chunks w') (getChunkKey (Num cx) (Num cz))
           = Some {| data := data c; mesh := Some m |} /\
           mesh_faces m = fs /\ m ∈ scene w'
       end) /\
    (forall f, f ∈ fs ->
       exists x y z t n, in_chunk x y z /\
         data_get (data c) (cell_index x y z) = Some t /\ t <> BLOCK.AIR /\
         n ∈ neighbours /\ f = quad (Num cx) (Num cz) x y z t n) /\
    (forall x y z t n,
       in_chunk x y z -> data_get (data c) (cell_index x y z) = Some t ->
       t <> BLOCK.AIR -> n ∈ neighbours ->
       let x' := x + n.1.1.1 in
       let y' := y + n.1.1.2 in
       let z' := z + n.1.2 in
       (quad (Num cx) (Num cz) x y z t n ∈ fs <->
        ~ in_chunk x' y' z' \/
        data_get (data c) (cell_index x' y' z') = Some BLOCK.AIR)) /\
    (Forall (fun v => v <> BLOCK.AIR) (data c) -> length fs = 2048%nat).
Proof.
  intros Hc Hwf. exists (chunk_quads (data c) (Num cx) (Num cz)).
  split; [by apply mesh_faces_of_normal|]. split; [|split; [|split]].
  - rewrite (buildChunkMesh_loaded _ _ _ _ Hc Hwf). eexists. split; [done|].
    destruct (chunk_quads (data c) (Num cx) (Num cz)) as [|q qs]; [done|].
    eexists. cbn [chunks scene]. split; [apply chunks_get_set|].
    split; [done|]. apply elem_of_app. right. by left.
  - intros f (x & y & z & Hin & H)%elem_of_chunk_quads.
    apply elem_of_cell_quads in H as (t & n & Ht & Hne & Hn & _ & ->).
    by exists x, y, z, t, n.
  - intros x y z t n Hin Ht Hne Hn x' y' z'. split.
    + intros (x1 & y1 & z1 & Hin1 & H)%elem_of_chunk_quads.
      apply elem_of_cell_quads in H as (t1 & n1 & _ & _ & _ & Hair & Heq).
      apply quad_inj in Heq as (-> & -> & -> & -> & ->).
      destruct (decide (in_chunk x' y' z')) as [Hin'|Hout]; [|by left].
      right. by rewrite <- (local_block_inside (data c)).
    + intros Hcase. apply elem_of_chunk_quads. exists x, y, z. split; [done|].
      apply elem_of_cell_quads. exists t, n. repeat split; try done.
      destruct Hcase as [Hout|Hair]; [by apply local_block_outside|].
      destruct (decide (in_chunk x' y' z')) as [Hin'|Hout].
      * by rewrite local_block_inside.
      * by apply local_block_outside.
  - intros Hs. by apply length_chunk_quads_solid.
Qed.

(** The amended C1 applied to chunk [(0, 0)] of the world of Stone. *)
Lemma C1_mesher_culls_inside_chunk_only_witness :
  let c := {| data := filled BLOCK.STONE; mesh := None |} in
  chunks_get (chunks stone_world) (getChunkKey (Num 0) (Num 0)) = Some c /\
  wf_data (data c) /\
  exists fs,
    mesh_faces_of (chunks stone_world) (Num 0) (Num 0) (data c) = Normal fs /\
    length fs = 2048%nat.
Proof.
  intros c.
  assert (chunks_get (chunks stone_world) (getChunkKey (Num 0) (Num 0)) = Some c)
    as Hc by reflexivity.
  assert (wf_data (data c)) as Hwf by (apply filled_wf; unfold BLOCK.STONE; lia).
  split; [exact Hc|]. split; [exact Hwf|].
  destruct (C1_mesher_culls_inside_chunk_only stone_world 0 0 c Hc Hwf)
    as (fs & Hfs & _ & _ & _ & Hlen).
  exists fs. split; [exact Hfs|].
  apply Hlen. apply filled_solid. unfold BLOCK.STONE, BLOCK.AIR. lia.
Defined.

(** C9: open edges.  In a loaded, well-formed chunk, a solid block at
    local [x = 0] whose neighbouring chunk towards [x - 1] is not loaded
    gets the quad of its face on that side: the build returns, stores a
    mesh for the chunk and puts it in the scene, and the quad is in it;
    and every block query into the unloaded chunk answers Air. *)
Theorem C9_open_edge_face (w : World) (cx cz : Z) (c : Chunk) (y z t : Z) :
  chunks_get (chunks w) (getChunkKey (Num cx) (Num cz)) = Some c ->
  wf_data (data c) ->
  in_chunk 0 y z ->
  data_get (data c) (cell_index 0 y z) = Some t -> t <> BLOCK.AIR ->
  chunks_get (chunks w) (getChunkKey (Num (cx - 1)) (Num cz)) = None ->
  (forall x' y' z',
     getBlock (chunks w) (Num (cx - 1)) (Num cz) x' y' z' = Some BLOCK.AIR) /\
  exists w' m,
    buildChunkMesh w (Num cx) (Num cz) (data c) = Returned w' /\
    chunks_get (chunks w') (getChunkKey (Num cx) (Num cz))
    = Some {| data := data c; mesh := Some m |} /\
    m ∈ scene w' /\
    {| f_ox := -1; f_oy := 0; f_oz := 0;
       f_px := Num (cx * CHUNK_SIZE + 0); f_py := y; f_pz := Num (cz * CHUNK_SIZE + z);
       f_type := t; f_role := side;
       f_uv := match TEXTURE_MAP (Some t) with
               | Some def => uvCoords def side
               | None => (0, 0)
               end |} ∈ mesh_faces m.
Proof.
  intros Hc Hwf Hin Ht Hne Hun. split.
  { intros x' y' z'. by apply getBlock_unloaded. }
  assert (quad (Num cx) (Num cz) 0 y z t (-1, 0, 0, side)
          ∈ chunk_quads (data c) (Num cx) (Num cz)) as Hq.
  { apply boundary_quad_emitted; try done; [in_neighbours|].
    unfold in_chunk. simpl. lia. }
  rewrite (buildChunkMesh_loaded _ _ _ _ Hc Hwf).
  destruct (chunk_quads (data c) (Num cx) (Num cz)) as [|q qs] eqn:E.
  { by apply elem_of_nil in Hq. }
  eexists _, _. split; [reflexivity|]. cbn [chunks scene].
  split; [apply chunks_get_set|]. split; [apply elem_of_app; right; by left|].
  exact Hq.
Qed.

(** C9 applied to the cell [(0, 0, 0)] of a lone chunk of Stone. *)
Lemma C9_open_edge_face_witness :
  let c := {| data := filled BLOCK.STONE; mesh := None |} in
  let w := {| chunks := [(getChunkKey (Num 0) (Num 0), c)];
              scene := []; meshes_made := 0 |} in
  chunks_get (chunks w) (getChunkKey (Num (0 - 1)) (Num 0)) = None /\
  data_get (data c) (cell_index 0 0 0) = Some BLOCK.STONE /\
  exists w' m,
    buildChunkMesh w (Num 0) (Num 0) (data c) = Returned w' /\
    m ∈ scene w' /\
    quad (Num 0) (Num 0) 0 0 0 BLOCK.STONE (-1, 0, 0, side) ∈ mesh_faces m.
Proof.
  intros c w.
  assert (in_chunk 0 0 0) as Hin by (unfold in_chunk, CHUNK_SIZE, CHUNK_HEIGHT; lia).
  assert (data_get (data c) (cell_index 0 0 0) = Some BLOCK.STONE) as Ht
    by (by apply data_get_filled).
  assert (chunks_get (chunks w) (getChunkKey (Num (0 - 1)) (Num 0)) = None) as Hun
    by reflexivity.
  split; [exact Hun|]. split; [exact Ht|].
  destruct (C9_open_edge_face w 0 0 c 0 0 BLOCK.STONE) as (_ & w' & m & Hb & _ & Hm & Hq).
  - reflexivity.
  - apply filled_wf. unfold BLOCK.STONE. lia.
  - exact Hin.
  - exact Ht.
  - unfold BLOCK.STONE, BLOCK.AIR. lia.
  - exact Hun.
  - exists w', m. split; [exact Hb|]. split; [exact Hm|]. exact Hq.
Defined.

(** ** Editing: resolving world coordinates *)

Lemma chunks_get_set_ne cs key key' c :
  key <> key' -> chunks_get (chunks_set cs key c) key' = chunks_get cs key'.
Proof.
  intros Hne. induction cs as [|[k c'] cs IH]; simpl.
  - destruct (String.eqb_spec key key'); [done|done].
  - destruct (String.eqb_spec k key) as [->|Hk]; simpl.
    + destruct (String.eqb_spec key key'); [done|done].
    + destruct (String.eqb_spec k key'); [done|apply IH].
Qed.

(** A build changes no block array: it only replaces a chunk's mesh. *)
Lemma buildChunkMesh_data w cx cz d key :
  data <$> chunks_get (chunks (outcome_world (buildChunkMesh w cx cz d))) key
  = data <$> chunks_get (chunks w) key.
Proof.
  unfold buildChunkMesh.
  destruct (mesh_faces_of (chunks w) cx cz d) as [[|q qs]|]; simpl; try done.
  destruct (chunks_get (chunks w) (getChunkKey cx cz)) as [c|] eqn:Hc; simpl; [|done].
  destruct (String.eqb_spec (getChunkKey cx cz) key) as [<-|Hne].
  - by rewrite chunks_get_set, Hc.
  - by rewrite chunks_get_set_ne.
Qed.

Section Floor.
Local Open Scope R_scope.

Lemma Zfloor_lt (x : R) (n : Z) : x < IZR n -> (Zfloor x < n)%Z.
Proof.
  intros H. apply lt_IZR. pose proof (Zfloor_bound x). lra.
Qed.

(** The chunk coordinate of an integer world coordinate is its floored
    quotient, and the local coordinate its non-negative remainder. *)
Lemma floor_chunk_of_int (X : Z) :
  Zfloor (IZR X / 16) = (X / 16)%Z /\
  Zfloor (IZR X - IZR (X / 16) * 16) = (X mod 16)%Z.
Proof.
  pose proof (Z.div_mod X 16 ltac:(lia)) as Hdm.
  pose proof (Z.mod_pos_bound X 16 ltac:(lia)) as [Hlo Hhi].
  apply IZR_le in Hlo. apply IZR_lt in Hhi.
  assert (IZR X = 16 * IZR (X / 16) + IZR (X mod 16)) as HX.
  { rewrite Hdm at 1. by rewrite plus_IZR, mult_IZR. }
  split; apply Zfloor_eq; lra.
Qed.

End Floor.

(** [setBlock] is [setBlock_cell] at the chunk and the local coordinates
    that it computes. *)
Lemma setBlock_cell_eq w wx wy wz id :
  setBlock w wx wy wz id
  = setBlock_cell w (Zfloor (wx / 16)) (Zfloor (wz / 16))
      (Zfloor (wx - IZR (Zfloor (wx / 16)) * 16)) (Zfloor wy)
      (Zfloor (wz - IZR (Zfloor (wz / 16)) * 16)) id.
Proof. reflexivity. Qed.

(** The block arrays after [setBlock_cell], whether the rebuild of the
    mesh returned or threw. *)
Lemma setBlock_cell_data_same w cx cz lx ly lz id c :
  chunks_get (chunks w) (getChunkKey (Num cx) (Num cz)) = Some c ->
  0 <= ly < CHUNK_HEIGHT ->
  data <$> chunks_get (chunks (outcome_world (setBlock_cell w cx cz lx ly lz id)))
             (getChunkKey (Num cx) (Num cz))
  = Some (data_set (data c) (cell_index lx ly lz) id).
Proof.
  intros Hc Hly. unfold setBlock_cell. rewrite Hc.
  replace ((ly >=? 0) && (ly <? CHUNK_HEIGHT)) with true by lia.
  rewrite buildChunkMesh_data. cbn [chunks]. by rewrite chunks_get_set.
Qed.

Lemma setBlock_cell_noop w cx cz lx ly lz id :
  chunks_get (chunks w) (getChunkKey (Num cx) (Num cz)) = None
  \/ ~ 0 <= ly < CHUNK_HEIGHT ->
  setBlock_cell w cx cz lx ly lz id = Returned w.
Proof.
  intros H. unfold setBlock_cell.
  destruct (chunks_get (chunks w) _) as [c|]; [|done].
  destruct H as [H|H]; [done|].
  by replace ((ly >=? 0) && (ly <? CHUNK_HEIGHT)) with false by lia.
Qed.

Lemma setBlock_cell_data_other w cx cz lx ly lz id key' :
  key' <> getChunkKey (Num cx) (Num cz) ->
  data <$> chunks_get (chunks (outcome_world (setBlock_cell w cx cz lx ly lz id))) key'
  = data <$> chunks_get (chunks w) key'.
Proof.
  intros Hne. unfold setBlock_cell.
  destruct (chunks_get (chunks w) _) as [c|]; [|done].
  destruct (_ && _); [|done].
  rewrite buildChunkMesh_data. cbn [chunks]. by rewrite chunks_get_set_ne.
Qed.

(** [setBlock64] at coordinates that resolve. *)
Lemma setBlock64_resolve w wx wy wz id cx lx cz lz ly :
  Binary64.resolve64 wx = Some (cx, lx) ->
  Binary64.resolve64 wz = Some (cz, lz) ->
  Binary64.to_int (Binary64.floor64 wy) = Some ly ->
  Binary64.setBlock64 w wx wy wz id = Some (setBlock_cell w cx cz lx ly lz id).
Proof.
  unfold Binary64.resolve64, Binary64.setBlock64. intros Hx Hz ->.
  destruct (Binary64.to_int (Binary64.floor64 (PrimFloat.div wx _))); [|done].
  destruct (Binary64.to_int (Binary64.floor64 (PrimFloat.sub wx _))); [|done].
  destruct (Binary64.to_int (Binary64.floor64 (PrimFloat.div wz _))); [|done].
  destruct (Binary64.to_int (Binary64.floor64 (PrimFloat.sub wz _))); [|done].
  by injection Hx as -> ->; injection Hz as -> ->.
Qed.

(** On doubles, the integer world coordinates from -512 to 512
    resolve as in exact arithmetic, to the quotient and the remainder. *)
Lemma resolve64_integers (X : Z) :
  -512 <= X <= 512 ->
  Binary64.resolve64 (Binary64.of_int X) = Some (X / 16, X mod 16) /\
  Binary64.to_int (Binary64.floor64 (Binary64.of_int X)) = Some X.
Proof.
  intros HX.
  assert (forallb
            (fun X => match Binary64.resolve64 (Binary64.of_int X),
                            Binary64.to_int (Binary64.floor64 (Binary64.of_int X)) with
                      | Some (c, l), Some X' =>
                          (c =? X / 16) && (l =? X mod 16) && (X' =? X)
                      | _, _ => false
                      end) (seqZ (-512) 1025) = true) as H
    by (vm_compute; reflexivity).
  rewrite forallb_forall in H. specialize (H X).
  destruct (Binary64.resolve64 _) as [[c l]|];
    destruct (Binary64.to_int _) as [X'|];
    try (discriminate H; apply list_elem_of_In, elem_of_seqZ; lia).
  assert ((c =? X / 16) && (l =? X mod 16) && (X' =? X) = true) as E
    by (apply H, list_elem_of_In, elem_of_seqZ; lia).
  apply andb_prop in E as [E E3]. apply andb_prop in E as [E1 E2].
  apply Z.eqb_eq in E1, E2, E3. by subst.
Qed.

(** On such positions [setBlock64] is [setBlock]. *)
Lemma setBlock64_integers w (X Y Zc : Z) id :
  -512 <= X <= 512 -> -512 <= Y <= 512 -> -512 <= Zc <= 512 ->
  Binary64.setBlock64 w (Binary64.of_int X) (Binary64.of_int Y) (Binary64.of_int Zc) id
  = Some (setBlock w (IZR X) (IZR Y) (IZR Zc) id).
Proof.
  intros HX HY HZ.
  destruct (resolve64_integers X HX) as [Hx _].
  destruct (resolve64_integers Y HY) as [_ Hy].
  destruct (resolve64_integers Zc HZ) as [Hz _].
  rewrite (setBlock64_resolve _ _ _ _ _ _ _ _ _ _ Hx Hz Hy), setBlock_cell_eq.
  destruct (floor_chunk_of_int X) as [-> ->].
  destruct (floor_chunk_of_int Zc) as [-> ->].
  by rewrite ZfloorZ.
Qed.

(** The real number that the double [tiny] holds. *)
Lemma to_R_tiny :
  Binary64.to_R Binary64.tiny
  = (-6490371073168535 / 649037107316853453566312041152512)%R.
Proof.
  unfold Binary64.to_R.
  replace (FloatOps.Prim2SF Binary64.tiny)
    with (SpecFloat.S754_finite true 6490371073168535 (-109))
    by (vm_compute; reflexivity).
  reflexivity.
Qed.

(** C3: the resolution of [setBlock] leaves the chunk at a small
    negative world coordinate.  On doubles, an integer world coordinate
    from -512 to 512 resolves to its floored quotient by 16 and to its
    remainder, which lies in [[0, 16)]: [-1] is cell 15 of chunk [-1].
    But for [wx] the double nearest to [-1e-17],
    [Math.floor(wx / 16)] is [-1] and [wx - (-1) * 16] is rounded to the
    double [16], so that [lx = 16], outside [[0, 16)]; computed exactly,
    the same two expressions give [-1] and [15].  With the chunk
    [(-1, cz)] in the map and [ly] in range, [setBlock] then writes the
    byte at the index [ly * 256 + lz * 16 + 16], which for [lz < 15] is the
    index of the cell [(0, ly, lz + 1)] and not that of the cell
    [(15, ly, lz)], and for [lz = 15] and [ly = 23] is past the end of
    the array. *)
Theorem C3_small_negative_resolves_outside
    (w : World) (wy wz : PrimFloat.float) (cz lz ly : Z) (c : Chunk) (id : Z) :
  Binary64.resolve64 wz = Some (cz, lz) ->
  Binary64.to_int (Binary64.floor64 wy) = Some ly ->
  0 <= ly < CHUNK_HEIGHT ->
  chunks_get (chunks w) (getChunkKey (Num (-1)) (Num cz)) = Some c ->
  (forall X, -512 <= X <= 512 ->
     Binary64.resolve64 (Binary64.of_int X) = Some (X / 16, X mod 16) /\
     0 <= X mod 16 < 16) /\
  Binary64.resolve64 (Binary64.of_int (-1)) = Some (-1, 15) /\
  Binary64.resolve64 Binary64.tiny = Some (-1, 16) /\
  (Zfloor (Binary64.to_R Binary64.tiny / 16) = -1 /\
   Zfloor (Binary64.to_R Binary64.tiny - IZR (-1) * 16) = 15) /\
  (exists o,
     Binary64.setBlock64 w Binary64.tiny wy wz id = Some o /\
     data <$> chunks_get (chunks (outcome_world o)) (getChunkKey (Num (-1)) (Num cz))
     = Some (data_set (data c) (cell_index 16 ly lz) id)) /\
  cell_index 16 ly lz = cell_index 0 ly (lz + 1) /\
  cell_index 16 ly lz <> cell_index 15 ly lz /\
  (ly = 23 -> lz = 15 -> cell_index 16 ly lz = 6144).
Proof.
  intros Hz Hy Hly Hc.
  assert (Binary64.resolve64 Binary64.tiny = Some (-1, 16)) as Hx
    by (vm_compute; reflexivity).
  split.
  { intros X HX. split; [by apply resolve64_integers|].
    apply Z.mod_pos_bound. lia. }
  split; [vm_compute; reflexivity|].
  split; [done|]. split.
  { rewrite to_R_tiny. split; apply Zfloor_eq; simpl; lra. }
  split.
  { eexists. split; [by apply (setBlock64_resolve _ _ _ _ _ _ _ _ _ _ Hx Hz Hy)|].
    by apply setBlock_cell_data_same. }
  unfold cell_index, CHUNK_SIZE. split; [lia|]. split; [lia|]. lia.
Qed.

(** The input of C3 is reached from [doRaycastAction]: a break through
    the top face of the block at the origin, hit at [x = tiny], writes
    the Air at the index of the cell [(0, 7, 1)] of the chunk [(-1, 0)]. *)
Lemma doRaycastAction64_break_tiny w cam sel c :
  chunks_get (chunks w) (getChunkKey (Num (-1)) (Num 0)) = Some c ->
  exists o,
    Binary64.doRaycastAction64 w cam sel [Binary64.hit_tiny] Break = Some o /\
    data <$> chunks_get (chunks (outcome_world o)) (getChunkKey (Num (-1)) (Num 0))
    = Some (data_set (data c) (cell_index 0 7 1) BLOCK.AIR).
Proof.
  intros Hc. unfold Binary64.doRaycastAction64, Binary64.hit_tiny.
  cbn [Binary64.point64 Binary64.face_normal64 Binary64.x64 Binary64.y64
       Binary64.z64].
  eexists. split.
  - apply (setBlock64_resolve _ _ _ _ _ (-1) 16 0 0 7); vm_compute; reflexivity.
  - rewrite (setBlock_cell_data_same _ _ _ _ _ _ _ _ Hc)
      by (unfold CHUNK_HEIGHT; lia).
    done.
Qed.

(** C3 at the world position [(tiny, 0, 0)], in a world whose only chunk
    [(-1, 0)] is filled with Stone: the Grass goes to the index 16. *)
Lemma C3_small_negative_resolves_outside_witness :
  let c := {| data := filled BLOCK.STONE; mesh := None |} in
  let w := {| chunks := [(getChunkKey (Num (-1)) (Num 0), c)];
              scene := []; meshes_made := 0 |} in
  exists o,
    Binary64.setBlock64 w Binary64.tiny PrimFloat.zero PrimFloat.zero BLOCK.GRASS
    = Some o /\
    data <$> chunks_get (chunks (outcome_world o)) (getChunkKey (Num (-1)) (Num 0))
    = Some (data_set (filled BLOCK.STONE) 16 BLOCK.GRASS).
Proof.
  intros c w.
  destruct (C3_small_negative_resolves_outside w PrimFloat.zero PrimFloat.zero
              0 0 0 c BLOCK.GRASS) as (_ & _ & _ & _ & H & _).
  - vm_compute. reflexivity.
  - vm_compute. reflexivity.
  - unfold CHUNK_HEIGHT. lia.
  - reflexivity.
  - exact H.
Defined.

(** C8: an edit outside the materialised world is a no-op.  When the
    chunk that owns the position is not loaded, or the vertical
    coordinate is below 0 or not below 24, [setBlock] returns (nothing
    is thrown) and the world is as before: every block array, every
    chunk's mesh and the scene. *)
Theorem C8_setBlock_noop (w : World) (wx wy wz : R) (id : Z) :
  chunks_get (chunks w)
    (getChunkKey (Num (Zfloor (wx / 16))) (Num (Zfloor (wz / 16)))) = None
  \/ (wy < 0)%R \/ (24 <= wy)%R ->
  setBlock w wx wy wz id = Returned w.
Proof.
  intros H. unfold setBlock. change (IZR CHUNK_SIZE) with 16%R.
  destruct H as [-> | H]; [done|].
  destruct (chunks_get _ _); [|done].
  assert (Zfloor wy < 0 \/ 24 <= Zfloor wy) as Hly.
  { destruct H as [H|H].
    - left. by apply Zfloor_lt.
    - right. by apply Zfloor_lub. }
  replace ((Zfloor wy >=? 0) && (Zfloor wy <? CHUNK_HEIGHT)) with false; [done|].
  unfold CHUNK_HEIGHT. lia.
Qed.

(** C8 applied to an edit at height 24 of a loaded chunk. *)
Lemma C8_setBlock_noop_witness :
  let w := {| chunks := [(getChunkKey (Num 0) (Num 0),
                          {| data := filled BLOCK.STONE; mesh := None |})];
              scene := []; meshes_made := 0 |} in
  setBlock w 0 24 0 BLOCK.GRASS = Returned w.
Proof.
  intros w. apply (C8_setBlock_noop w 0 24 0 BLOCK.GRASS).
  right. right. lra.
Defined.

(** ** Terrain generation *)

(** Loop invariants for [for_range]. *)
Lemma for_range_ind {A} (P : Z -> A -> Prop) (n : Z) (body : Z -> A -> A) (a : A) :
  0 <= n -> P 0 a ->
  (forall i a, 0 <= i < n -> P i a -> P (i + 1) (body i a)) ->
  P n (for_range n body a).
Proof.
  intros Hn H0 Hstep. unfold for_range.
  rewrite <- (Z2Nat.id n) by done.
  assert (Z.of_nat (Z.to_nat n) <= n) as Hle by lia.
  induction (Z.to_nat n) as [|k IH].
  - done.
  - rewrite seqZ_S, foldl_snoc. simpl.
    replace (Z.of_nat (S k)) with (Z.of_nat k + 1) by lia.
    apply Hstep; [lia|]. apply IH. lia.
Qed.

Lemma length_data_set d i v : length (data_set d i v) = length d.
Proof. unfold data_set. destruct (i <? 0); [done|]. apply length_insert. Qed.

Lemma data_get_set_eq d i v :
  0 <= i < Z.of_nat (length d) -> data_get (data_set d i v) i = Some (v mod 256).
Proof.
  intros Hi. unfold data_get, data_set.
  destruct (Z.ltb_spec i 0); [lia|]. apply list_lookup_insert_eq. lia.
Qed.

Lemma data_get_set_ne d i j v :
  i <> j -> data_get (data_set d i v) j = data_get d j.
Proof.
  intros Hne. unfold data_get, data_set.
  destruct (Z.ltb_spec j 0); [done|]. destruct (Z.ltb_spec i 0); [done|].
  apply list_lookup_insert_ne. lia.
Qed.

Lemma cell_index_inj x y z x' y' z' :
  in_chunk x y z -> in_chunk x' y' z' ->
  cell_index x y z = cell_index x' y' z' -> x = x' /\ y = y' /\ z = z'.
Proof. unfold in_chunk, cell_index, CHUNK_SIZE, CHUNK_HEIGHT. lia. Qed.

(** The body of the innermost loop writes [column_block]. *)
Lemma generate_cell_block height x z y d :
  generate_cell height x z y d
  = data_set d (cell_index x y z) (column_block height y).
Proof.
  unfold generate_cell, column_block.
  destruct (decide (y < height)); [done|]. by destruct (decide (y = height)).
Qed.

Lemma column_block_range height y : 0 <= column_block height y <= 3.
Proof.
  unfold column_block, BLOCK.STONE, BLOCK.DIRT, BLOCK.GRASS, BLOCK.AIR.
  repeat destruct (decide _); lia.
Qed.

Lemma generate_cell_step cx cz xw zw yw d :
  in_chunk xw yw zw -> generated cx cz xw zw yw d ->
  generated cx cz xw zw (yw + 1)
    (generate_cell (terrain_height (cx * CHUNK_SIZE + xw) (cz * CHUNK_SIZE + zw)) xw zw yw d).
Proof.
  intros Hin [Hlen Hd]. rewrite generate_cell_block. split.
  - by rewrite length_data_set.
  - intros x y z Hin' Hw.
    destruct (decide (cell_index xw yw zw = cell_index x y z)) as [Heq|Hne].
    + apply cell_index_inj in Heq as (<- & <- & <-); [|done..].
      rewrite data_get_set_eq.
      * f_equal. apply Z.mod_small. pose proof (column_block_range
          (terrain_height (cx * CHUNK_SIZE + xw) (cz * CHUNK_SIZE + zw)) yw). lia.
      * pose proof (cell_index_range _ _ _ Hin). lia.
    + rewrite data_get_set_ne by done. apply Hd; [done|].
      unfold written in *.
      assert (~ (x = xw /\ y = yw /\ z = zw)) by (intros (-> & -> & ->); done).
      lia.
Qed.

Lemma generated_weaken cx cz xw zw yw xw' zw' yw' d :
  (forall x y z, in_chunk x y z -> written xw' zw' yw' x y z -> written xw zw yw x y z) ->
  generated cx cz xw zw yw d -> generated cx cz xw' zw' yw' d.
Proof. intros Hw [Hlen Hd]. split; [done|]. intros x y z Hin H. by apply Hd, Hw. Qed.

Lemma generateChunkData_generated cx cz :
  generated cx cz CHUNK_SIZE 0 0 (generateChunkData cx cz).
Proof.
  unfold generateChunkData.
  apply (for_range_ind (fun xw d => generated cx cz xw 0 0 d)); [done| |].
  { split; [by rewrite length_replicate|].
    unfold written, in_chunk. lia. }
  intros xw d HX Hd.
  apply (generated_weaken cx cz xw CHUNK_SIZE 0).
  { unfold written, in_chunk, CHUNK_SIZE. lia. }
  apply (for_range_ind (fun zw d => generated cx cz xw zw 0 d)); [done|done|].
  intros zw d' HZ Hd'. cbv zeta.
  apply (generated_weaken cx cz xw zw CHUNK_HEIGHT).
  { unfold written, in_chunk, CHUNK_HEIGHT. lia. }
  apply (for_range_ind (fun yw d => generated cx cz xw zw yw d)); [done|done|].
  intros yw d'' HY Hd''. apply generate_cell_step; [|done].
  unfold in_chunk. lia.
Qed.

(** Every cell of a generated chunk holds the block of its column. *)
Lemma generateChunkData_cell cx cz x y z :
  in_chunk x y z ->
  data_get (generateChunkData cx cz) (cell_index x y z)
  = Some (column_block
            (terrain_height (cx * CHUNK_SIZE + x) (cz * CHUNK_SIZE + z)) y).
Proof.
  intros Hin. destruct (generateChunkData_generated cx cz) as [_ H].
  apply H; [done|]. unfold written, in_chunk in *. lia.
Qed.

Lemma length_generateChunkData cx cz :
  Z.of_nat (length (generateChunkData cx cz)) = 6144.
Proof. by destruct (generateChunkData_generated cx cz) as [H _]. Qed.

Lemma terrain_height_range worldX worldZ : 1 <= terrain_height worldX worldZ <= 9.
Proof.
  unfold terrain_height.
  pose proof (SIN_bound (IZR worldX * 0.1)) as [Hs1 Hs2].
  pose proof (COS_bound (IZR worldZ * 0.1)) as [Hc1 Hc2].
  split.
  - apply Zfloor_lub. simpl. lra.
  - assert (Zfloor (5 + sin (IZR worldX * 0.1) * 2 + cos (IZR worldZ * 0.1) * 2) < 10);
      [|lia].
    apply Zfloor_lt. simpl. lra.
Qed.

(** C6: the columns of a generated chunk.  For every chunk coordinate
    and every cell [(x, y, z)] of the chunk, with
    [height = floor(5 + 2 sin(worldX * 0.1) + 2 cos(worldZ * 0.1))] at
    [worldX = cx * 16 + x], [worldZ = cz * 16 + z]: the cell is Stone
    when [y < height - 3], Dirt when [height - 3 <= y < height], Grass
    when [y = height] and Air when [y > height]. *)
Theorem C6_generate_column (cx cz x y z : Z) :
  in_chunk x y z ->
  let worldX := cx * 16 + x in
  let worldZ := cz * 16 + z in
  let height :=
    Zfloor (5 + 2 * sin (IZR worldX * 0.1) + 2 * cos (IZR worldZ * 0.1))%R in
  let cell := data_get (generateChunkData cx cz) (cell_index x y z) in
  (y < height - 3 -> cell = Some BLOCK.STONE) /\
  (height - 3 <= y < height -> cell = Some BLOCK.DIRT) /\
  (y = height -> cell = Some BLOCK.GRASS) /\
  (height < y -> cell = Some BLOCK.AIR).
Proof.
  intros Hin worldX worldZ height cell.
  assert (height = terrain_height (cx * CHUNK_SIZE + x) (cz * CHUNK_SIZE + z)) as Hh.
  { unfold height, terrain_height, worldX, worldZ, CHUNK_SIZE. f_equal. lra. }
  unfold cell. rewrite (generateChunkData_cell _ _ _ _ _ Hin), <- Hh.
  unfold column_block. repeat split; intros Hy; repeat destruct (decide _); try done; lia.
Qed.

(** C6 applied to the cell [(0, 0, 0)] of chunk [(0, 0)]. *)
Lemma C6_generate_column_witness :
  let height := Zfloor (5 + 2 * sin (IZR (0 * 16 + 0) * 0.1)
                          + 2 * cos (IZR (0 * 16 + 0) * 0.1))%R in
  let cell := data_get (generateChunkData 0 0) (cell_index 0 0 0) in
  (0 < height - 3 -> cell = Some BLOCK.STONE) /\
  (height - 3 <= 0 < height -> cell = Some BLOCK.DIRT) /\
  (0 = height -> cell = Some BLOCK.GRASS) /\
  (height < 0 -> cell = Some BLOCK.AIR).
Proof.
  apply (C6_generate_column 0 0 0 0 0).
  unfold in_chunk, CHUNK_SIZE, CHUNK_HEIGHT. lia.
Defined.

(** Every index of a block array is the index of a cell. *)
Lemma cell_of_index (i : Z) :
  0 <= i < 6144 ->
  exists x y z, in_chunk x y z /\ cell_index x y z = i.
Proof.
  intros Hi. exists (i mod 16), (i / 256), ((i / 16) mod 16).
  unfold in_chunk, cell_index, CHUNK_SIZE, CHUNK_HEIGHT.
  pose proof (Z.div_mod i 16 ltac:(lia)).
  pose proof (Z.div_mod (i / 16) 16 ltac:(lia)).
  pose proof (Z.mod_pos_bound i 16 ltac:(lia)).
  pose proof (Z.mod_pos_bound (i / 16) 16 ltac:(lia)).
  assert (i / 16 / 16 = i / 256) by (rewrite Z.div_div by lia; reflexivity).
  assert (0 <= i / 256 < 24) by (split; [apply Z.div_pos; lia|apply Z.div_lt_upper_bound; lia]).
  lia.
Qed.

(** Every element of a generated array is the block of some cell. *)
Lemma generateChunkData_lookup cx cz (i : nat) (v : Z) :
  generateChunkData cx cz !! i = Some v ->
  exists height y, v = column_block height y.
Proof.
  intros Hi. pose proof (lookup_lt_Some _ _ _ Hi) as Hlt.
  pose proof (length_generateChunkData cx cz) as Hlen.
  destruct (cell_of_index (Z.of_nat i) ltac:(lia)) as (x & y & z & Hin & Hidx).
  pose proof (generateChunkData_cell cx cz x y z Hin) as Hcell.
  unfold data_get in Hcell. rewrite Hidx in Hcell.
  destruct (Z.ltb_spec (Z.of_nat i) 0); [lia|].
  rewrite Nat2Z.id, Hi in Hcell. injection Hcell as ->. eauto.
Qed.

(** Generated chunks are well formed. *)
Lemma generateChunkData_wf cx cz : wf_data (generateChunkData cx cz).
Proof.
  split; [apply length_generateChunkData|].
  apply Forall_lookup. intros i v Hi.
  destruct (generateChunkData_lookup _ _ _ _ Hi) as (height & y & ->).
  pose proof (column_block_range height y). lia.
Qed.

(** C10: what every generated chunk satisfies.  The array holds only
    Air, Grass, Dirt and Stone; every cell at height 10 or more is Air;
    and in each of the 256 columns the surface height lies in [[1, 9]]
    and the one cell holding Grass is the cell at that height. *)
Theorem C10_generated_invariants (cx cz : Z) :
  Forall (fun v => v = BLOCK.AIR \/ v = BLOCK.GRASS \/ v = BLOCK.DIRT \/ v = BLOCK.STONE)
         (generateChunkData cx cz) /\
  (forall x y z, in_chunk x y z -> 10 <= y ->
     data_get (generateChunkData cx cz) (cell_index x y z) = Some BLOCK.AIR) /\
  (forall x z, 0 <= x < CHUNK_SIZE -> 0 <= z < CHUNK_SIZE ->
     let height := terrain_height (cx * CHUNK_SIZE + x) (cz * CHUNK_SIZE + z) in
     1 <= height <= 9 /\
     forall y, 0 <= y < CHUNK_HEIGHT ->
       (data_get (generateChunkData cx cz) (cell_index x y z) = Some BLOCK.GRASS
        <-> y = height)).
Proof.
  split; [|split].
  - apply Forall_lookup. intros i v Hi.
    destruct (generateChunkData_lookup _ _ _ _ Hi) as (height & y & ->).
    unfold column_block. repeat destruct (decide _); tauto.
  - intros x y z Hin Hy. rewrite generateChunkData_cell by done.
    pose proof (terrain_height_range (cx * CHUNK_SIZE + x) (cz * CHUNK_SIZE + z)).
    unfold column_block. repeat destruct (decide _); try done; lia.
  - intros x z Hx Hz height.
    pose proof (terrain_height_range (cx * CHUNK_SIZE + x) (cz * CHUNK_SIZE + z)) as Hh.
    split; [done|]. intros y Hy.
    rewrite generateChunkData_cell by (unfold in_chunk; lia).
    fold height. unfold column_block, BLOCK.STONE, BLOCK.DIRT, BLOCK.GRASS, BLOCK.AIR.
    repeat destruct (decide _); split; intros; try done; try lia.
Qed.

(** ** Physics: the ground test and the fall onto a flat surface *)

Section Physics.
Local Open Scope R_scope.

Lemma moveVec_no_input b dt :
  moveInput_x b = 0 -> moveInput_y b = 0 -> moveVec b dt = zero3.
Proof.
  intros Hx Hy. unfold moveVec, addScaledVector, zero3. rewrite Hx, Hy.
  simpl. f_equal; ring.
Qed.

Lemma moved_no_input b dt :
  moveInput_x b = 0 -> moveInput_y b = 0 ->
  moved b dt
  = set_y (position b) (vy (position b) + (vy (velocity b) - GRAVITY * dt) * dt).
Proof.
  intros Hx Hy. unfold moved. rewrite moveVec_no_input by done.
  destruct (position b) as [px py pz]. unfold add3, set_y, zero3. simpl.
  f_equal; ring.
Qed.

(** A non-Air answer of [getBlock] comes from a cell of a loaded chunk. *)
Lemma getBlock_solid_range cs cx cz x y z :
  getBlock cs cx cz x y z <> Some BLOCK.AIR -> (0 <= y < CHUNK_HEIGHT)%Z.
Proof.
  unfold getBlock. destruct (chunks_get cs (getChunkKey cx cz)); [|done].
  destruct (_ || _) eqn:E; [done|]. intros _. unfold CHUNK_HEIGHT in *. lia.
Qed.

(** One step of [updatePhysics], by the outcome of its ground test. *)
Lemma updatePhysics_ground_test cs dt b :
  let pos := moved b dt in
  let ly := Zfloor (vy pos - 1.6) in
  (block_below cs b dt <> Some BLOCK.AIR ->
   updatePhysics cs dt b =
   {| position := set_y pos (IZR ly + 1 + 1.6);
      rotation := rotation b;
      velocity := set_y (velocity b) 0;
      onGround := true;
      moveInput_x := moveInput_x b; moveInput_y := moveInput_y b |}) /\
  (block_below cs b dt = Some BLOCK.AIR ->
   onGround (updatePhysics cs dt b) = false /\
   (-10 <= vy pos ->
    updatePhysics cs dt b =
    {| position := pos;
       rotation := rotation b;
       velocity := set_y (velocity b) (vy (velocity b) - GRAVITY * dt);
       onGround := false;
       moveInput_x := moveInput_x b; moveInput_y := moveInput_y b |})).
Proof.
  intros pos ly. unfold updatePhysics. change (IZR CHUNK_SIZE) with 16.
  change (set_y (add3 (position b) (moveVec b dt))
            (vy (add3 (position b) (moveVec b dt))
             + vy (set_y (velocity b) (vy (velocity b) - GRAVITY * dt)) * dt))
    with pos.
  change (getBlock cs _ _ _ _ _) with (block_below cs b dt). fold ly.
  split.
  - intros Hsolid. rewrite decide_False by done.
    pose proof (getBlock_solid_range _ _ _ _ _ _ Hsolid) as Hly. fold pos ly in Hly.
    destruct (Rlt_dec _ _) as [Hkill|_].
    + exfalso. simpl in Hkill. destruct Hly as [Hly _]. apply IZR_le in Hly. lra.
    + destruct (velocity b). reflexivity.
  - intros Hair. rewrite decide_True by done. split.
    + by destruct (Rlt_dec _ _).
    + intros Hpos. destruct (Rlt_dec _ _) as [Hkill|_]; [lra|done].
Qed.

End Physics.

Section Fall.
Local Open Scope R_scope.

Variable cs : ChunkMap.
Variable b : Body.

Hypothesis still_x : moveInput_x b = 0.
Hypothesis still_y : moveInput_y b = 0.

(** The column under the body: Grass at height 5, Air above. *)
Let chX := Zfloor (vx (position b) / 16).
Let chZ := Zfloor (vz (position b) / 16).
Let lx := Zfloor (vx (position b) - IZR chX * 16).
Let lz := Zfloor (vz (position b) - IZR chZ * 16).

Hypothesis surface : getBlock cs (Num chX) (Num chZ) lx 5 lz = Some BLOCK.GRASS.
Hypothesis above :
  forall ly, (6 <= ly)%Z -> getBlock cs (Num chX) (Num chZ) lx ly lz = Some BLOCK.AIR.

(** The block sampled by a step of a body in this column that does not
    move horizontally. *)
Lemma block_below_column (b1 : Body) y :
  moveInput_x b1 = 0 -> moveInput_y b1 = 0 ->
  position b1 = set_y (position b) y ->
  block_below cs b1 0.016
  = getBlock cs (Num chX) (Num chZ) lx
      (Zfloor (y + (vy (velocity b1) - GRAVITY * 0.016) * 0.016 - 1.6)) lz.
Proof.
  intros Hx Hy Hp. unfold block_below. rewrite (moved_no_input _ _ Hx Hy), Hp.
  reflexivity.
Qed.



Lemma rest_step : updatePhysics cs 0.016 (landed b) = landed b.
Proof.
  destruct (updatePhysics_ground_test cs 0.016 (landed b)) as [Hground _].
  assert (Zfloor (5 + 1 + 1.6
                  + (vy (velocity (landed b)) - GRAVITY * 0.016) * 0.016 - 1.6)
          = 5%Z) as Hly.
  { cbn [landed velocity set_y vy]. unfold GRAVITY. apply Zfloor_eq. simpl. lra. }
  rewrite Hground.
  - rewrite (moved_no_input (landed b) _ still_x still_y).
    cbn [landed position set_y vy].
    rewrite Hly. reflexivity.
  - rewrite (block_below_column (landed b) (5 + 1 + 1.6) still_x still_y eq_refl).
    rewrite Hly, surface. done.
Qed.

(** [updatePhysics] does not read [player.onGround]. *)
Lemma updatePhysics_onGround dt (b1 b2 : Body) :
  position b1 = position b2 -> rotation b1 = rotation b2 ->
  velocity b1 = velocity b2 ->
  moveInput_x b1 = moveInput_x b2 -> moveInput_y b1 = moveInput_y b2 ->
  updatePhysics cs dt b1 = updatePhysics cs dt b2.
Proof.
  destruct b1, b2. simpl. intros -> -> -> -> ->. reflexivity.
Qed.

Hypothesis start_height : vy (position b) = 30.
Hypothesis start_velocity : velocity b = zero3.



End Fall.

Lemma data_get_flat x y z :
  in_chunk x y z -> data_get flat_data (cell_index x y z) = Some (column_block 5 y).
Proof.
  intros Hin. pose proof (cell_index_range _ _ _ Hin) as Hi.
  unfold data_get, flat_data. destruct (Z.ltb_spec (cell_index x y z) 0); [lia|].
  rewrite list_lookup_fmap, lookup_seqZ_lt by lia. simpl. f_equal. f_equal.
  rewrite Z2Nat.id by lia. unfold in_chunk, cell_index, CHUNK_SIZE, CHUNK_HEIGHT in *.
  symmetry. apply Z.div_unique with (r := z * 16 + x); lia.
Qed.

Lemma getBlock_flat x y z :
  0 <= x < 16 -> 0 <= z < 16 ->
  getBlock flat_chunks (Num 0) (Num 0) x y z
  = Some (if decide (0 <= y < 24) then column_block 5 y else BLOCK.AIR).
Proof.
  intros Hx Hz.
  rewrite (getBlock_loaded _ _ _ {| data := flat_data; mesh := None |}) by reflexivity.
  cbn [data]. destruct (decide (0 <= y < 24)) as [Hy|Hy].
  - rewrite local_block_inside by (unfold in_chunk, CHUNK_SIZE, CHUNK_HEIGHT; lia).
    apply data_get_flat. unfold in_chunk, CHUNK_SIZE, CHUNK_HEIGHT. lia.
  - apply local_block_outside. unfold in_chunk, CHUNK_SIZE, CHUNK_HEIGHT. lia.
Qed.



(** ** The camera's horizontal axes *)

Section Look.
Local Open Scope R_scope.

Lemma sin_half a : sin a = 2 * sin (a / 2) * cos (a / 2).
Proof. rewrite <- sin_2a. f_equal. lra. Qed.

Lemma cos_half a : cos a = cos (a / 2) * cos (a / 2) - sin (a / 2) * sin (a / 2).
Proof. rewrite <- cos_2a. f_equal. lra. Qed.

Lemma sin_cos_one a : sin a * sin a + cos a * cos a = 1.
Proof. pose proof (sin2_cos2 a) as H. unfold Rsqr in H. exact H. Qed.

(** The look direction of a camera with Euler angles [(pitch, yaw, 0)]
    in the order XYZ: the yaw is applied first and the pitch, about the
    world's x axis, after it. *)
Lemma forward_rotated pitch yaw :
  applyQuaternion {| vx := 0; vy := 0; vz := -1 |}
    (setFromEuler {| ex := pitch; ey := yaw; ez := 0 |})
  = {| vx := - sin yaw; vy := sin pitch * cos yaw; vz := - (cos pitch * cos yaw) |}.
Proof.
  unfold applyQuaternion, setFromEuler. cbn [qx qy qz qw vx vy vz ex ey ez].
  replace (0 / 2) with 0 by lra. rewrite sin_0, cos_0.
  rewrite (sin_half yaw), (cos_half yaw), (sin_half pitch), (cos_half pitch).
  pose proof (sin_cos_one (pitch / 2)) as H1.
  set (s1 := sin (pitch / 2)) in *. set (c1 := cos (pitch / 2)) in *.
  set (s2 := sin (yaw / 2)) in *. set (c2 := cos (yaw / 2)) in *.
  f_equal; [|ring..].
  replace (- (2 * s2 * c2)) with (- (2 * s2 * c2) * (s1 * s1 + c1 * c1))
    by (rewrite H1; ring).
  ring.
Qed.

Lemma right_rotated pitch yaw :
  applyQuaternion {| vx := 1; vy := 0; vz := 0 |}
    (setFromEuler {| ex := pitch; ey := yaw; ez := 0 |})
  = {| vx := cos yaw; vy := sin pitch * sin yaw; vz := - (cos pitch * sin yaw) |}.
Proof.
  unfold applyQuaternion, setFromEuler. cbn [qx qy qz qw vx vy vz ex ey ez].
  replace (0 / 2) with 0 by lra. rewrite sin_0, cos_0.
  rewrite (sin_half yaw), (cos_half yaw), (sin_half pitch), (cos_half pitch).
  pose proof (sin_cos_one (pitch / 2)) as H1.
  set (s1 := sin (pitch / 2)) in *. set (c1 := cos (pitch / 2)) in *.
  set (s2 := sin (yaw / 2)) in *. set (c2 := cos (yaw / 2)) in *.
  f_equal; [|ring..].
  replace (c2 * c2 - s2 * s2) with ((c2 * c2 - s2 * s2) * (s1 * s1 + c1 * c1))
    by (rewrite H1; ring).
  ring.
Qed.

(** [normalize] divides every component by one non-zero number. *)
Lemma normalize_scale (u : Vector3) :
  exists s, s <> 0 /\
    normalize u = {| vx := vx u / s; vy := vy u / s; vz := vz u / s |}.
Proof.
  unfold normalize. destruct (Req_dec_T (length3 u) 0) as [_|Hne].
  - exists 1. split; [lra|done].
  - by exists (length3 u).
Qed.

(** The forward axis of [looking pitch yaw _ _]: the horizontal part of
    the look direction keeps a factor [cos pitch] in its z component
    only, so its direction depends on the pitch. *)
Lemma forward_axis_looking pitch yaw fwd strafe :
  exists s, s <> 0 /\
    forward_axis (looking pitch yaw fwd strafe)
    = {| vx := - sin yaw / s; vy := 0 / s; vz := - (cos pitch * cos yaw) / s |}.
Proof.
  unfold forward_axis, quaternion, looking. cbn [rotation].
  rewrite forward_rotated. apply normalize_scale.
Qed.

(** The displacement of a step with the stick pushed straight forward. *)
Lemma moveVec_forward pitch yaw dt :
  moveVec (looking pitch yaw 1 0) dt
  = {| vx := vx (forward_axis (looking pitch yaw 1 0)) * (SPEED * dt);
       vy := vy (forward_axis (looking pitch yaw 1 0)) * (SPEED * dt);
       vz := vz (forward_axis (looking pitch yaw 1 0)) * (SPEED * dt) |}.
Proof.
  unfold moveVec, addScaledVector. cbn [looking moveInput_x moveInput_y vx vy vz].
  f_equal; ring.
Qed.

Lemma sin_cos_PI4 : sin (PI / 4) = cos (PI / 4) /\ cos (PI / 4) <> 0.
Proof.
  rewrite sin_PI4, cos_PI4. split; [done|].
  pose proof (sin_cos_one (PI / 4)) as H. rewrite sin_PI4, cos_PI4 in H.
  intros H0. rewrite H0 in H. lra.
Qed.

End Look.

Section Pitch.
Local Open Scope R_scope.

(** Where a step leaves the body horizontally, unless the kill plane
    resets it. *)
Lemma updatePhysics_horizontal cs dt b :
  -10 <= vy (moved b dt) ->
  vx (position (updatePhysics cs dt b)) = vx (position b) + vx (moveVec b dt) /\
  vz (position (updatePhysics cs dt b)) = vz (position b) + vz (moveVec b dt).
Proof.
  intros Hy. destruct (updatePhysics_ground_test cs dt b) as [Hground Hair].
  destruct (decide (block_below cs b dt = Some BLOCK.AIR)) as [Hb|Hb].
  - destruct (Hair Hb) as [_ ->]; done.
  - rewrite (Hground Hb). done.
Qed.

(** With the stick pushed straight forward, pitching the camera changes
    the horizontal displacement of a step whenever the yaw is not a
    multiple of 90 degrees. *)
Lemma moveVec_depends_on_pitch pitch yaw dt :
  sin yaw <> 0 -> cos yaw <> 0 -> cos pitch <> 1 -> dt <> 0 ->
  ~ (vx (moveVec (looking 0 yaw 1 0) dt) = vx (moveVec (looking pitch yaw 1 0) dt) /\
     vz (moveVec (looking 0 yaw 1 0) dt) = vz (moveVec (looking pitch yaw 1 0) dt)).
Proof.
  intros Hs Hc Hp Hdt.
  destruct (forward_axis_looking 0 yaw 1 0) as (s1 & Hs1 & Hf1).
  destruct (forward_axis_looking pitch yaw 1 0) as (s2 & Hs2 & Hf2).
  rewrite !moveVec_forward, Hf1, Hf2. cbn [vx vz]. rewrite cos_0.
  unfold SPEED, Rdiv. intros [Hx Hz].
  pose proof (Rinv_neq_0_compat s2 Hs2) as Ha2.
  set (a1 := / s1) in *. set (a2 := / s2) in *.
  assert (6 * dt <> 0) as Hk by lra.
  apply Rmult_eq_reg_r in Hx; [|done]. apply Rmult_eq_reg_r in Hz; [|done].
  assert (sin yaw * a1 = sin yaw * a2) as H1 by lra.
  apply Rmult_eq_reg_l in H1; [|done]. rewrite H1 in Hz.
  assert (cos yaw * a2 * (1 - cos pitch) = 0) as H0.
  { replace (cos yaw * a2 * (1 - cos pitch))
      with (- - (1 * cos yaw) * a2 - - - (cos pitch * cos yaw) * a2) by ring.
    lra. }
  apply Rmult_integral in H0 as [H0|H0]; [|lra].
  apply Rmult_integral in H0 as [H0|H0]; done.
Qed.

(** C4, at the failing input: the camera is turned by a yaw of 45
    degrees and the stick is pushed straight forward; one step of
    [dt = 0.016] with the camera level and one with it pitched up by 60
    degrees add different horizontal displacements to the position. *)
Theorem C4_pitch_changes_horizontal_move :
  let level := looking 0 (PI / 4) 1 0 in
  let raised := looking (PI / 3) (PI / 4) 1 0 in
  ~ (vx (moveVec level 0.016) = vx (moveVec raised 0.016) /\
     vz (moveVec level 0.016) = vz (moveVec raised 0.016)) /\
  forall cs,
    ~ (vx (position (updatePhysics cs 0.016 level))
       = vx (position (updatePhysics cs 0.016 raised)) /\
       vz (position (updatePhysics cs 0.016 level))
       = vz (position (updatePhysics cs 0.016 raised))).
Proof.
  intros level raised.
  destruct sin_cos_PI4 as [Hsc Hc].
  assert (~ (vx (moveVec level 0.016) = vx (moveVec raised 0.016) /\
             vz (moveVec level 0.016) = vz (moveVec raised 0.016))) as Hmove.
  { apply moveVec_depends_on_pitch; [by rewrite Hsc|done| |lra].
    rewrite cos_PI3. lra. }
  split; [exact Hmove|].
  intros cs [Hx Hz]. apply Hmove.
  assert (forall pitch, -10 <= vy (moved (looking pitch (PI / 4) 1 0) 0.016)) as Hup.
  { intros pitch. unfold moved. cbn [set_y vy add3]. rewrite moveVec_forward.
    destruct (forward_axis_looking pitch (PI / 4) 1 0) as (s & Hs & ->).
    cbn [vy looking position velocity zero3]. unfold GRAVITY, SPEED, Rdiv. lra. }
  destruct (updatePhysics_horizontal cs 0.016 level (Hup 0)) as [Hx1 Hz1].
  destruct (updatePhysics_horizontal cs 0.016 raised (Hup (PI / 3))) as [Hx2 Hz2].
  rewrite Hx1, Hx2 in Hx. rewrite Hz1, Hz2 in Hz.
  unfold level, raised in Hx, Hz. cbn [looking position vx vz] in Hx, Hz.
  fold level raised in Hx, Hz. split; lra.
Qed.

End Pitch.

(** ** Reading back the JSON text of a save *)

Lemma string_app_assoc (s1 s2 s3 : string) :
  ((s1 ++ s2) ++ s3 = s1 ++ (s2 ++ s3))%string.
Proof. induction s1 as [|c s1 IH]; simpl; [done|by rewrite IH]. Qed.

Lemma prun_app st s1 s2 :
  prun st (s1 ++ s2)
  = match prun st s1 with Some st' => prun st' s2 | None => None end.
Proof.
  revert st. induction s1 as [|c s1 IH]; intros st; simpl; [done|].
  destruct (pstep st c); [apply IH|done].
Qed.

Lemma prun_digits o k acc neg lu d :
  prun (PElem o k acc (Digits neg lu)) (NilEmpty.string_of_uint d)
  = Some (PElem o k acc (Digits neg (revapp d lu))).
Proof. revert lu. induction d; intros lu; simpl; [done|apply IHd..]. Qed.

(** The digits of a positive number start with a non-zero digit. *)
Lemma to_uint_head p :
  match Pos.to_uint p with Nil | D0 _ => False | _ => True end.
Proof.
  pose proof (DecimalPos.Unsigned.to_of (Pos.to_uint p)) as Hn.
  rewrite DecimalPos.Unsigned.of_to in Hn. simpl in Hn.
  pose proof (DecimalPos.Unsigned.to_uint_nonnil p) as Hnil.
  pose proof (DecimalPos.Unsigned.to_uint_nonzero p) as Hzero.
  destruct (Pos.to_uint p) as [|d| | | | | | | | |] eqn:E; try done.
  unfold unorm in Hn. pose proof (DecimalFacts.nzhead_nonzero (D0 d)) as Hnz.
  destruct (nzhead (D0 d)) eqn:E'; congruence.
Qed.

(** Reading the digits of a positive number after an optional sign. *)
Lemma prun_pos o k acc (neg : bool) p :
  prun (PElem o k acc (if neg then Minus else NoNum))
       (NilEmpty.string_of_uint (Pos.to_uint p))
  = Some (PElem o k acc (Digits neg (Decimal.rev (Pos.to_uint p)))).
Proof.
  pose proof (to_uint_head p) as Hh.
  destruct (Pos.to_uint p) as [|d|d|d|d|d|d|d|d|d|d]; try done;
    destruct neg; simpl; apply prun_digits.
Qed.

Lemma print_int_pos p :
  print_int (Z.pos p) = NilEmpty.string_of_uint (Pos.to_uint p) /\
  print_int (Z.neg p) = String "-" (NilEmpty.string_of_uint (Pos.to_uint p)).
Proof.
  pose proof (DecimalPos.Unsigned.to_uint_nonnil p) as Hnil.
  unfold print_int. simpl. unfold NilZero.string_of_uint.
  by destruct (Pos.to_uint p).
Qed.

(** Reading an integer literal gives back the integer. *)
Lemma prun_int o k acc v :
  exists n, prun (PElem o k acc NoNum) (print_int v) = Some (PElem o k acc n) /\
            num_value n = Some v.
Proof.
  destruct v as [|p|p].
  - exists (Zero false). done.
  - destruct (print_int_pos p) as [-> _].
    exists (Digits false (Decimal.rev (Pos.to_uint p))). split.
    + apply (prun_pos o k acc false).
    + simpl. rewrite DecimalFacts.rev_rev. f_equal.
      apply (DecimalZ.of_to (Z.pos p)).
  - destruct (print_int_pos p) as [_ ->].
    exists (Digits true (Decimal.rev (Pos.to_uint p))). split.
    + simpl. apply (prun_pos o k acc true).
    + simpl num_value. rewrite DecimalFacts.rev_rev. f_equal.
      apply (DecimalZ.of_to (Z.neg p)).
Qed.

(** An integer literal starts with a digit or a minus sign. *)
Lemma print_int_first v :
  exists c s, print_int v = String c s /\
    Ascii.eqb c "," = false /\ Ascii.eqb c "]" = false.
Proof.
  destruct v as [|p|p].
  - by exists "0"%char, EmptyString.
  - destruct (print_int_pos p) as [-> _]. pose proof (to_uint_head p).
    destruct (Pos.to_uint p); try done; simpl; eauto.
  - destruct (print_int_pos p) as [_ ->]. eauto.
Qed.

Lemma prun_elems o k acc v l rest :
  prun (PElem o k acc NoNum) (print_elems (v :: l) ++ String "]" rest)
  = prun (PAfterArr (obj_set o k (acc ++ v :: l))) rest.
Proof.
  revert acc v. induction l as [|v' l IH]; intros acc v.
  - change (print_elems [v]) with (print_int v). rewrite prun_app.
    destruct (prun_int o k acc v) as (n & -> & Hn).
    simpl. unfold elem_step. simpl. by rewrite Hn.
  - change (print_elems (v :: v' :: l))
      with (print_int v ++ String "," (print_elems (v' :: l)))%string.
    rewrite string_app_assoc, prun_app.
    destruct (prun_int o k acc v) as (n & -> & Hn).
    change (String "," (print_elems (v' :: l)) ++ String "]" rest)%string
      with (String "," (print_elems (v' :: l) ++ String "]" rest)).
    cbn [prun pstep]. unfold elem_step at 1. simpl Ascii.eqb. cbv iota.
    rewrite Hn. cbn [option_map]. rewrite IH. by rewrite <- app_assoc.
Qed.

(** Reading an array. *)
Lemma prun_array o k l rest :
  prun (POpen o k) (String "[" (print_elems l ++ String "]" rest))
  = prun (PAfterArr (obj_set o k l)) rest.
Proof.
  destruct l as [|v l]; [done|].
  rewrite <- (prun_elems o k [] v l rest
              : _ = prun (PAfterArr (obj_set o k (v :: l))) rest).
  change (prun (PElemFirst o k) (print_elems (v :: l) ++ String "]" rest)
          = prun (PElem o k [] NoNum) (print_elems (v :: l) ++ String "]" rest)).
  destruct (print_int_first v) as (c & s & Hv & Hc1 & Hc2).
  assert (exists s', (print_elems (v :: l) ++ String "]" rest)%string = String c s')
    as [s' ->].
  { destruct l; simpl; rewrite Hv; simpl; eauto. }
  cbn [prun pstep]. unfold elem_step. by rewrite Hc1, Hc2.
Qed.

Lemma string_app_nil_r (s : string) : (s ++ "")%string = s.
Proof. induction s as [|c s IH]; simpl; [done|by rewrite IH]. Qed.

Lemma is_key_char_not_quote c :
  is_key_char c = true -> Ascii.eqb c dquote = false.
Proof. by destruct c as [[] [] [] [] [] [] [] []]. Qed.

(** Reading the characters of a key. *)
Lemma prun_key o k0 k s :
  string_forallb is_key_char k = true ->
  prun (PKey o k0) (k ++ s) = prun (PKey o (k0 ++ k)) s.
Proof.
  revert k0. induction k as [|c k IH]; intros k0 Hk.
  - by rewrite string_app_nil_r.
  - simpl in Hk. apply andb_true_iff in Hk as [Hc Hk].
    simpl. rewrite (is_key_char_not_quote c Hc), Hc.
    rewrite (IH _ Hk), string_app_assoc. done.
Qed.

Lemma print_entry_app k l rest :
  (print_entry (k, l) ++ rest)%string
  = String dquote
      (k ++ String dquote (String ":" (String "[" (print_elems l ++ String "]" rest)))).
Proof.
  unfold print_entry. simpl. rewrite string_app_assoc. simpl.
  by rewrite string_app_assoc.
Qed.

(** Reading one entry, from a state that expects the quote of a key. *)
Lemma prun_entry st o0 k l rest :
  pstep st dquote = Some (PKey o0 "") -> valid_key k ->
  prun st (print_entry (k, l) ++ rest) = prun (PAfterArr (obj_set o0 k l)) rest.
Proof.
  intros Hst [Hchars Hok]. rewrite print_entry_app. cbn [prun]. rewrite Hst.
  rewrite (prun_key _ _ _ _ Hchars). cbn [prun pstep String.append].
  change (Ascii.eqb dquote dquote) with true. cbv iota. rewrite Hok.
  change (Ascii.eqb ":" ":") with true. cbv iota.
  apply prun_array.
Qed.

Lemma prun_entries o0 e o st :
  pstep st dquote = Some (PKey o0 "") ->
  Forall valid_key (map fst (e :: o)) ->
  prun st (print_entries (e :: o) ++ "}") = Some (PEnd (obj_of o0 (e :: o))).
Proof.
  revert o0 e st. induction o as [|e' o IH]; intros o0 [k l] st Hst Hkeys.
  - apply Forall_cons in Hkeys as [Hk _]. cbn [fst] in Hk.
    change (print_entries [(k, l)]) with (print_entry (k, l)).
    by rewrite (prun_entry _ _ _ _ _ Hst Hk).
  - apply Forall_cons in Hkeys as [Hk Hkeys]. cbn [fst] in Hk.
    change (print_entries ((k, l) :: e' :: o))
      with (print_entry (k, l) ++ String "," (print_entries (e' :: o)))%string.
    rewrite string_app_assoc, (prun_entry _ _ _ _ _ Hst Hk).
    change (String "," (print_entries (e' :: o)) ++ "}")%string
      with (String "," (print_entries (e' :: o) ++ "}")).
    cbn [prun pstep]. change (Ascii.eqb "," ",") with true. cbv iota.
    by rewrite (IH (obj_set o0 k l) e' (PNext (obj_set o0 k l))).
Qed.

Lemma obj_set_fresh o k v :
  k ∉ map fst o -> obj_set o k v = o ++ [(k, v)].
Proof.
  induction o as [|[k' v'] o IH]; intros Hk; simpl; [done|].
  simpl in Hk. apply not_elem_of_cons in Hk as [Hne Hk].
  destruct (String.eqb_spec k' k); [congruence|]. by rewrite IH.
Qed.

Lemma obj_of_fresh o0 o :
  NoDup (map fst (o0 ++ o)) -> obj_of o0 o = o0 ++ o.
Proof.
  revert o0. induction o as [|[k v] o IH]; intros o0 Hnd.
  - by rewrite app_nil_r.
  - unfold obj_of. simpl. fold (obj_of (obj_set o0 k v) o).
    assert (k ∉ map fst o0) as Hk.
    { rewrite map_app in Hnd. apply NoDup_app in Hnd as (_ & Hdis & _).
      intros Hin. apply (Hdis k Hin). simpl. by left. }
    rewrite (obj_set_fresh _ _ _ Hk), IH; rewrite <- app_assoc; done.
Qed.

(** Parsing the text of an object gives the object back. *)
Lemma JSON_parse_stringify (o : SaveData) :
  Forall valid_key (map fst o) -> NoDup (map fst o) ->
  JSON_parse (JSON_stringify o) = Some o.
Proof.
  intros Hkeys Hnd. unfold JSON_parse, JSON_stringify.
  destruct o as [|e o]; [done|].
  change (prun PStart ("{" ++ print_entries (e :: o) ++ "}"))
    with (prun PFirst (print_entries (e :: o) ++ "}")).
  rewrite (prun_entries [] e o PFirst eq_refl Hkeys).
  by rewrite (obj_of_fresh [] (e :: o)).
Qed.

(** ** Chunk keys *)

Lemma string_forallb_app p s1 s2 :
  string_forallb p (s1 ++ s2) = string_forallb p s1 && string_forallb p s2.
Proof. induction s1 as [|c s1 IH]; simpl; [done|]. by rewrite IH, andb_assoc. Qed.

Lemma string_forallb_impl (p q : ascii -> bool) s :
  (forall c, p c = true -> q c = true) ->
  string_forallb p s = true -> string_forallb q s = true.
Proof.
  intros Hpq. induction s as [|c s IH]; simpl; [done|].
  intros [Hc Hs]%andb_true_iff. by rewrite (Hpq c Hc), IH.
Qed.

Lemma uint_digits d : string_forallb is_digit (NilEmpty.string_of_uint d) = true.
Proof. induction d; simpl; done. Qed.

Lemma print_int_chars v :
  string_forallb is_num_char (print_int v) = true /\ print_int v <> EmptyString.
Proof.
  assert (forall d, string_forallb is_num_char (NilEmpty.string_of_uint d) = true) as Hd.
  { intros d. apply (string_forallb_impl is_digit); [|apply uint_digits].
    intros c Hc. unfold is_num_char. by rewrite Hc. }
  destruct v as [|p|p].
  - done.
  - destruct (print_int_pos p) as [-> _]. split; [apply Hd|].
    pose proof (to_uint_head p). by destruct (Pos.to_uint p).
  - destruct (print_int_pos p) as [_ ->]. split; [|done]. simpl. apply Hd.
Qed.

(** A chunk key is one of the keys the JSON text of a save can carry. *)
Lemma chunk_key_valid cx cz : valid_key (getChunkKey (Num cx) (Num cz)).
Proof.
  destruct (print_int_chars cx) as [Hx _], (print_int_chars cz) as [Hz _].
  assert (forall c, is_num_char c = true -> is_key_char c = true) as Hnk.
  { intros c. unfold is_num_char, is_key_char. intros ->. done. }
  unfold valid_key, key_ok, getChunkKey, jsnum_to_string. fold (print_int cx) (print_int cz).
  rewrite !string_forallb_app. split.
  - rewrite (string_forallb_impl _ _ _ Hnk Hx). simpl.
    by rewrite (string_forallb_impl _ _ _ Hnk Hz).
  - simpl. by rewrite andb_false_r.
Qed.

Lemma is_num_char_not_comma c : is_num_char c = true -> Ascii.eqb c "," = false.
Proof. by destruct c as [[] [] [] [] [] [] [] []]. Qed.

Lemma split_comma_whole s :
  string_forallb is_num_char s = true -> split_comma s = [s].
Proof.
  induction s as [|c s IH]; simpl; [done|].
  intros [Hc Hs]%andb_true_iff. by rewrite (is_num_char_not_comma c Hc), IH.
Qed.

Lemma split_comma_app s1 s2 :
  string_forallb is_num_char s1 = true ->
  split_comma (s1 ++ String "," s2) = s1 :: split_comma s2.
Proof.
  induction s1 as [|c s1 IH]; simpl; [done|].
  intros [Hc Hs]%andb_true_iff. by rewrite (is_num_char_not_comma c Hc), IH.
Qed.

Lemma Number_print_int v : Number (print_int v) = Num v.
Proof.
  destruct (print_int_chars v) as [_ Hne]. unfold Number, print_int in *.
  destruct (NilZero.string_of_int (Z.to_int v)) eqn:E; [done|]. rewrite <- E.
  rewrite NilZero.isi.
  - by rewrite DecimalZ.of_to.
  - destruct v; simpl; [done| |done].
    intros [= H]. by apply (DecimalPos.Unsigned.to_uint_nonnil p).
  - destruct v; simpl; [done|done|].
    intros [= H]. by apply (DecimalPos.Unsigned.to_uint_nonnil p).
Qed.

(** [loadWorld] recovers the coordinates from a chunk key. *)
Lemma key_coords_chunk_key cx cz :
  key_coords (getChunkKey (Num cx) (Num cz)) = (Num cx, Num cz).
Proof.
  destruct (print_int_chars cx) as [Hx _], (print_int_chars cz) as [Hz _].
  unfold key_coords, getChunkKey, jsnum_to_string. fold (print_int cx) (print_int cz).
  change ("," ++ print_int cz)%string with (String "," (print_int cz)).
  rewrite (split_comma_app _ _ Hx), (split_comma_whole _ Hz). simpl.
  by rewrite !Number_print_int.
Qed.

(** ** Saving and loading *)

Lemma obj_get_save_data cs key :
  obj_get (save_data cs) key = data <$> chunks_get cs key.
Proof.
  induction cs as [|[k c] cs IH]; simpl; [done|].
  by destruct (String.eqb k key).
Qed.

Lemma map_fst_save_data cs : map fst (save_data cs) = map fst cs.
Proof. unfold save_data. rewrite map_map. done. Qed.

Lemma chunks_set_fresh cs key c :
  key ∉ map fst cs -> chunks_set cs key c = cs ++ [(key, c)].
Proof.
  induction cs as [|[k c'] cs IH]; intros Hk; simpl; [done|].
  simpl in Hk. apply not_elem_of_cons in Hk as [Hne Hk].
  destruct (String.eqb_spec k key); [congruence|]. by rewrite IH.
Qed.

(** Replacing a chunk's mesh changes nothing that a save records. *)
Lemma save_data_set_mesh cs key c m :
  chunks_get cs key = Some c ->
  save_data (chunks_set cs key {| data := data c; mesh := m |}) = save_data cs.
Proof.
  induction cs as [|[k c'] cs IH]; simpl; [done|].
  destruct (String.eqb_spec k key) as [->|Hne].
  - by intros [= ->].
  - intros Hc. simpl. by rewrite IH.
Qed.

Lemma Uint8Array_from_wf d : wf_data d -> Uint8Array_from d = d.
Proof.
  intros [_ Hall]. unfold Uint8Array_from.
  induction Hall as [|v d Hv _ IH]; simpl; [done|].
  rewrite IH. f_equal. apply Z.mod_small. lia.
Qed.

(** A build keeps what a save records, when it returns. *)
Lemma buildChunkMesh_save_data w cx cz c :
  chunks_get (chunks w) (getChunkKey cx cz) = Some c -> wf_data (data c) ->
  exists w', buildChunkMesh w cx cz (data c) = Returned w' /\
             save_data (chunks w') = save_data (chunks w).
Proof.
  intros Hc Hwf. rewrite (buildChunkMesh_loaded _ _ _ _ Hc Hwf).
  eexists. split; [done|].
  destruct (chunk_quads (data c) cx cz); [done|].
  cbn [chunks]. by apply save_data_set_mesh.
Qed.

(** Loading well-formed entries with fresh keys appends them. *)
Lemma load_entries_wf entries w :
  NoDup (map fst (chunks w) ++ map fst entries) ->
  Forall wf_entry entries ->
  exists w', load_entries w entries = Returned w' /\
             save_data (chunks w') = save_data (chunks w) ++ entries.
Proof.
  revert w. induction entries as [|[key arr] entries IH]; intros w Hnd Hwf.
  - exists w. by rewrite app_nil_r.
  - apply Forall_cons in Hwf as [[(cx & cz & Hkey) Hd] Hwf].
    cbn [fst snd] in Hkey, Hd. subst key.
    cbn [load_entries]. rewrite key_coords_chunk_key, (Uint8Array_from_wf _ Hd).
    set (key := getChunkKey (Num cx) (Num cz)) in *.
    set (c := {| data := arr; mesh := None |}).
    assert (key ∉ map fst (chunks w)) as Hfresh.
    { apply NoDup_app in Hnd as (_ & Hdis & _). intros Hin.
      apply (Hdis key Hin). simpl. by left. }
    set (w1 := {| chunks := chunks_set (chunks w) key c; scene := scene w;
                  meshes_made := meshes_made w |}).
    destruct (buildChunkMesh_save_data w1 (Num cx) (Num cz) c) as (w2 & Hb & Hs).
    { apply chunks_get_set. }
    { done. }
    cbn [data c] in Hb. fold key in Hb. rewrite Hb.
    assert (save_data (chunks w2) = save_data (chunks w) ++ [(key, arr)]) as Hs2.
    { rewrite Hs. unfold w1. cbn [chunks]. rewrite chunks_set_fresh by done.
      unfold save_data. by rewrite map_app. }
    destruct (IH w2) as (w' & Hl & Hs'); [|done|].
    { rewrite <- map_fst_save_data, Hs2, map_app, map_fst_save_data.
      simpl. by rewrite <- app_assoc. }
    exists w'. split; [done|]. rewrite Hs', Hs2, <- app_assoc. done.
Qed.

Lemma loadWorld_parsed w json saveData :
  JSON_parse json = Some saveData ->
  loadWorld w (Some json)
  = match load_entries {| chunks := []; scene := clear_meshes (chunks w) (scene w);
                          meshes_made := meshes_made w |} saveData with
    | Returned w' => WorldLoaded w'
    | Threw w' => LoadThrew w'
    end.
Proof.
  intros H. destruct json as [|c json]; [done|]. unfold loadWorld. by rewrite H.
Qed.

Lemma flat_data_wf : wf_data flat_data.
Proof.
  split.
  - unfold flat_data. rewrite length_fmap, length_seqZ. done.
  - unfold flat_data. apply Forall_fmap, Forall_forall. intros i _. simpl.
    pose proof (column_block_range 5 (i / 256)). lia.
Qed.

(** C7: saving and loading back.  For every world map whose keys are
    chunk keys, one chunk per key, and whose block arrays are well formed
    (6144 cells, block ids 0 to 6), [loadWorld] on the text that
    [saveWorld] stores ends with "World Loaded!", whatever world was
    current, in a world map with the same keys in the same order and,
    under every key, a block array equal to the original one. *)
Theorem C7_load_save_roundtrip (w w0 : World) :
  wf_chunks (chunks w) ->
  exists w',
    loadWorld w0 (Some (saveWorld w)) = WorldLoaded w' /\
    map fst (chunks w') = map fst (chunks w) /\
    (forall key,
       data <$> chunks_get (chunks w') key = data <$> chunks_get (chunks w) key).
Proof.
  intros [Hnd Hwf].
  assert (Forall wf_entry (save_data (chunks w))) as Hentries.
  { unfold save_data. apply Forall_fmap. by apply (Forall_impl _ _ _ Hwf). }
  assert (JSON_parse (saveWorld w) = Some (save_data (chunks w))) as Hparse.
  { apply JSON_parse_stringify; rewrite map_fst_save_data; [|done].
    apply Forall_fmap. apply (Forall_impl _ _ _ Hwf).
    intros [k c] [(cx & cz & Hk) _]. simpl in *. subst k. apply chunk_key_valid. }
  rewrite (loadWorld_parsed _ _ _ Hparse).
  destruct (load_entries_wf (save_data (chunks w))
              {| chunks := []; scene := clear_meshes (chunks w0) (scene w0);
                 meshes_made := meshes_made w0 |}) as (w' & -> & Hs).
  { simpl. by rewrite map_fst_save_data. }
  { done. }
  exists w'. split; [done|]. simpl in Hs. split.
  - by rewrite <- (map_fst_save_data (chunks w')), Hs, map_fst_save_data.
  - intros key. by rewrite <- !obj_get_save_data, Hs.
Qed.

(** C7 applied to the world of one flat chunk, loaded over the world of
    Stone. *)
Lemma C7_load_save_roundtrip_witness :
  let w := {| chunks := flat_chunks; scene := []; meshes_made := 0 |} in
  exists w',
    loadWorld stone_world (Some (saveWorld w)) = WorldLoaded w' /\
    map fst (chunks w') = map fst (chunks w) /\
    (forall key,
       data <$> chunks_get (chunks w') key = data <$> chunks_get (chunks w) key).
Proof.
  intros w. apply (C7_load_save_roundtrip w stone_world).
  split.
  - apply NoDup_singleton.
  - apply Forall_singleton. split.
    + exists 0, 0. reflexivity.
    + exact flat_data_wf.
Defined.

(** ** Loading a short block array *)

Lemma getBlock_outside cs cx cz x y z :
  outside x y z = true -> getBlock cs cx cz x y z = Some BLOCK.AIR.
Proof.
  intros H. unfold getBlock. destruct (chunks_get cs (getChunkKey cx cz)); [|done].
  unfold outside in H. by rewrite H.
Qed.

(** The last cell of a short array reads [undefined]; its first
    neighbour test is out of bounds, so [addFace] is called with the
    [undefined] type and throws. *)
Lemma mesh_cell_short cs cx cz d g :
  Z.of_nat (length d) < 6144 ->
  mesh_cell cs cx cz d 15 23 15 g = TypeError.
Proof.
  intros Hlen. unfold mesh_cell.
  assert (data_get d (cell_index 15 23 15) = None) as ->.
  { unfold data_get. change (cell_index 15 23 15) with 6143. simpl.
    apply lookup_ge_None. lia. }
  rewrite decide_False by done. unfold neighbours. cbn [foldl cbind].
  unfold mesh_neighbour at 1.
  rewrite (getBlock_outside cs cx cz (15 + 1) (23 + 0) (15 + 0)) by done.
  rewrite decide_True by done. reflexivity.
Qed.

Lemma for_range_thrown {E} n
    (body : Z -> completion (list E) -> completion (list E)) :
  (forall i, body i TypeError = TypeError) ->
  for_range n body TypeError = TypeError.
Proof. intros H. unfold for_range. by apply foldl_thrown. Qed.

Lemma for_range_throws {E} n
    (body : Z -> completion (list E) -> completion (list E)) i a :
  (forall j, body j TypeError = TypeError) ->
  0 <= i < n -> (forall a, body i a = TypeError) ->
  for_range n body a = TypeError.
Proof.
  intros Hstrict Hi Hthrow. unfold for_range.
  apply (foldl_throws body Hstrict _ i); [|done].
  apply elem_of_seqZ. lia.
Qed.

(** The mesher throws on every short array, whatever the world map
    holds. *)
Lemma mesh_faces_of_short cs cx cz d :
  Z.of_nat (length d) < 6144 -> mesh_faces_of cs cx cz d = TypeError.
Proof.
  intros Hlen. unfold mesh_faces_of.
  assert (forall y z x, cbind TypeError (mesh_cell cs cx cz d x y z) = TypeError)
    as Hx by done.
  assert (forall y z,
            for_range CHUNK_SIZE
              (fun x g => cbind g (mesh_cell cs cx cz d x y z)) TypeError
            = TypeError) as Hz.
  { intros y z. by apply for_range_thrown. }
  apply (for_range_throws _ _ 23); [|done|].
  { intros y. by apply for_range_thrown. }
  intros a. apply (for_range_throws _ _ 15); [done|done|].
  intros a'. apply (for_range_throws _ _ 15); [done|done|].
  intros [g|]; [|done]. simpl. by apply mesh_cell_short.
Qed.

Lemma buildChunkMesh_short w cx cz d :
  Z.of_nat (length d) < 6144 -> buildChunkMesh w cx cz d = Threw w.
Proof. intros H. unfold buildChunkMesh. by rewrite mesh_faces_of_short. Qed.

Lemma load_entries_short entries key arr w :
  (key, arr) ∈ entries -> Z.of_nat (length arr) < 6144 ->
  exists w', load_entries w entries = Threw w'.
Proof.
  intros Hin Hlen. revert w.
  induction entries as [|[k a] entries IH]; intros w.
  - by apply elem_of_nil in Hin.
  - cbn [load_entries]. destruct (key_coords k) as [cx cz].
    apply elem_of_cons in Hin as [[= <- <-]|Hin].
    + rewrite buildChunkMesh_short; [eauto|].
      unfold Uint8Array_from. by rewrite length_map.
    + destruct (buildChunkMesh _ cx cz _) as [w2|w2]; [by apply IH|eauto].
Qed.

(** C5, counterexample: loading a save whose only chunk entry holds three
    cells.  Nothing is checked: the world of Stone is discarded, the
    three-cell array is installed as the chunk's block array, and the load
    ends by the [TypeError] that escapes from the mesher. *)
Lemma C5_short_array_counterexample :
  saveWorld {| chunks := [(getChunkKey (Num 0) (Num 0),
                           {| data := [1; 2; 3]; mesh := None |})];
               scene := []; meshes_made := 0 |}
  = JSON_stringify [(getChunkKey (Num 0) (Num 0), [1; 2; 3])] /\
  loadWorld stone_world
    (Some (JSON_stringify [(getChunkKey (Num 0) (Num 0), [1; 2; 3])]))
  = LoadThrew
      {| chunks := [(getChunkKey (Num 0) (Num 0),
                     {| data := [1; 2; 3]; mesh := None |})];
         scene := []; meshes_made := 0 |}.
Proof.
  split; [reflexivity|].
  rewrite (loadWorld_parsed _ _ [(getChunkKey (Num 0) (Num 0), [1; 2; 3])])
    by reflexivity.
  cbn [load_entries]. rewrite key_coords_chunk_key.
  rewrite buildChunkMesh_short by (simpl; lia).
  reflexivity.
Qed.

(** C5, as amended: [loadWorld] does not validate the length of a block
    array.  For a save with a chunk entry whose array is shorter than
    16 * 16 * 24, the load never completes: the current world map is
    discarded and the entries are installed as they come, until a
    [TypeError] escapes from the mesher, which reads past the end of a
    short array; no load error is reported.  When the short entry is the
    first of the save, the world map is left holding exactly that chunk
    with its short array. *)
Theorem C5_short_array_not_validated
    (w : World) (json : string) (saveData : SaveData) (key : string) (arr : list Z) :
  JSON_parse json = Some saveData ->
  (key, arr) ∈ saveData ->
  Z.of_nat (length arr) < CHUNK_SIZE * CHUNK_SIZE * CHUNK_HEIGHT ->
  exists w',
    loadWorld w (Some json) = LoadThrew w' /\
    (forall rest, saveData = (key, arr) :: rest ->
       w' = {| chunks := [(key, {| data := Uint8Array_from arr; mesh := None |})];
               scene := clear_meshes (chunks w) (scene w);
               meshes_made := meshes_made w |}).
Proof.
  intros Hparse Hin Hlen. rewrite (loadWorld_parsed _ _ _ Hparse).
  change (CHUNK_SIZE * CHUNK_SIZE * CHUNK_HEIGHT) with 6144 in Hlen.
  destruct (load_entries_short saveData key arr
              {| chunks := []; scene := clear_meshes (chunks w) (scene w);
                 meshes_made := meshes_made w |} Hin Hlen) as (w' & Hl).
  exists w'. rewrite Hl. split; [done|].
  intros rest ->. cbn [load_entries] in Hl.
  destruct (key_coords key) as [cx cz].
  rewrite buildChunkMesh_short in Hl.
  - by injection Hl as <-.
  - unfold Uint8Array_from. by rewrite length_map.
Qed.

(** The amended C5 applied to a save whose first entry holds three
    cells. *)
Lemma C5_short_array_not_validated_witness :
  let key := getChunkKey (Num 0) (Num 0) in
  exists w',
    loadWorld stone_world (Some (JSON_stringify [(key, [1; 2; 3])])) = LoadThrew w' /\
    chunks w' = [(key, {| data := [1; 2; 3]; mesh := None |})].
Proof.
  intros key.
  destruct (C5_short_array_not_validated stone_world
              (JSON_stringify [(key, [1; 2; 3])]) [(key, [1; 2; 3])] key [1; 2; 3])
    as (w' & Hload & Hfirst).
  - reflexivity.
  - apply list_elem_of_singleton. reflexivity.
  - unfold CHUNK_SIZE, CHUNK_HEIGHT. simpl. lia.
  - exists w'. split; [exact Hload|]. rewrite (Hfirst [] eq_refl). reflexivity.
Defined.

(** ** Chunk keys and the world map *)

(** Distinct chunk coordinates have distinct keys. *)
Lemma getChunkKey_inj cx cz cx' cz' :
  getChunkKey (Num cx) (Num cz) = getChunkKey (Num cx') (Num cz') ->
  cx = cx' /\ cz = cz'.
Proof.
  intros H. apply (f_equal key_coords) in H.
  rewrite !key_coords_chunk_key in H. by injection H.
Qed.

Lemma chunks_get_None cs key : chunks_get cs key = None <-> key ∉ map fst cs.
Proof.
  induction cs as [|[k c] cs IH]; simpl.
  - split; [intros _; apply not_elem_of_nil | done].
  - rewrite not_elem_of_cons. destruct (String.eqb_spec k key) as [->|Hne].
    + split; [done | intros [? _]; done].
    + rewrite IH. split; [intros ?; split; [congruence | done] | tauto].
Qed.

Lemma chunks_get_elem_of cs key c : chunks_get cs key = Some c -> (key, c) ∈ cs.
Proof.
  induction cs as [|[k c'] cs IH]; simpl; [done|].
  destruct (String.eqb_spec k key) as [->|Hne].
  - intros [= ->]. apply list_elem_of_here.
  - intros H. apply list_elem_of_further. by apply IH.
Qed.

Lemma map_fst_chunks_set cs key c :
  map fst (chunks_set cs key c)
  = match chunks_get cs key with
    | Some _ => map fst cs
    | None => map fst cs ++ [key]
    end.
Proof.
  induction cs as [|[k c'] cs IH]; simpl; [done|].
  destruct (String.eqb_spec k key) as [->|Hne]; simpl; [done|].
  rewrite IH. by destruct (chunks_get cs key).
Qed.

Lemma elem_of_chunks_set cs key c kc :
  kc ∈ chunks_set cs key c -> kc = (key, c) \/ kc ∈ cs.
Proof.
  induction cs as [|[k c'] cs IH]; simpl.
  - rewrite list_elem_of_singleton. tauto.
  - destruct (String.eqb_spec k key) as [->|Hne]; rewrite !elem_of_cons.
    + tauto.
    + intros [->|H]; [tauto|]. destruct (IH H); tauto.
Qed.

(** Assigning a well-formed chunk under a chunk key keeps the world map
    well formed. *)
Lemma wf_chunks_set cs key c :
  wf_chunks cs -> (exists cx cz, key = getChunkKey (Num cx) (Num cz)) ->
  wf_data (data c) -> wf_chunks (chunks_set cs key c).
Proof.
  intros [Hnd Hall] Hkey Hwf. split.
  - rewrite map_fst_chunks_set. destruct (chunks_get cs key) eqn:E; [done|].
    apply NoDup_app. split_and!; [done| |apply NoDup_singleton].
    intros k Hk. rewrite list_elem_of_singleton. intros ->.
    by apply chunks_get_None in E.
  - apply Forall_forall. intros kc Hkc.
    destruct (elem_of_chunks_set _ _ _ _ Hkc) as [->|Hin]; [done|].
    rewrite Forall_forall in Hall. by apply Hall.
Qed.

Lemma wf_chunks_get cs key c :
  wf_chunks cs -> chunks_get cs key = Some c ->
  (exists cx cz, key = getChunkKey (Num cx) (Num cz)) /\ wf_data (data c).
Proof.
  intros [_ Hall] Hget. apply chunks_get_elem_of in Hget.
  rewrite Forall_forall in Hall. apply (Hall _ Hget).
Qed.

(** Meshing a loaded, well-formed chunk returns, changes no block array
    and keeps the world map well formed. *)
Lemma buildChunkMesh_wf w cx cz c :
  chunks_get (chunks w) (getChunkKey (Num cx) (Num cz)) = Some c ->
  wf_data (data c) ->
  exists w', buildChunkMesh w (Num cx) (Num cz) (data c) = Returned w' /\
    (wf_chunks (chunks w) -> wf_chunks (chunks w')).
Proof.
  intros Hget Hwf. rewrite (buildChunkMesh_loaded _ _ _ _ Hget Hwf).
  eexists. split; [done|]. intros Hw.
  destruct (chunk_quads _ _ _); [done|]. cbn [chunks].
  apply wf_chunks_set; [done|by eexists _, _|done].
Qed.

(** [getBlock] reads the block arrays only. *)
Lemma getBlock_data cs cx cz x y z :
  getBlock cs cx cz x y z
  = match data <$> chunks_get cs (getChunkKey cx cz) with
    | Some d => local_block d x y z
    | None => Some BLOCK.AIR
    end.
Proof.
  destruct (chunks_get cs (getChunkKey cx cz)) as [c|] eqn:E; simpl.
  - by apply getBlock_loaded.
  - by apply getBlock_unloaded.
Qed.

(** On a well-formed world map [getBlock] always answers a block id. *)
Lemma getBlock_wf cs cx cz x y z :
  wf_chunks cs -> exists t, getBlock cs cx cz x y z = Some t /\ 0 <= t <= 6.
Proof.
  intros Hw. rewrite getBlock_data.
  destruct (chunks_get cs (getChunkKey cx cz)) as [c|] eqn:E; simpl.
  - destruct (wf_chunks_get _ _ _ Hw E) as [_ Hd].
    unfold local_block. destruct (outside x y z) eqn:Ho.
    + exists BLOCK.AIR. unfold BLOCK.AIR. split; [done|lia].
    + apply outside_spec in Ho. by apply data_get_wf.
  - exists BLOCK.AIR. unfold BLOCK.AIR. split; [done|lia].
Qed.

Lemma flat_chunks_wf : wf_chunks flat_chunks.
Proof.
  split.
  - apply NoDup_singleton.
  - apply Forall_singleton. split; [by exists 0, 0|apply flat_data_wf].
Qed.

(** X1: chunk keys identify chunks.  Reading a key the way [loadWorld]
    does, by [key.split(',').map(Number)], gives back the integer
    coordinates from which [getChunkKey] made the key, negative ones
    included, and two keys are equal only when both coordinates are. *)
Theorem X1_chunk_key_identifies_chunk (cx cz : Z) :
  key_coords (getChunkKey (Num cx) (Num cz)) = (Num cx, Num cz) /\
  forall cx' cz' : Z,
    getChunkKey (Num cx) (Num cz) = getChunkKey (Num cx') (Num cz') ->
    cx = cx' /\ cz = cz'.
Proof.
  split; [apply key_coords_chunk_key|]. intros cx' cz'. apply getChunkKey_inj.
Qed.

(** X2: on a well-formed world map [getBlock] never answers
    [undefined]: for every chunk coordinate and every local coordinate,
    in range or not, it answers a block id from 0 to 6, and an id other
    than Air only for a cell inside the bounds of a chunk that is in the
    map. *)
Theorem X2_getBlock_answers_block_id
    (cs : ChunkMap) (cx cz : jsnum) (x y z : Z) :
  wf_chunks cs ->
  exists t, getBlock cs cx cz x y z = Some t /\ 0 <= t <= 6 /\
    (t <> BLOCK.AIR ->
     chunks_get cs (getChunkKey cx cz) <> None /\ in_chunk x y z).
Proof.
  intros Hw. destruct (getBlock_wf cs cx cz x y z Hw) as (t & Ht & Hr).
  exists t. split; [done|]. split; [done|]. intros Hne. split.
  - intros Hnone. rewrite getBlock_unloaded in Ht by done. congruence.
  - apply outside_spec. destruct (outside x y z) eqn:Ho; [|done].
    rewrite getBlock_outside in Ht by done. congruence.
Qed.

(** X2 on the flat chunk: the Grass block of the surface. *)
Lemma X2_getBlock_answers_block_id_witness :
  exists t, getBlock flat_chunks (Num 0) (Num 0) 3 5 7 = Some t /\ 0 <= t <= 6 /\
    (t <> BLOCK.AIR ->
     chunks_get flat_chunks (getChunkKey (Num 0) (Num 0)) <> None /\ in_chunk 3 5 7).
Proof.
  apply (X2_getBlock_answers_block_id flat_chunks (Num 0) (Num 0) 3 5 7).
  apply flat_chunks_wf.
Defined.

(** ** Editing: world cells *)

Section Resolve.
Local Open Scope R_scope.

(** In exact arithmetic, the chunk and the local coordinate that
    [setBlock] and [updatePhysics] compute from a world coordinate are
    the quotient and the remainder of its floor. *)
Lemma floor_resolve (x : R) :
  Zfloor (x / 16) = (Zfloor x / 16)%Z /\
  Zfloor (x - IZR (Zfloor (x / 16)) * 16) = (Zfloor x mod 16)%Z.
Proof.
  pose proof (Zfloor_bound x) as [Hlo Hhi]. set (n := Zfloor x) in *.
  pose proof (Z.div_mod n 16 ltac:(lia)) as Hdm.
  pose proof (Z.mod_pos_bound n 16 ltac:(lia)) as [Hm1 Hm2].
  assert (IZR n = 16 * IZR (n / 16) + IZR (n mod 16)) as Hn.
  { rewrite Hdm at 1. by rewrite plus_IZR, mult_IZR. }
  assert (n mod 16 <= 15)%Z as Hm3 by lia.
  apply IZR_le in Hm1, Hm3.
  assert (Zfloor (x / 16) = (n / 16)%Z) as Hq by (apply Zfloor_eq; lra).
  split; [done|]. rewrite Hq. apply Zfloor_eq. lra.
Qed.

End Resolve.

(** [setBlock] on the world cell that holds the position. *)
Lemma setBlock_unfold w wx wy wz id :
  let X := Zfloor wx in
  let Y := Zfloor wy in
  let Zc := Zfloor wz in
  let key := getChunkKey (Num (X / 16)) (Num (Zc / 16)) in
  setBlock w wx wy wz id =
  match chunks_get (chunks w) key with
  | Some c =>
      if decide (0 <= Y < CHUNK_HEIGHT) then
        let d := data_set (data c) (cell_index (X mod 16) Y (Zc mod 16)) id in
        buildChunkMesh
          {| chunks := chunks_set (chunks w) key {| data := d; mesh := mesh c |};
             scene := match mesh c with
                      | Some m => scene_remove (scene w) m
                      | None => scene w
                      end;
             meshes_made := meshes_made w |}
          (Num (X / 16)) (Num (Zc / 16)) d
      else Returned w
  | None => Returned w
  end.
Proof.
  intros X Y Zc key. unfold setBlock. change (IZR CHUNK_SIZE) with 16%R.
  destruct (floor_resolve wx) as [-> ->]. destruct (floor_resolve wz) as [-> ->].
  fold X Y Zc key. destruct (chunks_get (chunks w) key) as [c|]; [|done].
  destruct (decide (0 <= Y < CHUNK_HEIGHT)) as [HY|HY].
  - by replace ((Y >=? 0) && (Y <? CHUNK_HEIGHT)) with true by lia.
  - by replace ((Y >=? 0) && (Y <? CHUNK_HEIGHT)) with false by lia.
Qed.

(** The block arrays after [setBlock], whether it returned or threw. *)
Lemma setBlock_data_same w wx wy wz id c :
  let X := Zfloor wx in
  let Y := Zfloor wy in
  let Zc := Zfloor wz in
  let key := getChunkKey (Num (X / 16)) (Num (Zc / 16)) in
  chunks_get (chunks w) key = Some c -> 0 <= Y < CHUNK_HEIGHT ->
  data <$> chunks_get (chunks (outcome_world (setBlock w wx wy wz id))) key
  = Some (data_set (data c) (cell_index (X mod 16) Y (Zc mod 16)) id).
Proof.
  intros X Y Zc key Hc HY. rewrite setBlock_unfold. fold X Y Zc key.
  rewrite Hc, decide_True by done. cbv zeta.
  rewrite buildChunkMesh_data. cbn [chunks]. by rewrite chunks_get_set.
Qed.

Lemma setBlock_data_other w wx wy wz id key' :
  key' <> getChunkKey (Num (Zfloor wx / 16)) (Num (Zfloor wz / 16)) ->
  data <$> chunks_get (chunks (outcome_world (setBlock w wx wy wz id))) key'
  = data <$> chunks_get (chunks w) key'.
Proof.
  intros Hne. rewrite setBlock_unfold. cbv zeta.
  destruct (chunks_get (chunks w) _) as [c|]; [|done].
  destruct (decide _); [|done].
  rewrite buildChunkMesh_data. cbn [chunks]. by rewrite chunks_get_set_ne.
Qed.

Lemma setBlock_data_noop w wx wy wz id :
  chunks_get (chunks w)
    (getChunkKey (Num (Zfloor wx / 16)) (Num (Zfloor wz / 16))) = None
  \/ ~ 0 <= Zfloor wy < CHUNK_HEIGHT ->
  setBlock w wx wy wz id = Returned w.
Proof.
  intros H. rewrite setBlock_unfold. cbv zeta.
  destruct (chunks_get (chunks w) _) as [c|]; [|done].
  destruct H as [H|H]; [done|]. by rewrite decide_False.
Qed.

Lemma block_at_data cs wx wy wz :
  block_at cs wx wy wz
  = match data <$> chunks_get cs (getChunkKey (Num (wx / 16)) (Num (wz / 16))) with
    | Some d => local_block d (wx mod 16) wy (wz mod 16)
    | None => Some BLOCK.AIR
    end.
Proof. apply getBlock_data. Qed.

Lemma in_chunk_mod wx wy wz :
  0 <= wy < CHUNK_HEIGHT -> in_chunk (wx mod 16) wy (wz mod 16).
Proof.
  intros Hy. unfold in_chunk, CHUNK_SIZE.
  pose proof (Z.mod_pos_bound wx 16). pose proof (Z.mod_pos_bound wz 16). lia.
Qed.

(** Writing a block id keeps a block array well formed. *)
Lemma data_set_wf d i v : wf_data d -> 0 <= v <= 6 -> wf_data (data_set d i v).
Proof.
  intros [Hlen Hall] Hv. split; [by rewrite length_data_set|].
  unfold data_set. destruct (i <? 0); [done|].
  apply Forall_insert; [done|]. rewrite Z.mod_small by lia. done.
Qed.

(** An edit with a block id returns and keeps the world map well
    formed. *)
Lemma setBlock_wf w wx wy wz id :
  wf_chunks (chunks w) -> 0 <= id <= 6 ->
  exists w', setBlock w wx wy wz id = Returned w' /\ wf_chunks (chunks w').
Proof.
  intros Hw Hid. rewrite setBlock_unfold. cbv zeta.
  set (cx := Zfloor wx / 16). set (cz := Zfloor wz / 16).
  destruct (chunks_get (chunks w) _) as [c|] eqn:Hc; [|by exists w].
  destruct (decide _) as [HY|HY]; [|by exists w].
  destruct (wf_chunks_get _ _ _ Hw Hc) as [Hkey Hd].
  set (d := data_set (data c) _ id).
  set (w1 := {| chunks := _ |}).
  assert (wf_data d) as Hd' by by apply data_set_wf.
  destruct (buildChunkMesh_wf w1 cx cz {| data := d; mesh := mesh c |})
    as (w' & Hb & Hwf'); [apply chunks_get_set|done|].
  exists w'. split; [done|]. apply Hwf'. by apply wf_chunks_set.
Qed.

(** The world cells after [setBlock]: the cell that holds the position
    has the new block, every other cell is unchanged. *)
Lemma setBlock_block_at_same w wx wy wz id c :
  chunks_get (chunks w)
    (getChunkKey (Num (Zfloor wx / 16)) (Num (Zfloor wz / 16))) = Some c ->
  Z.of_nat (length (data c)) = 6144 -> 0 <= Zfloor wy < CHUNK_HEIGHT ->
  block_at (chunks (outcome_world (setBlock w wx wy wz id)))
    (Zfloor wx) (Zfloor wy) (Zfloor wz) = Some (id mod 256).
Proof.
  intros Hc Hlen HY. rewrite block_at_data, (setBlock_data_same _ _ _ _ _ _ Hc HY).
  pose proof (in_chunk_mod (Zfloor wx) _ (Zfloor wz) HY) as Hin.
  rewrite local_block_inside by done. apply data_get_set_eq.
  pose proof (cell_index_range _ _ _ Hin). lia.
Qed.

Lemma setBlock_block_at_other w wx wy wz id X Y Zc :
  (X, Y, Zc) <> (Zfloor wx, Zfloor wy, Zfloor wz) ->
  block_at (chunks (outcome_world (setBlock w wx wy wz id))) X Y Zc
  = block_at (chunks w) X Y Zc.
Proof.
  intros Hne. rewrite !block_at_data.
  set (key := getChunkKey (Num (Zfloor wx / 16)) (Num (Zfloor wz / 16))).
  destruct (String.eqb_spec (getChunkKey (Num (X / 16)) (Num (Zc / 16))) key)
    as [Hk|Hk]; [|by rewrite setBlock_data_other].
  rewrite Hk. apply getChunkKey_inj in Hk as [HX HZ].
  destruct (chunks_get (chunks w) key) as [c|] eqn:Hc;
    [|rewrite (setBlock_data_noop w wx wy wz id (or_introl Hc)); cbn [outcome_world];
      by rewrite Hc].
  destruct (decide (0 <= Zfloor wy < CHUNK_HEIGHT)) as [HY|HY];
    [|rewrite (setBlock_data_noop w wx wy wz id (or_intror HY)); cbn [outcome_world];
      by rewrite Hc].
  rewrite (setBlock_data_same _ _ _ _ _ _ Hc HY). cbn [fmap option_fmap option_map].
  destruct (decide (0 <= Y < CHUNK_HEIGHT)) as [HY'|HY'].
  - pose proof (in_chunk_mod X _ Zc HY') as Hin.
    pose proof (in_chunk_mod (Zfloor wx) _ (Zfloor wz) HY) as Hin'.
    rewrite !local_block_inside by done. apply data_get_set_ne.
    intros Hidx. apply cell_index_inj in Hidx as (Hx & Hy & Hz); [|done..].
    apply Hne. f_equal; [f_equal|]; [|done|].
    + rewrite (Z.div_mod X 16), (Z.div_mod (Zfloor wx) 16) by lia. congruence.
    + rewrite (Z.div_mod Zc 16), (Z.div_mod (Zfloor wz) 16) by lia. congruence.
  - rewrite !local_block_outside; [done|..]; unfold in_chunk; tauto.
Qed.

Lemma buildChunkMesh_keys w cx cz d :
  map fst (chunks (outcome_world (buildChunkMesh w cx cz d))) = map fst (chunks w).
Proof.
  unfold buildChunkMesh.
  destruct (mesh_faces_of (chunks w) cx cz d) as [[|q qs]|]; simpl; try done.
  destruct (chunks_get (chunks w) (getChunkKey cx cz)) as [c|] eqn:Hc; simpl; [|done].
  by rewrite map_fst_chunks_set, Hc.
Qed.

Lemma setBlock_keys w wx wy wz id :
  map fst (chunks (outcome_world (setBlock w wx wy wz id))) = map fst (chunks w).
Proof.
  rewrite setBlock_unfold. cbv zeta.
  destruct (chunks_get (chunks w) _) as [c|] eqn:Hc; [|done].
  destruct (decide _); [|done].
  rewrite buildChunkMesh_keys. cbn [chunks]. by rewrite map_fst_chunks_set, Hc.
Qed.

(** Block queries after [setBlock_cell]: the written index reads as the
    new byte, and a query of another chunk, of a place outside the chunk
    or of another index reads as before. *)
Lemma setBlock_cell_getBlock_same w cx cz lx ly lz id c :
  chunks_get (chunks w) (getChunkKey (Num cx) (Num cz)) = Some c ->
  Z.of_nat (length (data c)) = 6144 -> in_chunk lx ly lz ->
  getBlock (chunks (outcome_world (setBlock_cell w cx cz lx ly lz id)))
    (Num cx) (Num cz) lx ly lz = Some (id mod 256).
Proof.
  intros Hc Hlen Hin. pose proof Hin as (_ & Hly & _).
  rewrite getBlock_data, (setBlock_cell_data_same _ _ _ _ _ _ _ _ Hc Hly).
  rewrite local_block_inside by done. apply data_get_set_eq.
  pose proof (cell_index_range _ _ _ Hin). lia.
Qed.

Lemma setBlock_cell_getBlock_other w cx cz lx ly lz id cx' cz' x y z :
  (cx', cz') <> (cx, cz) \/ ~ in_chunk x y z
  \/ cell_index x y z <> cell_index lx ly lz ->
  getBlock (chunks (outcome_world (setBlock_cell w cx cz lx ly lz id)))
    (Num cx') (Num cz') x y z
  = getBlock (chunks w) (Num cx') (Num cz') x y z.
Proof.
  intros Hne. rewrite !getBlock_data.
  set (key := getChunkKey (Num cx) (Num cz)).
  destruct (String.eqb_spec (getChunkKey (Num cx') (Num cz')) key) as [Hk|Hk];
    [|by rewrite setBlock_cell_data_other].
  rewrite Hk. apply getChunkKey_inj in Hk as [-> ->].
  destruct (chunks_get (chunks w) key) as [c|] eqn:Hc;
    [|rewrite (setBlock_cell_noop w cx cz lx ly lz id (or_introl Hc));
      cbn [outcome_world]; by rewrite Hc].
  destruct (decide (0 <= ly < CHUNK_HEIGHT)) as [HY|HY];
    [|rewrite (setBlock_cell_noop w cx cz lx ly lz id (or_intror HY));
      cbn [outcome_world]; by rewrite Hc].
  rewrite (setBlock_cell_data_same _ _ _ _ _ _ _ _ Hc HY).
  cbn [fmap option_fmap option_map].
  destruct (decide (in_chunk x y z)) as [Hin|Hout].
  - rewrite !local_block_inside by done. apply data_get_set_ne.
    destruct Hne as [Hne|[Hne|Hne]]; [done|done|]. by intros Hidx.
  - by rewrite !local_block_outside.
Qed.

(** X3: an edit is read back at its cell and nowhere else.  Let [cx],
    [cz], [lx], [ly], [lz] be the chunk and the local coordinates that
    [setBlock(wx, wy, wz, id)] computes.  After the call, whether the
    rebuild of the mesh returned or threw, [getBlock] answers
    [id mod 256] for the cell [(lx, ly, lz)] of the chunk [(cx, cz)],
    when that chunk is in the map with a complete block array and the
    three local coordinates are those of a cell; and every query of
    another chunk, of a place outside the chunk, or of a cell whose
    index is not the written one, is answered as before. *)
Theorem X3_setBlock_read_back (w : World) (wx wy wz : R) (id : Z) :
  let cx := Zfloor (wx / 16) in
  let cz := Zfloor (wz / 16) in
  let lx := Zfloor (wx - IZR cx * 16) in
  let lz := Zfloor (wz - IZR cz * 16) in
  let ly := Zfloor wy in
  let w' := outcome_world (setBlock w wx wy wz id) in
  (forall c,
     chunks_get (chunks w) (getChunkKey (Num cx) (Num cz)) = Some c ->
     Z.of_nat (length (data c)) = 6144 -> in_chunk lx ly lz ->
     getBlock (chunks w') (Num cx) (Num cz) lx ly lz = Some (id mod 256)) /\
  (forall cx' cz' x y z,
     (cx', cz') <> (cx, cz) \/ ~ in_chunk x y z
     \/ cell_index x y z <> cell_index lx ly lz ->
     getBlock (chunks w') (Num cx') (Num cz') x y z
     = getBlock (chunks w) (Num cx') (Num cz') x y z).
Proof.
  intros cx cz lx lz ly w'. unfold w'. rewrite setBlock_cell_eq. fold cx cz lx lz ly.
  split.
  - intros c Hc Hlen Hin. by apply (setBlock_cell_getBlock_same _ _ _ _ _ _ _ c).
  - intros cx' cz' x y z Hne. by apply setBlock_cell_getBlock_other.
Qed.

(** X3 for Sand put at [(0.5, 6.5, 0.5)] over the flat chunk: the cell
    [(0, 6, 0)] reads as Sand. *)
Lemma X3_setBlock_read_back_witness :
  let w := {| chunks := flat_chunks; scene := []; meshes_made := 0 |} in
  getBlock (chunks (outcome_world (setBlock w 0.5 6.5 0.5 BLOCK.SAND)))
    (Num 0) (Num 0) 0 6 0 = Some BLOCK.SAND.
Proof.
  intros w.
  assert (Zfloor (0.5 / 16) = 0) as Hc by (apply Zfloor_eq; simpl; lra).
  assert (Zfloor (0.5 - IZR 0 * 16) = 0) as Hl by (apply Zfloor_eq; simpl; lra).
  assert (Zfloor 6.5 = 6) as H6 by (apply Zfloor_eq; simpl; lra).
  pose proof (X3_setBlock_read_back w 0.5 6.5 0.5 BLOCK.SAND) as H.
  cbv zeta in H. rewrite Hc, Hl, H6 in H. destruct H as [H _].
  apply (H {| data := flat_data; mesh := None |}).
  - reflexivity.
  - apply flat_data_wf.
  - unfold in_chunk, CHUNK_SIZE, CHUNK_HEIGHT. lia.
Defined.

(** X4: an edit with a block id returns and keeps the world map well
    formed.  On a well-formed map, [setBlock] with an id from 0 to 6
    does not throw, whatever the position; the map it leaves is well
    formed and has the same keys in the same order. *)
Theorem X4_setBlock_keeps_well_formed (w : World) (wx wy wz : R) (id : Z) :
  wf_chunks (chunks w) -> 0 <= id <= 6 ->
  exists w', setBlock w wx wy wz id = Returned w' /\
    wf_chunks (chunks w') /\ map fst (chunks w') = map fst (chunks w).
Proof.
  intros Hw Hid. destruct (setBlock_wf w wx wy wz id Hw Hid) as (w' & Hs & Hw').
  exists w'. split; [done|]. split; [done|].
  pose proof (setBlock_keys w wx wy wz id) as Hk. by rewrite Hs in Hk.
Qed.

(** X4 on the flat chunk: Sand put at the position [(0.5, 6.5, 0.5)]. *)
Lemma X4_setBlock_keeps_well_formed_witness :
  let w := {| chunks := flat_chunks; scene := []; meshes_made := 0 |} in
  exists w', setBlock w 0.5 6.5 0.5 BLOCK.SAND = Returned w' /\
    wf_chunks (chunks w') /\ map fst (chunks w') = map fst (chunks w).
Proof.
  intros w. apply (X4_setBlock_keeps_well_formed w 0.5 6.5 0.5 BLOCK.SAND).
  - apply flat_chunks_wf.
  - unfold BLOCK.SAND. lia.
Defined.

(** ** The mesher on chunks with no block and with one block *)

(** A block array that holds Air only pushes no quad, whatever the chunk
    coordinates and the world map are. *)
Lemma mesh_faces_of_air cs cx cz d :
  (forall x y z, in_chunk x y z -> data_get d (cell_index x y z) = Some BLOCK.AIR) ->
  mesh_faces_of cs cx cz d = Normal [].
Proof.
  intros Hair. unfold mesh_faces_of.
  apply (for_range_ind (fun _ a => a = Normal [])); [done|done|].
  intros y a Hy ->.
  apply (for_range_ind (fun _ a => a = Normal [])); [done|done|].
  intros z a Hz ->.
  apply (for_range_ind (fun _ a => a = Normal [])); [done|done|].
  intros x a Hx ->. simpl. unfold mesh_cell.
  rewrite Hair by (unfold in_chunk; lia). by rewrite decide_True.
Qed.

Lemma flat_map_nil {A B} (f : A -> list B) (l : list A) :
  (forall x, x ∈ l -> f x = []) -> flat_map f l = [].
Proof.
  induction l as [|a l IH]; intros H; simpl; [done|].
  rewrite H by apply list_elem_of_here. apply IH.
  intros x Hx. apply H. by apply list_elem_of_further.
Qed.

Lemma flat_map_single {A B} (f : A -> list B) (l : list A) (x0 : A) :
  NoDup l -> x0 ∈ l -> (forall x, x ∈ l -> x <> x0 -> f x = []) ->
  flat_map f l = f x0.
Proof.
  induction l as [|a l IH]; intros Hnd Hin H; [by apply elem_of_nil in Hin|].
  apply NoDup_cons in Hnd as [Ha Hnd]. simpl.
  apply elem_of_cons in Hin as [->|Hin].
  - rewrite flat_map_nil; [by rewrite app_nil_r|].
    intros x Hx. apply H; [by apply list_elem_of_further|]. by intros ->.
  - rewrite H; [|apply list_elem_of_here|by intros ->].
    apply IH; [done..|]. intros x Hx. apply H. by apply list_elem_of_further.
Qed.

(** The cells of a block array that is Air but for one cell. *)
Lemma data_get_single x y z t x' y' z' :
  in_chunk x y z -> in_chunk x' y' z' ->
  data_get (data_set (filled BLOCK.AIR) (cell_index x y z) t) (cell_index x' y' z')
  = Some (if decide ((x', y', z') = (x, y, z)) then t mod 256 else BLOCK.AIR).
Proof.
  intros Hin Hin'. destruct (decide _) as [[= -> -> ->]|Hne].
  - apply data_get_set_eq. pose proof (cell_index_range _ _ _ Hin).
    destruct (filled_wf BLOCK.AIR) as [Hlen _]; [done|lia].
  - rewrite data_get_set_ne; [by apply data_get_filled|].
    intros Hidx. apply cell_index_inj in Hidx as (-> & -> & ->); done.
Qed.

(** The quads of a chunk with one block: the six faces of that block, in
    the order of the neighbour tests. *)
Lemma chunk_quads_single cx cz x y z t :
  in_chunk x y z -> 1 <= t <= 6 ->
  chunk_quads (data_set (filled BLOCK.AIR) (cell_index x y z) t) cx cz
  = map (quad cx cz x y z t) neighbours.
Proof.
  intros Hin Ht. set (d := data_set _ _ t).
  assert (forall x' y' z', (x', y', z') <> (x, y, z) ->
            local_block d x' y' z' = Some BLOCK.AIR) as Hother.
  { intros x' y' z' Hne. unfold local_block.
    destruct (outside x' y' z') eqn:Ho; [done|]. apply outside_spec in Ho.
    unfold d. rewrite data_get_single by done. by rewrite decide_False. }
  assert (forall x' y' z', in_chunk x' y' z' -> (x', y', z') <> (x, y, z) ->
            cell_quads d cx cz x' y' z' = []) as Hempty.
  { intros x' y' z' Hin' Hne. unfold cell_quads.
    rewrite <- local_block_inside by done. rewrite Hother by done.
    by rewrite decide_True. }
  pose proof Hin as (Hx & Hy & Hz). unfold chunk_quads.
  rewrite (flat_map_single _ _ y);
    [|apply NoDup_seqZ|apply elem_of_seqZ; lia|].
  2: { intros y' Hy' Hne. apply elem_of_seqZ in Hy'.
       apply flat_map_nil. intros z' Hz'. apply elem_of_seqZ in Hz'.
       apply flat_map_nil. intros x' Hx'. apply elem_of_seqZ in Hx'.
       apply Hempty; [unfold in_chunk; lia|congruence]. }
  rewrite (flat_map_single _ _ z);
    [|apply NoDup_seqZ|apply elem_of_seqZ; lia|].
  2: { intros z' Hz' Hne. apply elem_of_seqZ in Hz'.
       apply flat_map_nil. intros x' Hx'. apply elem_of_seqZ in Hx'.
       apply Hempty; [unfold in_chunk; lia|congruence]. }
  rewrite (flat_map_single _ _ x);
    [|apply NoDup_seqZ|apply elem_of_seqZ; lia|].
  2: { intros x' Hx' Hne. apply elem_of_seqZ in Hx'.
       apply Hempty; [unfold in_chunk; lia|congruence]. }
  unfold cell_quads, d. rewrite data_get_single by done.
  destruct (decide ((x, y, z) = (x, y, z))); [|done].
  rewrite Z.mod_small by lia. rewrite decide_False by (unfold BLOCK.AIR; lia).
  fold d. unfold neighbours. cbn [flat_map map fst snd].
  rewrite !decide_True by (apply Hother; intros [= ? ? ?]; lia). done.
Qed.

(** X5: a chunk of Air gets no mesh.  For a complete block array that
    holds Air only, [buildChunkMesh] returns without touching the world
    map, the scene or the mesh counter, whatever the chunk coordinates
    are and whether or not the chunk is in the map: no quad is pushed, so
    [chunks[key].mesh] is not reached. *)
Theorem X5_air_chunk_gets_no_mesh (w : World) (cx cz : jsnum) (d : list Z) :
  Z.of_nat (length d) = 6144 -> Forall (fun v => v = BLOCK.AIR) d ->
  mesh_faces_of (chunks w) cx cz d = Normal [] /\
  buildChunkMesh w cx cz d = Returned w.
Proof.
  intros Hlen Hair.
  assert (mesh_faces_of (chunks w) cx cz d = Normal []) as Hm.
  { apply mesh_faces_of_air. intros x y z Hin.
    pose proof (cell_index_range _ _ _ Hin) as Hi. unfold data_get.
    destruct (Z.ltb_spec (cell_index x y z) 0); [lia|].
    destruct (lookup_lt_is_Some_2 d (Z.to_nat (cell_index x y z))) as [v Hv]; [lia|].
    rewrite Hv. f_equal. rewrite Forall_lookup in Hair. by apply (Hair _ _ Hv). }
  split; [done|]. unfold buildChunkMesh. by rewrite Hm.
Qed.

(** X5 for chunk coordinates that are not numbers, in a world that does
    not hold such a chunk. *)
Lemma X5_air_chunk_gets_no_mesh_witness :
  mesh_faces_of (chunks stone_world) NaN Undefined (filled BLOCK.AIR) = Normal [] /\
  buildChunkMesh stone_world NaN Undefined (filled BLOCK.AIR) = Returned stone_world.
Proof.
  apply (X5_air_chunk_gets_no_mesh stone_world NaN Undefined (filled BLOCK.AIR)).
  - by destruct (filled_wf BLOCK.AIR).
  - apply Forall_replicate. done.
Defined.

(** X6: a single block has six faces.  When the block array of a chunk
    in the map holds Air but for one cell with a block id from 1 to 6,
    wherever in the chunk, [buildChunkMesh] returns having stored and
    added to the scene one new mesh, made of the six quads of that cell
    in the order right, left, top, bottom, front, back. *)
Theorem X6_single_block_has_six_faces
    (w : World) (cx cz : Z) (c : Chunk) (x y z t : Z) :
  chunks_get (chunks w) (getChunkKey (Num cx) (Num cz)) = Some c ->
  data c = data_set (filled BLOCK.AIR) (cell_index x y z) t ->
  in_chunk x y z -> 1 <= t <= 6 ->
  let m := {| mesh_id := meshes_made w;
              mesh_faces := map (quad (Num cx) (Num cz) x y z t) neighbours |} in
  buildChunkMesh w (Num cx) (Num cz) (data c) =
  Returned {| chunks := chunks_set (chunks w) (getChunkKey (Num cx) (Num cz))
                          {| data := data c; mesh := Some m |};
              scene := scene w ++ [m];
              meshes_made := S (meshes_made w) |}.
Proof.
  intros Hc Hd Hin Ht m.
  assert (wf_data (data c)) as Hwf.
  { rewrite Hd. apply data_set_wf; [apply filled_wf; unfold BLOCK.AIR|]; lia. }
  rewrite (buildChunkMesh_loaded _ _ _ _ Hc Hwf).
  rewrite Hd at 1. rewrite chunk_quads_single by done. done.
Qed.

(** X6 for a Grass block in the corner of the only chunk of a world. *)
Lemma X6_single_block_has_six_faces_witness :
  let d := data_set (filled BLOCK.AIR) (cell_index 0 0 0) BLOCK.GRASS in
  let c := {| data := d; mesh := None |} in
  let w := {| chunks := [(getChunkKey (Num 0) (Num 0), c)];
              scene := []; meshes_made := 0 |} in
  let m := {| mesh_id := 0;
              mesh_faces := map (quad (Num 0) (Num 0) 0 0 0 BLOCK.GRASS) neighbours |} in
  buildChunkMesh w (Num 0) (Num 0) d =
  Returned {| chunks := [(getChunkKey (Num 0) (Num 0), {| data := d; mesh := Some m |})];
              scene := [m]; meshes_made := 1 |}.
Proof.
  intros d c w m.
  apply (X6_single_block_has_six_faces w 0 0 c 0 0 0 BLOCK.GRASS).
  - reflexivity.
  - reflexivity.
  - unfold in_chunk, CHUNK_SIZE, CHUNK_HEIGHT. lia.
  - unfold BLOCK.GRASS. lia.
Defined.

(** [TEXTURE_MAP] has entries for the block ids 1 to 6 only. *)
Lemma TEXTURE_MAP_None t : ~ 1 <= t <= 6 -> TEXTURE_MAP (Some t) = None.
Proof.
  intros Ht. destruct t as [|p|p]; [done| |done].
  destruct p as [[[p|p|]|[p|p|]|]|[[p|p|]|[p|p|]|]|]; try reflexivity; lia.
Qed.

(** The loop body of the mesher throws at a cell whose block has no
    entry in [TEXTURE_MAP] and that has a face to show. *)
Lemma mesh_cell_untextured cs cx cz d x y z t n g :
  data_get d (cell_index x y z) = Some t -> ~ 0 <= t <= 6 ->
  n ∈ neighbours ->
  getBlock cs cx cz (x + n.1.1.1) (y + n.1.1.2) (z + n.1.2) = Some BLOCK.AIR ->
  mesh_cell cs cx cz d x y z g = TypeError.
Proof.
  intros Ht Hid Hn Hair. unfold mesh_cell. rewrite Ht.
  rewrite decide_False by (intros [= ->]; unfold BLOCK.AIR in Hid; lia).
  apply (foldl_throws (fun n a => cbind a (mesh_neighbour cs cx cz x y z (Some t) n))
           (fun _ => eq_refl) neighbours n Hn).
  intros [g'|]; [|done]. destruct n as [[[ox oy] oz] role]. simpl in *.
  rewrite decide_True by done. unfold addFace.
  rewrite TEXTURE_MAP_None by lia. done.
Qed.

Lemma mesh_faces_of_untextured cs cx cz d x y z t n :
  in_chunk x y z ->
  data_get d (cell_index x y z) = Some t -> ~ 0 <= t <= 6 ->
  n ∈ neighbours ->
  getBlock cs cx cz (x + n.1.1.1) (y + n.1.1.2) (z + n.1.2) = Some BLOCK.AIR ->
  mesh_faces_of cs cx cz d = TypeError.
Proof.
  intros (Hx & Hy & Hz) Ht Hid Hn Hair. unfold mesh_faces_of.
  assert (forall y z x, cbind TypeError (mesh_cell cs cx cz d x y z) = TypeError)
    as Hsx by done.
  assert (forall y z,
            for_range CHUNK_SIZE
              (fun x g => cbind g (mesh_cell cs cx cz d x y z)) TypeError
            = TypeError) as Hsz.
  { intros y' z'. by apply for_range_thrown. }
  apply (for_range_throws _ _ y); [|done|].
  { intros y'. by apply for_range_thrown. }
  intros a. apply (for_range_throws _ _ z); [done|done|].
  intros a'. apply (for_range_throws _ _ x); [done|done|].
  intros [g|]; [|done]. simpl. by apply (mesh_cell_untextured _ _ _ _ _ _ _ t n).
Qed.

Lemma neighbours_offset (n : Z * Z * Z * faceName) :
  n ∈ neighbours -> (n.1.1.1, n.1.1.2, n.1.2) <> (0, 0, 0).
Proof.
  intros Hn. apply list_elem_of_In in Hn. simpl in Hn.
  destruct Hn as [<-|[<-|[<-|[<-|[<-|[<-|[]]]]]]]; done.
Qed.

(** X7: an edit with a block id that has no texture throws.  Let [cx],
    [cz], [lx], [ly], [lz] be the chunk and the local coordinates that
    [setBlock(wx, wy, wz, id)] computes.  When the chunk is in the map,
    the local coordinates are those of a cell, the byte of [id] is above
    6 and a neighbouring place of the cell is outside the chunk or holds
    Air, a [TypeError] escapes from the rebuild of the mesh ([def.all]
    on [undefined] in [addFace]).  By then the block array holds the new
    byte and the chunk's old mesh has left the scene, while
    [chunks[key].mesh] still refers to it: no mesh shows the chunk any
    more. *)
Theorem X7_untextured_block_throws
    (w : World) (wx wy wz : R) (id : Z) (c : Chunk) (n : Z * Z * Z * faceName) :
  let cx := Zfloor (wx / 16) in
  let cz := Zfloor (wz / 16) in
  let lx := Zfloor (wx - IZR cx * 16) in
  let lz := Zfloor (wz - IZR cz * 16) in
  let ly := Zfloor wy in
  let key := getChunkKey (Num cx) (Num cz) in
  chunks_get (chunks w) key = Some c ->
  Z.of_nat (length (data c)) = 6144 -> in_chunk lx ly lz ->
  6 < id mod 256 ->
  n ∈ neighbours ->
  local_block (data c) (lx + n.1.1.1) (ly + n.1.1.2) (lz + n.1.2) = Some BLOCK.AIR ->
  setBlock w wx wy wz id =
  Threw {| chunks := chunks_set (chunks w) key
                       {| data := data_set (data c) (cell_index lx ly lz) id;
                          mesh := mesh c |};
           scene := match mesh c with
                    | Some m => scene_remove (scene w) m
                    | None => scene w
                    end;
           meshes_made := meshes_made w |}.
Proof.
  intros cx cz lx lz ly key Hc Hlen Hin Hid Hn Hair.
  rewrite setBlock_cell_eq. fold cx cz lx lz ly. unfold setBlock_cell. fold key.
  rewrite Hc. pose proof Hin as (_ & Hly & _).
  replace ((ly >=? 0) && (ly <? CHUNK_HEIGHT)) with true by lia.
  cbv zeta. set (d := data_set (data c) _ id). set (w1 := {| chunks := _ |}).
  assert (mesh_faces_of (chunks w1) (Num cx) (Num cz) d = TypeError) as Hthrow.
  { apply (mesh_faces_of_untextured _ _ _ _ lx ly lz (id mod 256) n);
      [done| |lia|done|].
    - apply data_get_set_eq. pose proof (cell_index_range _ _ _ Hin). lia.
    - rewrite (getBlock_loaded _ _ _ {| data := d; mesh := mesh c |})
        by apply chunks_get_set.
      cbn [data]. rewrite <- Hair. unfold local_block.
      destruct (outside _ _ _) eqn:Ho; [done|]. apply outside_spec in Ho.
      apply data_get_set_ne. intros Hidx.
      apply cell_index_inj in Hidx as (Hx & Hy & Hz); [|done..].
      apply (neighbours_offset n Hn). f_equal; [f_equal|]; lia. }
  unfold buildChunkMesh. by rewrite Hthrow.
Qed.

(** X7 for the id 7 put into the top layer of a chunk of Stone. *)
Lemma X7_untextured_block_throws_witness :
  let c := {| data := filled BLOCK.STONE; mesh := None |} in
  let key := getChunkKey (Num 0) (Num 0) in
  let w := {| chunks := [(key, c)]; scene := []; meshes_made := 0 |} in
  setBlock w 0.5 23.5 0.5 7 =
  Threw {| chunks := [(key, {| data := data_set (filled BLOCK.STONE)
                                         (cell_index 0 23 0) 7;
                               mesh := None |})];
           scene := []; meshes_made := 0 |}.
Proof.
  intros c key w.
  assert (Zfloor (0.5 / 16) = 0) as H0 by (apply Zfloor_eq; simpl; lra).
  assert (Zfloor (0.5 - IZR 0 * 16) = 0) as Hl by (apply Zfloor_eq; simpl; lra).
  assert (Zfloor 23.5 = 23) as H23 by (apply Zfloor_eq; simpl; lra).
  pose proof (X7_untextured_block_throws w 0.5 23.5 0.5 7 c (0, 1, 0, top)) as H.
  cbv zeta in H. rewrite H0, Hl, H23 in H.
  apply H.
  - reflexivity.
  - by destruct (filled_wf BLOCK.STONE).
  - unfold in_chunk, CHUNK_SIZE, CHUNK_HEIGHT. lia.
  - reflexivity.
  - in_neighbours.
  - apply local_block_outside. unfold in_chunk, CHUNK_HEIGHT. simpl. lia.
Defined.

(** ** Streaming *)

Lemma chunks_set_twice cs key c c' :
  chunks_set (chunks_set cs key c) key c' = chunks_set cs key c'.
Proof.
  induction cs as [|[k c0] cs IH]; simpl.
  - by rewrite String.eqb_refl.
  - destruct (String.eqb_spec k key) as [->|Hne]; simpl.
    + by rewrite String.eqb_refl.
    + destruct (String.eqb_spec k key); [done|]. by rewrite IH.
Qed.

Lemma chunks_get_app cs extra key :
  chunks_get (cs ++ extra) key
  = match chunks_get cs key with
    | Some c => Some c
    | None => chunks_get extra key
    end.
Proof.
  induction cs as [|[k c0] cs IH]; simpl; [done|].
  by destruct (String.eqb k key).
Qed.

(** One iteration of the loops of [updateChunks]: nothing happens for a
    chunk that is in the map; otherwise the generated chunk becomes the
    last entry of the map, with its mesh if it has a quad. *)
Lemma stream_chunk_loaded w cx cz :
  loaded w cx cz -> stream_chunk w cx cz = Returned w.
Proof.
  unfold loaded, stream_chunk. by destruct (chunks_get _ _).
Qed.

(** Storing a new chunk without a mesh and meshing it, as [updateChunks]
    and [loadWorld] do. *)
Lemma buildChunkMesh_new w cx cz d :
  let key := getChunkKey cx cz in
  chunks_get (chunks w) key = None -> wf_data d ->
  buildChunkMesh
    {| chunks := chunks_set (chunks w) key {| data := d; mesh := None |};
       scene := scene w; meshes_made := meshes_made w |} cx cz d =
  Returned
    (match chunk_quads d cx cz with
     | [] => {| chunks := chunks w ++ [(key, {| data := d; mesh := None |})];
                scene := scene w; meshes_made := meshes_made w |}
     | qs =>
         let m := {| mesh_id := meshes_made w; mesh_faces := qs |} in
         {| chunks := chunks w ++ [(key, {| data := d; mesh := Some m |})];
            scene := scene w ++ [m];
            meshes_made := S (meshes_made w) |}
     end).
Proof.
  intros key Hget Hwf.
  pose proof Hget as Hfresh. apply chunks_get_None in Hfresh.
  pose proof (buildChunkMesh_loaded
    {| chunks := chunks_set (chunks w) key {| data := d; mesh := None |};
       scene := scene w; meshes_made := meshes_made w |}
    cx cz {| data := d; mesh := None |}) as Hb.
  cbn [data chunks scene meshes_made] in Hb. fold key in Hb.
  rewrite Hb; [|apply chunks_get_set|done].
  f_equal. destruct (chunk_quads d cx cz).
  - by rewrite chunks_set_fresh.
  - cbv zeta. by rewrite chunks_set_twice, chunks_set_fresh.
Qed.

Lemma stream_chunk_new w cx cz :
  ~ loaded w cx cz ->
  stream_chunk w cx cz =
  Returned
    (match chunk_quads (generateChunkData cx cz) (Num cx) (Num cz) with
     | [] => {| chunks := chunks w ++ [(getChunkKey (Num cx) (Num cz),
                   {| data := generateChunkData cx cz; mesh := None |})];
                scene := scene w; meshes_made := meshes_made w |}
     | qs =>
         let m := {| mesh_id := meshes_made w; mesh_faces := qs |} in
         {| chunks := chunks w ++ [(getChunkKey (Num cx) (Num cz),
                   {| data := generateChunkData cx cz; mesh := Some m |})];
            scene := scene w ++ [m];
            meshes_made := S (meshes_made w) |}
     end).
Proof.
  intros Hnew. unfold loaded in Hnew. unfold stream_chunk.
  destruct (chunks_get (chunks w) _) eqn:Hget; [by destruct Hnew|].
  cbv zeta. generalize (generateChunkData_wf cx cz).
  generalize (generateChunkData cx cz). intros d Hd.
  by apply (buildChunkMesh_new w (Num cx) (Num cz) d).
Qed.

Lemma streamed_refl K w : streamed K w w.
Proof.
  exists []. rewrite app_nil_r. split_and!; [done|done|apply NoDup_nil_2|].
  by intros key ?%elem_of_nil.
Qed.

Lemma streamed_trans K w1 w2 w3 :
  streamed K w1 w2 -> streamed K w2 w3 -> streamed K w1 w3.
Proof.
  intros (e1 & H1 & Hg1 & Hn1 & Hf1) (e2 & H2 & Hg2 & Hn2 & Hf2).
  exists (e1 ++ e2). split_and!.
  - by rewrite H2, H1, app_assoc.
  - by apply Forall_app.
  - rewrite map_app. apply NoDup_app. split_and!; [done| |done].
    intros key Hk1 Hk2. specialize (Hf2 _ Hk2). rewrite H1, chunks_get_app in Hf2.
    destruct (chunks_get (chunks w1) key); [done|].
    by apply chunks_get_None in Hf2.
  - intros key. rewrite map_app, elem_of_app. intros [Hk|Hk]; [by apply Hf1|].
    specialize (Hf2 _ Hk). rewrite H1, chunks_get_app in Hf2.
    by destruct (chunks_get (chunks w1) key).
Qed.

Lemma streamed_loaded K w w' cx cz :
  streamed K w w' -> loaded w cx cz -> loaded w' cx cz.
Proof.
  intros (e & He & _) H. unfold loaded in *. rewrite He, chunks_get_app.
  by destruct (chunks_get (chunks w) _).
Qed.

Lemma stream_chunk_streamed (K : Z -> Z -> Prop) w cx cz :
  K cx cz ->
  exists w', stream_chunk w cx cz = Returned w' /\ streamed K w w' /\ loaded w' cx cz.
Proof.
  intros HK.
  destruct (chunks_get (chunks w) (getChunkKey (Num cx) (Num cz))) as [c|] eqn:Hget.
  - assert (loaded w cx cz) as Hl by (unfold loaded; congruence).
    exists w. split_and!; [by apply stream_chunk_loaded|apply streamed_refl|done].
  - assert (~ loaded w cx cz) as Hl by (unfold loaded; congruence).
    rewrite (stream_chunk_new _ _ _ Hl). eexists. split; [done|].
    assert (forall m sc n,
      let w' := {| chunks := chunks w ++ [(getChunkKey (Num cx) (Num cz),
                    {| data := generateChunkData cx cz; mesh := m |})];
                   scene := sc; meshes_made := n |} in
      streamed K w w' /\ loaded w' cx cz) as Hnew.
    { intros m sc n w'. split.
      - eexists. split; [done|]. split_and!.
        + apply Forall_singleton. by exists cx, cz.
        + apply NoDup_singleton.
        + intros key. simpl. by intros ->%list_elem_of_singleton.
      - unfold loaded, w'. cbn [chunks]. rewrite chunks_get_app, Hget. simpl.
        by rewrite String.eqb_refl. }
    destruct (chunk_quads _ _ _); apply Hnew.
Qed.

(** A loop whose iterations all return. *)
Lemma for_between_returns (P : World -> Prop) (Q : Z -> World -> Prop)
    (lo hi : Z) (body : Z -> outcome -> outcome) (w : World) :
  (forall i w1, lo <= i <= hi -> P w1 ->
     exists w2, body i (Returned w1) = Returned w2 /\ P w2 /\ Q i w2 /\
                forall j, Q j w1 -> Q j w2) ->
  P w ->
  exists w', for_between lo hi body (Returned w) = Returned w' /\ P w' /\
             forall i, lo <= i <= hi -> Q i w'.
Proof.
  intros Hbody HP. unfold for_between.
  assert (forall i, i ∈ seqZ lo (hi - lo + 1) -> lo <= i <= hi) as Hrange.
  { intros i Hi%elem_of_seqZ. lia. }
  assert (forall i, lo <= i <= hi -> i ∈ seqZ lo (hi - lo + 1)) as Hall.
  { intros i Hi. apply elem_of_seqZ. lia. }
  cut (exists w', foldl (fun a i => body i a) (Returned w) (seqZ lo (hi - lo + 1))
                  = Returned w' /\ P w' /\
                  (forall i, i ∈ seqZ lo (hi - lo + 1) -> Q i w') /\
                  (forall j, Q j w -> Q j w')).
  { intros (w' & ? & ? & ? & ?). exists w'. split_and!; [done|done|]. auto. }
  clear Hall. revert w HP. induction (seqZ lo (hi - lo + 1)) as [|a l IH]; intros w HP.
  - exists w. split_and!; [done|done| |done]. by intros i ?%elem_of_nil.
  - destruct (Hbody a w) as (w2 & Hb & HP2 & HQ & Hst);
      [apply Hrange, list_elem_of_here|done|].
    destruct (IH (fun i Hi => Hrange i (list_elem_of_further _ _ _ Hi)) w2 HP2)
      as (w' & Hf & HP' & HQ' & Hst').
    exists w'. simpl. rewrite Hb. split_and!; [done|done| |by auto].
    intros i [->|Hi]%elem_of_cons; [by apply Hst'|by apply HQ'].
Qed.

(** [updateChunks] returns, keeps every entry of the map and adds
    generated terrain until the 5 x 5 chunks around the camera are
    there. *)
Lemma updateChunks_streamed w pos :
  let pcx := Zfloor (vx pos / 16) in
  let pcz := Zfloor (vz pos / 16) in
  exists w', updateChunks w pos = Returned w' /\ streamed (near pcx pcz) w w' /\
    forall x z, -2 <= x <= 2 -> -2 <= z <= 2 -> loaded w' (pcx + x) (pcz + z).
Proof.
  intros pcx pcz. unfold updateChunks. change (IZR CHUNK_SIZE) with 16%R.
  fold pcx pcz. change RENDER_DISTANCE with 2. change (- (2)) with (-2).
  destruct (for_between_returns (streamed (near pcx pcz) w)
              (fun x w' => forall z, -2 <= z <= 2 -> loaded w' (pcx + x) (pcz + z))
              (-2) 2
              (fun x => for_between (-2) 2 (fun z o =>
                 obind o (fun w' => stream_chunk w' (pcx + x) (pcz + z)))) w)
    as (w' & Hret & Hst & Hl); [|apply streamed_refl|].
  - intros x w1 Hx Hw1.
    destruct (for_between_returns (fun w2 => streamed (near pcx pcz) w1 w2)
                (fun z w' => loaded w' (pcx + x) (pcz + z)) (-2) 2
                (fun z o => obind o (fun w' => stream_chunk w' (pcx + x) (pcz + z))) w1)
      as (w2 & Hret & Hst & Hl); [|apply streamed_refl|].
    + intros z w2 Hz Hw2. simpl.
      destruct (stream_chunk_streamed (near pcx pcz) w2 (pcx + x) (pcz + z))
        as (w3 & Hs & Hst & Hl); [unfold near, RENDER_DISTANCE; lia|].
      exists w3. split_and!; [done|by eapply streamed_trans|done|].
      intros j Hj. by eapply streamed_loaded.
    + exists w2. split_and!; [done|by eapply streamed_trans|done|].
      intros j Hj z Hz. eapply streamed_loaded; [done|by apply Hj].
  - exists w'. split_and!; [done|done|]. intros x z Hx Hz. by apply Hl.
Qed.

(** Nothing is left to do for [updateChunks] when the 5 x 5 chunks
    around the camera are in the map. *)
Lemma updateChunks_all_loaded w pos :
  (forall x z, -2 <= x <= 2 -> -2 <= z <= 2 ->
     loaded w (Zfloor (vx pos / 16) + x) (Zfloor (vz pos / 16) + z)) ->
  updateChunks w pos = Returned w.
Proof.
  intros Hl. unfold updateChunks. change (IZR CHUNK_SIZE) with 16%R.
  change RENDER_DISTANCE with 2. change (- (2)) with (-2).
  set (pcx := Zfloor (vx pos / 16)) in *. set (pcz := Zfloor (vz pos / 16)) in *.
  destruct (for_between_returns (fun w' => w' = w) (fun _ _ => True) (-2) 2
              (fun x => for_between (-2) 2 (fun z o =>
                 obind o (fun w' => stream_chunk w' (pcx + x) (pcz + z)))) w)
    as (w' & Hret & -> & _); [|done|done].
  intros x w1 Hx ->.
  destruct (for_between_returns (fun w' => w' = w) (fun _ _ => True) (-2) 2
              (fun z o => obind o (fun w' => stream_chunk w' (pcx + x) (pcz + z))) w)
    as (w' & Hret & -> & _); [|done|by exists w].
  intros z w1 Hz ->. exists w. simpl. rewrite stream_chunk_loaded by by apply Hl. done.
Qed.

Lemma streamed_wf K w w' :
  streamed K w w' -> wf_chunks (chunks w) -> wf_chunks (chunks w').
Proof.
  intros (e & He & Hg & Hn & Hf) [Hnd Hall]. rewrite He. split.
  - rewrite map_app. apply NoDup_app. split_and!; [done| |done].
    intros key Hk Hk'. specialize (Hf _ Hk'). by apply chunks_get_None in Hf.
  - apply Forall_app. split; [done|]. eapply Forall_impl; [exact Hg|].
    intros kc (cx & cz & _ & Hkey & Hd). split; [by exists cx, cz|].
    rewrite Hd. apply generateChunkData_wf.
Qed.

(** The keys of the chunks within [RENDER_DISTANCE] of [(pcx, pcz)]. *)
Lemma near_keys pcx pcz (l : list string) :
  NoDup l ->
  (forall k, k ∈ l -> exists cx cz, near pcx pcz cx cz /\
                                    k = getChunkKey (Num cx) (Num cz)) ->
  (length l <= 25)%nat.
Proof.
  intros Hnd Hl.
  set (keys := flat_map (fun x => map (fun z => getChunkKey (Num (pcx + x)) (Num (pcz + z)))
                                      (seqZ (-2) 5)) (seqZ (-2) 5)).
  assert (length keys = 25%nat) as <- by reflexivity.
  apply submseteq_length, NoDup_submseteq; [done|].
  intros k (cx & cz & [Hx Hz] & ->)%Hl. unfold RENDER_DISTANCE in *.
  apply list_elem_of_In, in_flat_map. exists (cx - pcx). split.
  { apply list_elem_of_In, elem_of_seqZ. lia. }
  apply in_map_iff. exists (cz - pcz). split.
  { f_equal; f_equal; lia. }
  apply list_elem_of_In, elem_of_seqZ. lia.
Qed.

(** X8: streaming fills the square around the camera and keeps what is
    there.  [updateChunks] always returns.  Afterwards the 5 x 5 chunks
    around the chunk under the camera are all in the map; the entries
    the map had are kept in place, with their block arrays and meshes;
    the entries added after them, at most 25 and under new keys, are
    chunks of that 5 x 5 square, each with the block array
    [generateChunkData] makes for its coordinates. *)
Theorem X8_updateChunks_fills_square (w : World) (camera_position : Vector3) :
  let pcx := Zfloor (vx camera_position / 16) in
  let pcz := Zfloor (vz camera_position / 16) in
  exists w' extra,
    updateChunks w camera_position = Returned w' /\
    chunks w' = chunks w ++ extra /\
    (forall key c, chunks_get (chunks w) key = Some c ->
       chunks_get (chunks w') key = Some c) /\
    (forall x z, -2 <= x <= 2 -> -2 <= z <= 2 ->
       chunks_get (chunks w') (getChunkKey (Num (pcx + x)) (Num (pcz + z))) <> None) /\
    (forall key, key ∈ map fst extra -> chunks_get (chunks w) key = None) /\
    (length extra <= 25)%nat /\
    Forall (fun kc : string * Chunk =>
              exists cx cz, pcx - 2 <= cx <= pcx + 2 /\ pcz - 2 <= cz <= pcz + 2 /\
                fst kc = getChunkKey (Num cx) (Num cz) /\
                data (snd kc) = generateChunkData cx cz) extra.
Proof.
  intros pcx pcz.
  destruct (updateChunks_streamed w camera_position)
    as (w' & Hret & (extra & He & Hg & Hn & Hf) & Hl).
  exists w', extra. split_and!; [done|done| |exact Hl|done| |].
  - intros key c Hc. by rewrite He, chunks_get_app, Hc.
  - rewrite <- (length_map fst). apply (near_keys pcx pcz); [done|].
    intros k Hk. apply list_elem_of_In, in_map_iff in Hk as ([k' c] & <- & Hin).
    apply list_elem_of_In in Hin. rewrite Forall_forall in Hg.
    destruct (Hg _ Hin) as (cx & cz & HK & Hkey & _). by exists cx, cz.
  - eapply Forall_impl; [exact Hg|].
    intros kc (cx & cz & [HKx HKz] & Hkey & Hd). exists cx, cz.
    unfold RENDER_DISTANCE in *. fold pcx pcz in HKx, HKz. done.
Qed.

(** X9: streaming is idempotent.  Calling [updateChunks] again, with the
    camera anywhere over the same chunk, returns and changes nothing:
    not the map, not the scene, not the mesh counter. *)
Theorem X9_updateChunks_idempotent (w : World) (camera_position : Vector3) :
  exists w',
    updateChunks w camera_position = Returned w' /\
    forall p : Vector3,
      Zfloor (vx p / 16) = Zfloor (vx camera_position / 16) ->
      Zfloor (vz p / 16) = Zfloor (vz camera_position / 16) ->
      updateChunks w' p = Returned w'.
Proof.
  destruct (updateChunks_streamed w camera_position) as (w' & Hret & _ & Hl).
  exists w'. split; [done|]. intros p Hx Hz.
  apply updateChunks_all_loaded. rewrite Hx, Hz. exact Hl.
Qed.

(** X10: streaming keeps the world map well formed: one entry per key,
    every key the key of integer chunk coordinates, every block array
    complete with block ids only. *)
Theorem X10_updateChunks_keeps_well_formed (w : World) (camera_position : Vector3) :
  wf_chunks (chunks w) ->
  exists w', updateChunks w camera_position = Returned w' /\ wf_chunks (chunks w').
Proof.
  intros Hw. destruct (updateChunks_streamed w camera_position) as (w' & Hret & Hs & _).
  exists w'. split; [done|]. by apply (streamed_wf _ _ _ Hs).
Qed.

(** X10 from the empty world, as at start-up. *)
Lemma X10_updateChunks_keeps_well_formed_witness :
  let w := {| chunks := []; scene := []; meshes_made := 0 |} in
  exists w',
    updateChunks w {| vx := 0; vy := 30; vz := 0 |} = Returned w' /\
    wf_chunks (chunks w').
Proof.
  intros w. apply (X10_updateChunks_keeps_well_formed w).
  split; [apply NoDup_nil_2|apply Forall_nil_2].
Defined.

(** X11: the streamed world is the terrain.  After [updateChunks] on
    the empty world, every world cell of the 5 x 5 chunks around the
    camera, at a height within the chunk, reads as the block of the
    terrain function at its world coordinates: Stone, Dirt, Grass at the
    surface height of its column and Air above, the same on both sides
    of every chunk border. *)
Theorem X11_streamed_world_is_terrain (camera_position : Vector3) (n : nat)
    (X Y Zc : Z) :
  let w' := outcome_world
              (updateChunks {| chunks := []; scene := []; meshes_made := n |}
                 camera_position) in
  let pcx := Zfloor (vx camera_position / 16) in
  let pcz := Zfloor (vz camera_position / 16) in
  pcx - 2 <= X / 16 <= pcx + 2 -> pcz - 2 <= Zc / 16 <= pcz + 2 ->
  0 <= Y < CHUNK_HEIGHT ->
  block_at (chunks w') X Y Zc = Some (column_block (terrain_height X Zc) Y).
Proof.
  intros w' pcx pcz HX HZ HY. unfold w'.
  destruct (updateChunks_streamed {| chunks := []; scene := []; meshes_made := n |}
              camera_position) as (w1 & -> & (extra & He & Hg & _) & Hl).
  cbn [outcome_world]. simpl in He. fold pcx pcz in Hl.
  specialize (Hl (X / 16 - pcx) (Zc / 16 - pcz) ltac:(lia) ltac:(lia)).
  unfold loaded in Hl.
  replace (pcx + (X / 16 - pcx)) with (X / 16) in Hl by lia.
  replace (pcz + (Zc / 16 - pcz)) with (Zc / 16) in Hl by lia.
  destruct (chunks_get (chunks w1) _) as [c|] eqn:Hc; [|done].
  pose proof Hc as Hin. apply chunks_get_elem_of in Hin. rewrite He in Hin.
  rewrite Forall_forall in Hg.
  destruct (Hg _ Hin) as (cx & cz & _ & Hkey & Hd). cbn [fst snd] in Hkey, Hd.
  apply getChunkKey_inj in Hkey as [HeX HeZ].
  unfold block_at. rewrite (getBlock_loaded _ _ _ _ _ _ _ Hc), Hd.
  rewrite local_block_inside by by apply in_chunk_mod.
  rewrite generateChunkData_cell by by apply in_chunk_mod.
  rewrite <- HeX, <- HeZ. unfold CHUNK_SIZE.
  replace (X / 16 * 16 + X mod 16) with X by (rewrite (Z.div_mod X 16) at 1; lia).
  replace (Zc / 16 * 16 + Zc mod 16) with Zc by (rewrite (Z.div_mod Zc 16) at 1; lia).
  done.
Qed.

(** X11 at start-up: the cell at the origin. *)
Lemma X11_streamed_world_is_terrain_witness :
  block_at
    (chunks (outcome_world
               (updateChunks {| chunks := []; scene := []; meshes_made := 0 |}
                  {| vx := 8; vy := 29; vz := 8 |}))) 0 0 0
  = Some (column_block (terrain_height 0 0) 0).
Proof.
  assert (Zfloor (8 / 16) = 0) as Hch by (apply Zfloor_eq; simpl; lra).
  pose proof (X11_streamed_world_is_terrain {| vx := 8; vy := 29; vz := 8 |} 0 0 0 0)
    as H.
  cbv zeta in H. cbn [vx vz] in H. rewrite Hch in H.
  apply H.
  - change (0 / 16) with 0. lia.
  - change (0 / 16) with 0. lia.
  - unfold CHUNK_HEIGHT. lia.
Defined.

(** ** Physics: the kill plane, the lift of the ground test and the jump *)

Section Kill.
Local Open Scope R_scope.

(** A step that ends below the kill plane puts the body back to the
    spawn point, at rest. *)
Lemma updatePhysics_kill cs dt b :
  vy (moved b dt) < -10 ->
  updatePhysics cs dt b =
  {| position := {| vx := 0; vy := 30; vz := 0 |};
     rotation := rotation b;
     velocity := {| vx := 0; vy := 0; vz := 0 |};
     onGround := false;
     moveInput_x := moveInput_x b; moveInput_y := moveInput_y b |}.
Proof.
  intros Hlow.
  assert (block_below cs b dt = Some BLOCK.AIR) as Hair.
  { destruct (decide (block_below cs b dt = Some BLOCK.AIR)) as [|Hsolid]; [done|].
    apply getBlock_solid_range in Hsolid as [Hly _]. apply IZR_le in Hly.
    pose proof (Zfloor_bound (vy (moved b dt) - 1.6)). lra. }
  revert Hlow Hair. unfold updatePhysics, block_below, moved.
  change (IZR CHUNK_SIZE) with 16.
  change (vy (set_y (velocity b) (vy (velocity b) - GRAVITY * dt)))
    with (vy (velocity b) - GRAVITY * dt).
  intros Hlow ->. rewrite decide_True by done.
  destruct (Rlt_dec _ _) as [_|Hn]; [done|]. by destruct Hn.
Qed.

Lemma updatePhysics_input cs dt b :
  moveInput_x (updatePhysics cs dt b) = moveInput_x b /\
  moveInput_y (updatePhysics cs dt b) = moveInput_y b.
Proof.
  unfold updatePhysics. destruct (decide _); destruct (Rlt_dec _ _); done.
Qed.

Lemma moved_horizontal b dt :
  vx (moved b dt) = vx (position b) + vx (moveVec b dt) /\
  vz (moved b dt) = vz (position b) + vz (moveVec b dt).
Proof. done. Qed.

End Kill.

(** X12: the kill plane.  A step whose new position, after the movement
    and the integration of the vertical velocity, is below [y = -10] ends
    with the camera at the spawn point [(0, 30, 0)], the velocity zero
    and [onGround] cleared: no block is found under a body that low, so
    the ground test cannot interfere. *)
Theorem X12_kill_plane_respawns (cs : ChunkMap) (dt : R) (b : Body) :
  (vy (moved b dt) < -10)%R ->
  position (updatePhysics cs dt b) = {| vx := 0; vy := 30; vz := 0 |} /\
  velocity (updatePhysics cs dt b) = {| vx := 0; vy := 0; vz := 0 |} /\
  onGround (updatePhysics cs dt b) = false.
Proof.
  intros Hlow. by rewrite updatePhysics_kill.
Qed.

(** X12 for a body put at [y = -11] over the flat chunk. *)
Lemma X12_kill_plane_respawns_witness :
  let b := {| position := {| vx := 8; vy := -11; vz := 8 |};
              rotation := {| ex := 0; ey := 0; ez := 0 |};
              velocity := zero3; onGround := false;
              moveInput_x := 0; moveInput_y := 0 |} in
  position (updatePhysics flat_chunks 0.016 b) = {| vx := 0; vy := 30; vz := 0 |} /\
  velocity (updatePhysics flat_chunks 0.016 b) = {| vx := 0; vy := 0; vz := 0 |} /\
  onGround (updatePhysics flat_chunks 0.016 b) = false.
Proof.
  intros b. apply (X12_kill_plane_respawns flat_chunks 0.016 b).
  rewrite moved_no_input by reflexivity. unfold b, GRAVITY, zero3.
  cbn [position velocity set_y vy]. lra.
Defined.

(** X13: no step of [updatePhysics] leaves the camera below the kill
    plane, whatever the world, the time step and the state of the body
    before the step. *)
Theorem X13_never_below_kill_plane (cs : ChunkMap) (dt : R) (b : Body) :
  (-10 <= vy (position (updatePhysics cs dt b)))%R.
Proof.
  destruct (Rlt_dec (vy (moved b dt)) (-10)%R) as [Hlow|Hhigh].
  - rewrite updatePhysics_kill by done. simpl. lra.
  - destruct (updatePhysics_ground_test cs dt b) as [Hground Hair].
    destruct (decide (block_below cs b dt = Some BLOCK.AIR)) as [Hb|Hb].
    + destruct (Hair Hb) as [_ Hstep]. rewrite Hstep by lra. cbn [position]. lra.
    + rewrite (Hground Hb). apply getBlock_solid_range in Hb as [Hly _].
      apply IZR_le in Hly. cbn [position set_y vy]. lra.
Qed.

(** X14: blocks only lift.  In a step that does not end below the kill
    plane, whatever blocks the world holds, the camera moves horizontally
    by exactly [moveVec]: no block stops or deflects it.  The ground
    test changes the height only, and only upwards: the camera ends
    above the height that the integration of the velocity gave, by at
    most one block, and at that very height when the step ends in the
    air. *)
Theorem X14_blocks_only_lift (cs : ChunkMap) (dt : R) (b : Body) :
  (-10 <= vy (moved b dt))%R ->
  let b' := updatePhysics cs dt b in
  vx (position b') = (vx (position b) + vx (moveVec b dt))%R /\
  vz (position b') = (vz (position b) + vz (moveVec b dt))%R /\
  (vy (moved b dt) <= vy (position b') <= vy (moved b dt) + 1)%R /\
  (onGround b' = false -> vy (position b') = vy (moved b dt)).
Proof.
  intros Hhigh b'. unfold b'.
  destruct (updatePhysics_ground_test cs dt b) as [Hground Hair].
  destruct (decide (block_below cs b dt = Some BLOCK.AIR)) as [Hb|Hb].
  - destruct (Hair Hb) as [_ Hstep]. rewrite (Hstep Hhigh). cbn [position onGround].
    destruct (moved_horizontal b dt) as [-> ->]. split_and!; [done|done|lra|lra|done].
  - rewrite (Hground Hb). cbn [position onGround set_y vx vy vz].
    destruct (moved_horizontal b dt) as [-> ->].
    pose proof (Zfloor_bound (vy (moved b dt) - 1.6)) as [H1 H2].
    split_and!; [done|done|lra|lra|done].
Qed.

(** X14 for the first step of the body at height 30 over the flat
    chunk. *)
Lemma X14_blocks_only_lift_witness :
  let b' := updatePhysics flat_chunks 0.016 body_at_30 in
  vx (position b') = (8 + vx (moveVec body_at_30 0.016))%R /\
  vz (position b') = (8 + vz (moveVec body_at_30 0.016))%R /\
  (vy (moved body_at_30 0.016) <= vy (position b')
   <= vy (moved body_at_30 0.016) + 1)%R /\
  (onGround b' = false -> vy (position b') = vy (moved body_at_30 0.016)).
Proof.
  apply (X14_blocks_only_lift flat_chunks 0.016 body_at_30).
  rewrite moved_no_input by reflexivity. unfold body_at_30, GRAVITY, zero3.
  cbn [position velocity set_y vy]. lra.
Defined.

(** X15: standing is stable.  A body without stick input that stands
    still with its eyes 1.6 above the top of a block, the block that the
    ground test finds at height [h] under the position by its chunk and
    local coordinates, is left where it is by a step of between one
    millisecond and a tenth of a second, with [onGround] set: gravity
    pulls the feet into the block, by less than a block, and the ground
    test puts them back on top of it. *)
Theorem X15_standing_is_stable (cs : ChunkMap) (dt : R) (b : Body) (h : Z) :
  (0.001 <= dt <= 0.1)%R ->
  moveInput_x b = 0%R -> moveInput_y b = 0%R ->
  vy (velocity b) = 0%R -> vy (position b) = (IZR h + 1 + 1.6)%R ->
  let chX := Zfloor (vx (position b) / 16) in
  let chZ := Zfloor (vz (position b) / 16) in
  let lx := Zfloor (vx (position b) - IZR chX * 16) in
  let lz := Zfloor (vz (position b) - IZR chZ * 16) in
  getBlock cs (Num chX) (Num chZ) lx h lz <> Some BLOCK.AIR ->
  position (updatePhysics cs dt b) = position b /\
  velocity (updatePhysics cs dt b) = velocity b /\
  onGround (updatePhysics cs dt b) = true.
Proof.
  intros Hdt Hix Hiy Hv Hy chX chZ lx lz Hblock.
  destruct (updatePhysics_ground_test cs dt b) as [Hground _].
  pose proof (moved_no_input b dt Hix Hiy) as Hm.
  assert (Zfloor (vy (moved b dt) - 1.6) = h) as Hly.
  { rewrite Hm. cbn [set_y vy]. rewrite Hv, Hy. unfold GRAVITY.
    apply Zfloor_eq. nra. }
  rewrite Hground.
  - rewrite Hly, Hm. cbn [position velocity onGround]. split_and!; [|  |done].
    + destruct (position b) as [px py pz]. unfold set_y. cbn [vx vy vz] in *.
      by rewrite Hy.
    + destruct (velocity b) as [ux uy uz]. unfold set_y. cbn [vx vy vz] in *.
      by rewrite Hv.
  - unfold block_below. rewrite Hly, Hm. cbn [set_y vx vz]. exact Hblock.
Qed.

(** X15 for the body at rest on the flat chunk. *)
Lemma X15_standing_is_stable_witness :
  position (updatePhysics flat_chunks 0.016 (landed body_at_30))
  = position (landed body_at_30) /\
  velocity (updatePhysics flat_chunks 0.016 (landed body_at_30))
  = velocity (landed body_at_30) /\
  onGround (updatePhysics flat_chunks 0.016 (landed body_at_30)) = true.
Proof.
  assert (Zfloor (8 / 16) = 0) as Hc by (apply Zfloor_eq; simpl; lra).
  assert (Zfloor (8 - IZR 0 * 16) = 8) as Hl by (apply Zfloor_eq; simpl; lra).
  pose proof (X15_standing_is_stable flat_chunks 0.016 (landed body_at_30) 5) as H.
  cbn [landed body_at_30 position set_y vx vz] in H. cbv zeta in H.
  rewrite Hc, Hl in H. apply H.
  - lra.
  - reflexivity.
  - reflexivity.
  - reflexivity.
  - reflexivity.
  - rewrite getBlock_flat by lia. done.
Defined.

Section Speed.
Local Open Scope R_scope.

(** A vector that is not zero is normalized to length one. *)
Lemma normalize_unit (u : Vector3) :
  length3 u <> 0 ->
  vx (normalize u) * vx (normalize u) + vy (normalize u) * vy (normalize u)
  + vz (normalize u) * vz (normalize u) = 1.
Proof.
  intros Hl. unfold normalize. destruct (Req_dec_T (length3 u) 0) as [|_]; [done|].
  cbn [vx vy vz]. unfold length3 in *. destruct u as [x y z]. cbn [vx vy vz] in *.
  set (q := x * x + y * y + z * z) in *.
  assert (0 <= q) as Hq by (unfold q; nra).
  pose proof (sqrt_sqrt q Hq) as Hll. set (l := sqrt q) in *.
  replace (x / l * (x / l) + y / l * (y / l) + z / l * (z / l))
    with (q / (l * l)) by (unfold q; field; done).
  rewrite Hll. field. intros H0. rewrite H0 in Hll. apply Hl. nra.
Qed.

End Speed.

(** X16: the pitch does not change the walking speed.  With the stick
    pushed straight forward to its limit and the camera turned by
    [(pitch, yaw, 0)], a step moves the camera horizontally by exactly
    [SPEED * dt], whatever the pitch, as long as the look direction has
    a horizontal part; the movement has no vertical part. *)
Theorem X16_forward_speed (b : Body) (pitch yaw dt : R) :
  rotation b = {| ex := pitch; ey := yaw; ez := 0 |} ->
  (sin yaw <> 0 \/ cos pitch * cos yaw <> 0)%R ->
  moveInput_x b = 0%R -> moveInput_y b = (-1)%R ->
  (vx (moveVec b dt) * vx (moveVec b dt) + vz (moveVec b dt) * vz (moveVec b dt)
   = (SPEED * dt) * (SPEED * dt))%R /\
  vy (moveVec b dt) = 0%R.
Proof.
  intros Hrot Hdir Hix Hiy.
  set (v := set_y (applyQuaternion {| vx := 0; vy := 0; vz := -1 |} (quaternion b)) 0).
  assert (v = {| vx := (- sin yaw)%R; vy := 0%R; vz := (- (cos pitch * cos yaw))%R |})
    as Hv.
  { unfold v, quaternion. rewrite Hrot, forward_rotated. done. }
  assert (length3 v <> 0%R) as Hl.
  { rewrite Hv. unfold length3. cbn [vx vy vz]. intros H0.
    apply sqrt_eq_0 in H0; [|nra]. destruct Hdir; nra. }
  pose proof (normalize_unit v Hl) as Hunit.
  assert (vy (normalize v) = 0%R) as Hy0.
  { unfold normalize. cbn [vy]. unfold v at 1. cbn [set_y vy]. unfold Rdiv. ring. }
  rewrite Hy0 in Hunit.
  unfold moveVec, addScaledVector. cbn [vx vy vz]. rewrite Hix, Hiy.
  fold v. change (forward_axis b) with (normalize v). rewrite Hy0.
  set (fx := vx (normalize v)) in *. set (fz := vz (normalize v)) in *.
  split; [|ring].
  replace ((0 + fx * (- -1 * SPEED * dt) + vx (right_axis b) * (0 * SPEED * dt))
           * (0 + fx * (- -1 * SPEED * dt) + vx (right_axis b) * (0 * SPEED * dt))
           + (0 + fz * (- -1 * SPEED * dt) + vz (right_axis b) * (0 * SPEED * dt))
             * (0 + fz * (- -1 * SPEED * dt) + vz (right_axis b) * (0 * SPEED * dt)))%R
    with ((fx * fx + 0 * 0 + fz * fz) * (SPEED * dt * (SPEED * dt)))%R by ring.
  rewrite Hunit. ring.
Qed.

(** X16 for the camera of C4, pitched up by 60 degrees. *)
Lemma X16_forward_speed_witness :
  let b := looking (PI / 3) (PI / 4) 1 0 in
  (vx (moveVec b 0.016) * vx (moveVec b 0.016)
   + vz (moveVec b 0.016) * vz (moveVec b 0.016)
   = (SPEED * 0.016) * (SPEED * 0.016))%R /\
  vy (moveVec b 0.016) = 0%R.
Proof.
  intros b. apply (X16_forward_speed b (PI / 3) (PI / 4) 0.016).
  - reflexivity.
  - left. destruct sin_cos_PI4 as [Hs Hc]. rewrite Hs. exact Hc.
  - reflexivity.
  - unfold b, looking. cbn [moveInput_y]. lra.
Defined.

Section Jump.
Local Open Scope R_scope.

Variable cs : ChunkMap.
Variable b : Body.

Hypothesis still_x : moveInput_x b = 0.
Hypothesis still_y : moveInput_y b = 0.

Let chX := Zfloor (vx (position b) / 16).
Let chZ := Zfloor (vz (position b) / 16).
Let lx := Zfloor (vx (position b) - IZR chX * 16).
Let lz := Zfloor (vz (position b) - IZR chZ * 16).

Hypothesis surface : getBlock cs (Num chX) (Num chZ) lx 5 lz = Some BLOCK.GRASS.
Hypothesis above :
  forall ly, (6 <= ly)%Z -> getBlock cs (Num chX) (Num chZ) lx ly lz = Some BLOCK.AIR.

Lemma jump_landed : jump (landed b) = 
  {| position := position (landed b); rotation := rotation b;
     velocity := set_y (velocity b) JUMP_FORCE; onGround := true;
     moveInput_x := moveInput_x b; moveInput_y := moveInput_y b |}.
Proof. unfold jump, landed, set_y. simpl. done. Qed.

Lemma jump_first_step :
  updatePhysics cs 0.016 (jump (landed b)) = updatePhysics cs 0.016 (jumping b 0).
Proof.
  rewrite jump_landed. apply updatePhysics_onGround; try done.
  - unfold jumping, landed, set_y. simpl. f_equal. lra.
  - unfold jumping, set_y, JUMP_FORCE. simpl. f_equal. lra.
Qed.

Lemma jump_step (k : nat) :
  (k < 39)%nat -> updatePhysics cs 0.016 (jumping b k) = jumping b (S k).
Proof.
  intros Hk.
  assert (0 <= INR k <= 38) as HK.
  { split; [apply pos_INR|]. assert (k <= 38)%nat as Hk' by lia.
    apply le_INR in Hk'.
    replace (INR 38) with 38 in Hk' by (rewrite INR_IZR_INZ; reflexivity). lra. }
  destruct (updatePhysics_ground_test cs 0.016 (jumping b k)) as [_ Hair].
  assert (moved (jumping b k) 0.016
          = set_y (position b)
              (5 + 1 + 1.6 + 0.128 * INR (S k) - 0.0032 * INR (S k) * (INR (S k) + 1)))
    as Hm.
  { rewrite (moved_no_input (jumping b k) _ still_x still_y). rewrite S_INR.
    unfold jumping, set_y, GRAVITY. cbn [position velocity vx vy vz]. f_equal. lra. }
  destruct Hair as [_ Hstep].
  - rewrite (block_below_column cs b (jumping b k)
               (5 + 1 + 1.6 + 0.128 * INR k - 0.0032 * INR k * (INR k + 1))
               still_x still_y eq_refl).
    apply above. apply Zfloor_lub. cbn [jumping velocity set_y vy].
    unfold GRAVITY. change (IZR 6) with 6. nra.
  - rewrite Hstep.
    + rewrite Hm. unfold jumping, set_y, GRAVITY. cbn [velocity vx vy vz].
      rewrite !S_INR. f_equal. f_equal. lra.
    + rewrite Hm. cbn [set_y vy]. rewrite S_INR. nra.
Qed.

Lemma jump_land_step : updatePhysics cs 0.016 (jumping b 39) = landed b.
Proof.
  assert (INR 39 = 39) as H39 by (rewrite INR_IZR_INZ; reflexivity).
  destruct (updatePhysics_ground_test cs 0.016 (jumping b 39)) as [Hground _].
  assert (Zfloor (5 + 1 + 1.6 + 0.128 * INR 39 - 0.0032 * INR 39 * (INR 39 + 1)
                  + (vy (velocity (jumping b 39)) - GRAVITY * 0.016) * 0.016 - 1.6)
          = 5%Z) as Hly.
  { cbn [jumping velocity set_y vy]. rewrite H39. unfold GRAVITY.
    apply Zfloor_eq. simpl. lra. }
  rewrite Hground.
  - rewrite (moved_no_input (jumping b 39) _ still_x still_y).
    cbn [jumping position set_y vy].
    rewrite Hly. reflexivity.
  - rewrite (block_below_column cs b (jumping b 39)
               (5 + 1 + 1.6 + 0.128 * INR 39 - 0.0032 * INR 39 * (INR 39 + 1))
               still_x still_y eq_refl).
    rewrite Hly. change (getBlock cs (Num chX) (Num chZ) lx 5 lz <> Some BLOCK.AIR).
    rewrite surface. done.
Qed.

Lemma jump_iter (k : nat) :
  (k < 39)%nat ->
  Nat.iter (S k) (updatePhysics cs 0.016) (jump (landed b)) = jumping b (S k).
Proof.
  induction k as [|k IH]; intros Hk.
  - simpl Nat.iter. rewrite jump_first_step. apply jump_step. lia.
  - rewrite Nat.iter_succ, IH by lia. apply jump_step. lia.
Qed.

Lemma jump_rest_iter (m : nat) :
  (40 <= m)%nat -> Nat.iter m (updatePhysics cs 0.016) (jump (landed b)) = landed b.
Proof.
  intros Hm. replace m with ((m - 40) + S (S 38))%nat by lia.
  induction (m - 40)%nat as [|j IH].
  - rewrite Nat.add_0_l, Nat.iter_succ, jump_iter by lia. apply jump_land_step.
  - rewrite Nat.add_succ_l, Nat.iter_succ, IH.
    apply (rest_step cs b still_x still_y surface).
Qed.

(** The height of the jump: the eyes rise above their resting height
    and by no more than 1.216. *)
Lemma jumping_height (k : nat) :
  (1 <= k <= 38)%nat ->
  5 + 1 + 1.6 < vy (position (jumping b k)) <= 5 + 1 + 1.6 + 1.216.
Proof.
  intros Hk. cbn [jumping position set_y vy].
  assert (1 <= INR k <= 38) as HK.
  { destruct Hk as [H1 H2]. apply le_INR in H1, H2.
    replace (INR 38) with 38 in H2 by (rewrite INR_IZR_INZ; reflexivity).
    replace (INR 1) with 1 in H1 by (rewrite INR_IZR_INZ; reflexivity). lra. }
  split; [nra|].
  (* 0.128 k - 0.0032 k (k + 1) <= 1.216 for integers: it is
     1.216 - 0.0032 (k - 19) (k - 20) *)
  assert (0 <= (INR k - 19) * (INR k - 20)) as Hint.
  { destruct (le_lt_dec k 19) as [Hle|Hgt].
    - apply le_INR in Hle.
      replace (INR 19) with 19 in Hle by (rewrite INR_IZR_INZ; reflexivity). nra.
    - assert (20 <= k)%nat as Hge by lia. apply le_INR in Hge.
      replace (INR 20) with 20 in Hge by (rewrite INR_IZR_INZ; reflexivity). nra. }
  nra.
Qed.

End Jump.

(** X17: a jump.  The jump button sets the vertical velocity to
    [JUMP_FORCE] only when [onGround] is set.  For a body at rest on a
    surface at height 5 with Air above and no stick input, the steps of
    [dt = 0.016] after a jump leave the ground at once; during the steps
    1 to 38 the body is in the air, where the button has no effect, its
    eyes above their resting height by at most 1.216, which they reach
    at step 19; from step 40 on the body is at rest again where it
    stood. *)
Theorem X17_jump_returns_to_rest (cs : ChunkMap) (b : Body) :
  let chX := Zfloor (vx (position b) / 16) in
  let chZ := Zfloor (vz (position b) / 16) in
  let lx := Zfloor (vx (position b) - IZR chX * 16) in
  let lz := Zfloor (vz (position b) - IZR chZ * 16) in
  moveInput_x b = 0%R -> moveInput_y b = 0%R ->
  getBlock cs (Num chX) (Num chZ) lx 5 lz = Some BLOCK.GRASS ->
  (forall ly, 6 <= ly ->
     getBlock cs (Num chX) (Num chZ) lx ly lz = Some BLOCK.AIR) ->
  vy (velocity (jump (landed b))) = JUMP_FORCE /\
  (forall k : nat, (1 <= k <= 38)%nat ->
     let bk := Nat.iter k (updatePhysics cs 0.016) (jump (landed b)) in
     onGround bk = false /\ jump bk = bk /\
     (5 + 1 + 1.6 < vy (position bk) <= 5 + 1 + 1.6 + 1.216)%R) /\
  vy (position (Nat.iter 19 (updatePhysics cs 0.016) (jump (landed b))))
  = (5 + 1 + 1.6 + 1.216)%R /\
  (forall m : nat, (40 <= m)%nat ->
     Nat.iter m (updatePhysics cs 0.016) (jump (landed b)) = landed b).
Proof.
  intros chX chZ lx lz Hix Hiy Hsurf Habove. split; [done|]. split; [|split].
  - intros k Hk bk. unfold bk.
    destruct k as [|k]; [lia|].
    rewrite (jump_iter cs b Hix Hiy Habove) by lia.
    split; [done|]. split; [done|]. by apply jumping_height.
  - rewrite (jump_iter cs b Hix Hiy Habove) by lia.
    cbn [jumping position set_y vy].
    replace (INR 19) with 19%R by (rewrite INR_IZR_INZ; reflexivity). lra.
  - intros m Hm. by apply jump_rest_iter.
Qed.

(** X17 for a body over the flat chunk: in the air after 19 steps, at
    rest after 40. *)
Lemma X17_jump_returns_to_rest_witness :
  onGround (Nat.iter 19 (updatePhysics flat_chunks 0.016) (jump (landed body_at_30)))
  = false /\
  Nat.iter 40 (updatePhysics flat_chunks 0.016) (jump (landed body_at_30))
  = landed body_at_30.
Proof.
  assert (Zfloor (8 / 16) = 0) as Hch by (apply Zfloor_eq; simpl; lra).
  assert (Zfloor (8 - IZR 0 * 16) = 8) as Hl by (apply Zfloor_eq; simpl; lra).
  pose proof (X17_jump_returns_to_rest flat_chunks body_at_30) as H.
  cbv zeta in H. cbn [body_at_30 position vx vy vz] in H.
  rewrite Hch, Hl in H.
  destruct H as (_ & Hair & _ & Hrest).
  - reflexivity.
  - reflexivity.
  - rewrite getBlock_flat by lia. reflexivity.
  - intros ly Hly. rewrite getBlock_flat by lia.
    destruct (decide (0 <= ly < 24)); [|done].
    unfold column_block. repeat destruct (decide _); try done; lia.
  - split.
    + destruct (Hair 19%nat ltac:(lia)) as [Hg _]. exact Hg.
    + apply Hrest. lia.
Defined.

(** ** Breaking and placing blocks *)

Section Raycast.
Local Open Scope R_scope.

(** The normal [(0, 0, 1)] of a plane turned by the Euler angles
    [(rx, ry, 0)]. *)
Lemma plane_rotated rx ry :
  applyQuaternion {| vx := 0; vy := 0; vz := 1 |}
    (setFromEuler {| ex := rx; ey := ry; ez := 0 |})
  = {| vx := sin ry; vy := - (sin rx * cos ry); vz := cos rx * cos ry |}.
Proof.
  unfold applyQuaternion, setFromEuler. cbn [qx qy qz qw vx vy vz ex ey ez].
  replace (0 / 2) with 0 by lra. rewrite sin_0, cos_0.
  rewrite (sin_half ry), (cos_half ry), (sin_half rx), (cos_half rx).
  pose proof (sin_cos_one (rx / 2)) as H1.
  set (s1 := sin (rx / 2)) in *. set (c1 := cos (rx / 2)) in *.
  set (s2 := sin (ry / 2)) in *. set (c2 := cos (ry / 2)) in *.
  f_equal; [|ring..].
  replace (2 * s2 * c2) with (2 * s2 * c2 * (s1 * s1 + c1 * c1))
    by (rewrite H1; ring).
  ring.
Qed.

(** The normal of every quad is the offset of its face. *)
Lemma quad_normal_offset (n : Z * Z * Z * faceName) :
  n ∈ neighbours ->
  quad_normal n.1.1.1 n.1.1.2 n.1.2
  = {| vx := IZR n.1.1.1; vy := IZR n.1.1.2; vz := IZR n.1.2 |}.
Proof.
  intros Hn. apply list_elem_of_In in Hn. simpl in Hn.
  assert (- PI / 2 = - (PI / 2)) as Hneg by lra.
  unfold quad_normal.
  destruct Hn as [<-|[<-|[<-|[<-|[<-|[<-|[]]]]]]];
    cbn [fst snd face_angles Z.eqb Pos.eqb]; rewrite plane_rotated;
    rewrite ?Hneg, ?sin_neg, ?cos_neg, ?sin_PI2, ?cos_PI2, ?sin_PI, ?cos_PI, ?sin_0, ?cos_0;
    f_equal; lra.
Qed.

(** The cell, along one axis, of the point that lies 0.1 behind or
    before a point of a face: [o] is the component of the face's offset
    and [u] the distance of the point from the middle of the face. *)
Lemma hit_target (X o : Z) (u : R) :
  (-1 <= o <= 1)%Z -> 0 <= u < 0.5 -> IZR o * u = 0 ->
  Zfloor (IZR X + IZR o * 0.5 + u + - IZR o * 0.1) = (X + Z.min o 0)%Z /\
  Zfloor (IZR X + IZR o * 0.5 + u + IZR o * 0.1) = (X + Z.min o 0)%Z.
Proof.
  intros Ho Hu Hou.
  assert (o = -1 \/ o = 0 \/ o = 1)%Z as Hcases by lia.
  destruct Hcases as [-> | [-> | ->]]; split; apply Zfloor_eq;
    rewrite plus_IZR; cbv [Z.min Z.compare]; simpl in *; lra.
Qed.

End Raycast.

Lemma neighbours_range (n : Z * Z * Z * faceName) :
  n ∈ neighbours -> -1 <= n.1.1.1 <= 1 /\ -1 <= n.1.1.2 <= 1 /\ -1 <= n.1.2 <= 1.
Proof.
  intros Hn. apply list_elem_of_In in Hn. simpl in Hn.
  destruct Hn as [<-|[<-|[<-|[<-|[<-|[<-|[]]]]]]]; simpl; lia.
Qed.

(** What [doRaycastAction] does with the nearest intersection. *)
Lemma doRaycastAction_break w cam sel hit rest :
  doRaycastAction w cam sel (hit :: rest) Break
  = setBlock w (vx (point hit) + - vx (face_normal hit) * 0.1)
      (vy (point hit) + - vy (face_normal hit) * 0.1)
      (vz (point hit) + - vz (face_normal hit) * 0.1) BLOCK.AIR.
Proof. done. Qed.

Lemma doRaycastAction_place w cam sel hit rest :
  let tx := (vx (point hit) + vx (face_normal hit) * 0.1)%R in
  let ty := (vy (point hit) + vy (face_normal hit) * 0.1)%R in
  let tz := (vz (point hit) + vz (face_normal hit) * 0.1)%R in
  doRaycastAction w cam sel (hit :: rest) Place
  = if decide ((Zfloor tx, Zfloor tz) = (Zfloor (vx cam), Zfloor (vz cam)) /\
               (Zfloor ty = Zfloor (vy cam - 1.5) \/ Zfloor ty = Zfloor (vy cam)))
    then Returned w
    else setBlock w tx ty tz sel.
Proof.
  intros tx ty tz. unfold doRaycastAction. fold tx ty tz.
  destruct (decide _) as [[[= -> ->] Hy]|Hn].
  - rewrite !Z.eqb_refl. simpl.
    by replace ((Zfloor ty =? Zfloor (vy cam - 1.5)) || (Zfloor ty =? Zfloor (vy cam)))
      with true by lia.
  - destruct (_ && _) eqn:E; [|done]. exfalso. apply Hn.
    split; [f_equal; lia|lia].
Qed.

(** X18: the quad that [addFace] makes for each of the six neighbour
    tests of [buildChunkMesh] faces outwards: the plane normal
    [(0, 0, 1)], turned by the Euler angles of the call, is the offset
    [(ox, oy, oz)] of the call. *)
Theorem X18_quad_normal_is_offset :
  Forall (fun n : Z * Z * Z * faceName =>
            quad_normal n.1.1.1 n.1.1.2 n.1.2
            = {| vx := IZR n.1.1.1; vy := IZR n.1.1.2; vz := IZR n.1.2 |})
         neighbours.
Proof.
  apply Forall_forall. intros n Hn. by apply quad_normal_offset.
Qed.

(** X19: a placement does not write the cells of the player.  Take the
    target [(tx, ty, tz)] of a placement and the chunk and local
    coordinates [cx], [lx], [cz], [lz] that [setBlock] computes from it.
    When these name the cell that holds the target, that is
    [floor(tx) = cx * 16 + lx] with [lx] from 0 to 15 and likewise for
    [tz], then after [doRaycastAction('place')] the world cells of the
    player's feet, [floor(camera.y - 1.5)], and head, [floor(camera.y)],
    in the column of the camera, hold what they held before. *)
Theorem X19_place_spares_player_cells
    (w : World) (camera_position : Vector3) (selectedBlock : Z)
    (hit : Intersection) (rest : list Intersection) :
  let tx := (vx (point hit) + vx (face_normal hit) * 0.1)%R in
  let tz := (vz (point hit) + vz (face_normal hit) * 0.1)%R in
  let cx := Zfloor (tx / 16) in
  let cz := Zfloor (tz / 16) in
  let lx := Zfloor (tx - IZR cx * 16) in
  let lz := Zfloor (tz - IZR cz * 16) in
  let w' := outcome_world
              (doRaycastAction w camera_position selectedBlock (hit :: rest)
                 Place) in
  let px := Zfloor (vx camera_position) in
  let pz := Zfloor (vz camera_position) in
  let py := Zfloor (vy camera_position - 1.5) in
  let pHead := Zfloor (vy camera_position) in
  Zfloor tx = cx * 16 + lx -> 0 <= lx < 16 ->
  Zfloor tz = cz * 16 + lz -> 0 <= lz < 16 ->
  block_at (chunks w') px py pz = block_at (chunks w) px py pz /\
  block_at (chunks w') px pHead pz = block_at (chunks w) px pHead pz.
Proof.
  intros tx tz cx cz lx lz w' px pz py pHead Hx Hlx Hz Hlz.
  assert (forall Y, Y = py \/ Y = pHead ->
            block_at (chunks w') px Y pz = block_at (chunks w) px Y pz) as Hcell.
  { intros Y HY. unfold w'. rewrite doRaycastAction_place. cbv zeta.
    fold tx tz px pz py pHead.
    set (ty := (vy (point hit) + vy (face_normal hit) * 0.1)%R).
    destruct (decide _) as [|Hn]; [done|].
    rewrite setBlock_cell_eq. fold cx cz lx lz. unfold block_at.
    apply setBlock_cell_getBlock_other.
    destruct (decide ((px / 16, pz / 16) = (cx, cz))) as [[= Hcx Hcz]|]; [|by left].
    right.
    destruct (decide (in_chunk (px mod 16) Y (pz mod 16))) as [Hin|]; [|by left].
    right. intros Hidx. apply Hn.
    pose proof (Z.div_mod px 16 ltac:(lia)) as Hpx.
    pose proof (Z.div_mod pz 16 ltac:(lia)) as Hpz.
    revert Hidx Hin. unfold cell_index, in_chunk, CHUNK_SIZE, CHUNK_HEIGHT.
    intros Hidx (Hmx & HmY & Hmz).
    assert (px mod 16 = lx /\ Y = Zfloor ty /\ pz mod 16 = lz) as (Ex & Ey & Ez) by lia.
    split; [f_equal; lia|]. rewrite <- Ey. done. }
  split; apply Hcell; [by left|by right].
Qed.

(** X19 for a placement onto the top of the block under the feet of a
    player who stands on the flat chunk: nothing is written. *)
Lemma X19_place_spares_player_cells_witness :
  let cam := {| vx := 8.5; vy := 7.6; vz := 8.5 |} in
  let hit := {| point := {| vx := 8.5; vy := 6; vz := 8.5 |};
                face_normal := {| vx := 0; vy := 1; vz := 0 |} |} in
  let w := {| chunks := flat_chunks; scene := []; meshes_made := 0 |} in
  let w' := outcome_world (doRaycastAction w cam BLOCK.STONE [hit] Place) in
  block_at (chunks w') 8 6 8 = block_at (chunks w) 8 6 8 /\
  block_at (chunks w') 8 7 8 = block_at (chunks w) 8 7 8.
Proof.
  intros cam hit w w'.
  assert (Zfloor 8.5 = 8) as H8 by (apply Zfloor_eq; simpl; lra).
  assert (Zfloor (7.6 - 1.5) = 6) as H6 by (apply Zfloor_eq; simpl; lra).
  assert (Zfloor 7.6 = 7) as H7 by (apply Zfloor_eq; simpl; lra).
  assert (Zfloor ((8.5 + 0 * 0.1) / 16) = 0) as Hc by (apply Zfloor_eq; simpl; lra).
  assert (Zfloor (8.5 + 0 * 0.1 - IZR 0 * 16) = 8) as Hl by (apply Zfloor_eq; simpl; lra).
  assert (Zfloor (8.5 + 0 * 0.1) = 8) as Ht by (apply Zfloor_eq; simpl; lra).
  pose proof (X19_place_spares_player_cells w cam BLOCK.STONE hit []) as H.
  cbv zeta in H. cbn [cam hit point face_normal vx vy vz] in H.
  rewrite H8, H6, H7, Hc, Hl, Ht in H.
  apply H; lia.
Defined.

(** X20: the cell that a hit on a face edits.  Take the quad that the
    mesher makes for the face of the cell at world position [(X, Y, Z)]
    towards one of the six offsets, and a hit with the quad's normal at a
    point of the quad that lies, along the two axes of the face, between
    the middle of the quad and 0.5 further.  Breaking and placing then
    both act on the same world cell: the cell [(X, Y, Z)] itself for the
    faces right, top and front, and for the faces left, bottom and back
    the cell next to it that the face looks into.  No other cell of the
    world changes, and a break writes Air into that cell when its chunk
    is in the map with a complete block array and the height is in
    range. *)
Theorem X20_hit_edits_one_cell
    (w : World) (camera_position : Vector3) (selectedBlock : Z)
    (X Y Zc : Z) (n : Z * Z * Z * faceName) (u : Vector3) (a : action) :
  n ∈ neighbours ->
  (0 <= vx u < 0.5)%R -> (0 <= vy u < 0.5)%R -> (0 <= vz u < 0.5)%R ->
  (IZR n.1.1.1 * vx u = 0)%R -> (IZR n.1.1.2 * vy u = 0)%R ->
  (IZR n.1.2 * vz u = 0)%R ->
  let hit := {| point := add3 (quad_centre X Y Zc n.1.1.1 n.1.1.2 n.1.2) u;
                face_normal := quad_normal n.1.1.1 n.1.1.2 n.1.2 |} in
  let w' := outcome_world
              (doRaycastAction w camera_position selectedBlock [hit] a) in
  let tX := X + Z.min n.1.1.1 0 in
  let tY := Y + Z.min n.1.1.2 0 in
  let tZ := Zc + Z.min n.1.2 0 in
  (forall X' Y' Z', (X', Y', Z') <> (tX, tY, tZ) ->
     block_at (chunks w') X' Y' Z' = block_at (chunks w) X' Y' Z') /\
  (a = Break ->
   forall c,
     chunks_get (chunks w) (getChunkKey (Num (tX / 16)) (Num (tZ / 16))) = Some c ->
     Z.of_nat (length (data c)) = 6144 -> 0 <= tY < CHUNK_HEIGHT ->
     block_at (chunks w') tX tY tZ = Some BLOCK.AIR).
Proof.
  intros Hn Hux Huy Huz Hox Hoy Hoz hit w' tX tY tZ.
  destruct (neighbours_range n Hn) as (Hrx & Hry & Hrz).
  destruct (hit_target X _ _ Hrx Hux Hox) as [HbX HpX].
  destruct (hit_target Y _ _ Hry Huy Hoy) as [HbY HpY].
  destruct (hit_target Zc _ _ Hrz Huz Hoz) as [HbZ HpZ].
  fold tX in HbX, HpX. fold tY in HbY, HpY. fold tZ in HbZ, HpZ.
  unfold w', hit. destruct a.
  - rewrite doRaycastAction_break. cbn [point face_normal].
    rewrite (quad_normal_offset n Hn). cbn [add3 quad_centre vx vy vz].
    split.
    + intros X' Y' Z' Hne. apply setBlock_block_at_other.
      by rewrite HbX, HbY, HbZ.
    + intros _ c Hc Hlen HY. rewrite <- HbX, <- HbY, <- HbZ.
      change (Some BLOCK.AIR) with (Some (BLOCK.AIR mod 256)).
      apply (setBlock_block_at_same _ _ _ _ _ c); by rewrite ?HbX, ?HbY, ?HbZ.
  - rewrite doRaycastAction_place. cbn [point face_normal].
    rewrite (quad_normal_offset n Hn). cbn [add3 quad_centre vx vy vz].
    split; [|done]. intros X' Y' Z' Hne.
    destruct (decide _); [done|]. apply setBlock_block_at_other.
    by rewrite HpX, HpY, HpZ.
Qed.

(** X20 for a break through the middle of the left face of the Stone
    block at [(0, 0, 0)]: the block is still there. *)
Lemma X20_hit_edits_one_cell_witness :
  let c := {| data := filled BLOCK.STONE; mesh := None |} in
  let w := {| chunks := [(getChunkKey (Num 0) (Num 0), c)];
              scene := []; meshes_made := 0 |} in
  let hit := {| point := add3 (quad_centre 0 0 0 (-1) 0 0) zero3;
                face_normal := quad_normal (-1) 0 0 |} in
  block_at (chunks (outcome_world
                      (doRaycastAction w {| vx := -5; vy := 2; vz := 0 |}
                         BLOCK.GRASS [hit] Break))) 0 0 0
  = Some BLOCK.STONE.
Proof.
  intros c w hit.
  destruct (X20_hit_edits_one_cell w {| vx := -5; vy := 2; vz := 0 |} BLOCK.GRASS
              0 0 0 (-1, 0, 0, side) zero3 Break) as [Hother _].
  - in_neighbours.
  - simpl. lra.
  - simpl. lra.
  - simpl. lra.
  - simpl. lra.
  - simpl. lra.
  - simpl. lra.
  - cbn [fst snd] in Hother. unfold hit. rewrite Hother by done.
    unfold block_at. change (0 / 16) with 0. change (0 mod 16) with 0.
    rewrite (getBlock_loaded _ _ _ c) by reflexivity.
    rewrite local_block_inside by (unfold in_chunk, CHUNK_SIZE, CHUNK_HEIGHT; lia).
    apply data_get_filled. unfold in_chunk, CHUNK_SIZE, CHUNK_HEIGHT. lia.
Defined.

(** What [doRaycastAction64] does: nothing, or [setBlock_cell] with Air
    or with the selected block. *)
Lemma setBlock64_cell w wx wy wz id o :
  Binary64.setBlock64 w wx wy wz id = Some o ->
  exists cx cz lx ly lz, o = setBlock_cell w cx cz lx ly lz id.
Proof.
  unfold Binary64.setBlock64.
  destruct (Binary64.to_int _) as [cx|]; [|done].
  destruct (Binary64.to_int _) as [cz|]; [|done].
  destruct (Binary64.to_int _) as [lx|]; [|done].
  destruct (Binary64.to_int _) as [ly|]; [|done].
  destruct (Binary64.to_int _) as [lz|]; [|done].
  intros [= <-]. by exists cx, cz, lx, ly, lz.
Qed.

Lemma doRaycastAction64_cell w cam sel hits a o :
  Binary64.doRaycastAction64 w cam sel hits a = Some o ->
  o = Returned w \/
  exists cx cz lx ly lz id,
    (id = BLOCK.AIR \/ id = sel) /\ o = setBlock_cell w cx cz lx ly lz id.
Proof.
  unfold Binary64.doRaycastAction64. destruct hits as [|hit rest].
  { intros [= <-]. by left. }
  destruct a.
  - intros (cx & cz & lx & ly & lz & ->)%setBlock64_cell. right.
    exists cx, cz, lx, ly, lz, BLOCK.AIR. by split; [left|].
  - destruct (_ && _).
    + intros [= <-]. by left.
    + intros (cx & cz & lx & ly & lz & ->)%setBlock64_cell. right.
      exists cx, cz, lx, ly, lz, sel. by split; [right|].
Qed.

(** X27: on doubles, a placement can write the cell of the player's
    feet.  The camera stands in the world column [(-1, 0)] with the
    feet in the cell [(-1, 1, 0)]; the ray hits the face towards [-z] of
    the block at [(-1, 1, 1)] at a point whose [x] is the double next
    below [-1].  The guard of [doRaycastAction] floors the target to the
    cell [(-2, 1, 0)], which is not a cell of the player, and lets the
    placement through; [setBlock] then computes the chunk [-1] and, the
    sum [tx + 16] being rounded to the double [15], the local
    coordinate 15, and writes the selected block into the world cell
    [(-1, 1, 0)], that of the feet. *)
Theorem X27_place_into_feet_cell (w : World) (c : Chunk) (selectedBlock : Z) :
  chunks_get (chunks w) (getChunkKey (Num (-1)) (Num 0)) = Some c ->
  Z.of_nat (length (data c)) = 6144 ->
  Binary64.feet64 Binary64.camera_beside = Some (-1, 1, 0) /\
  Binary64.place_cell64 Binary64.hit_below_minus_one = Some (-2, 1, 0) /\
  exists o,
    Binary64.doRaycastAction64 w Binary64.camera_beside selectedBlock
      [Binary64.hit_below_minus_one] Place = Some o /\
    block_at (chunks (outcome_world o)) (-1) 1 0 = Some (selectedBlock mod 256).
Proof.
  intros Hc Hlen.
  split; [vm_compute; reflexivity|]. split; [vm_compute; reflexivity|].
  unfold Binary64.doRaycastAction64, Binary64.camera_beside,
    Binary64.hit_below_minus_one.
  cbn [Binary64.point64 Binary64.face_normal64 Binary64.x64 Binary64.y64
       Binary64.z64].
  match goal with
  | |- context [if ?b then _ else _] =>
      replace b with false by (vm_compute; reflexivity)
  end.
  eexists. split.
  - apply (setBlock64_resolve _ _ _ _ _ (-1) 15 0 0 1); vm_compute; reflexivity.
  - unfold block_at. change (-1 / 16) with (-1). change (0 / 16) with 0.
    change (-1 mod 16) with 15. change (0 mod 16) with 0.
    apply (setBlock_cell_getBlock_same _ _ _ _ _ _ _ c); [done|done|].
    unfold in_chunk, CHUNK_SIZE, CHUNK_HEIGHT. lia.
Qed.

(** X27 in a world whose only chunk [(-1, 0)] is filled with Stone: the
    Grass that is placed ends in the cell of the feet. *)
Lemma X27_place_into_feet_cell_witness :
  let c := {| data := filled BLOCK.STONE; mesh := None |} in
  let w := {| chunks := [(getChunkKey (Num (-1)) (Num 0), c)];
              scene := []; meshes_made := 0 |} in
  exists o,
    Binary64.doRaycastAction64 w Binary64.camera_beside BLOCK.GRASS
      [Binary64.hit_below_minus_one] Place = Some o /\
    block_at (chunks (outcome_world o)) (-1) 1 0 = Some BLOCK.GRASS.
Proof.
  intros c w.
  destruct (X27_place_into_feet_cell w c BLOCK.GRASS) as (_ & _ & H).
  - reflexivity.
  - by destruct (filled_wf BLOCK.STONE).
  - exact H.
Defined.

(** ** Collision and the frame loop *)

(** [isSolid] reads the world cell. *)
Lemma isSolid_block_at cs x y z :
  isSolid cs x y z = if decide (block_at cs x y z = Some BLOCK.AIR) then false else true.
Proof.
  unfold isSolid, block_at. change (IZR CHUNK_SIZE) with 16%R.
  destruct (floor_chunk_of_int x) as [-> _]. destruct (floor_chunk_of_int z) as [-> _].
  replace (x - x / 16 * CHUNK_SIZE) with (x mod 16)
    by (unfold CHUNK_SIZE; rewrite Z.mod_eq by lia; lia).
  replace (z - z / 16 * CHUNK_SIZE) with (z mod 16)
    by (unfold CHUNK_SIZE; rewrite Z.mod_eq by lia; lia).
  done.
Qed.

(** X21: [resolveCollision] reads two world cells, and sees an edit.
    The test answers [true] exactly when the world cell of the feet,
    [floor(y - 1.5)], or of the head, [floor(y)], in the column of the
    position does not hold Air.  Let [cx], [cz], [lx], [ly], [lz] be the
    chunk and the local coordinates that [setBlock] computes from a
    position.  When they name the cell that holds the position, that is
    [floor(wx) = cx * 16 + lx], [floor(wz) = cz * 16 + lz] and the three
    local coordinates are those of a cell, then after [setBlock] has put
    a block other than Air at the position, in a chunk of the map,
    [resolveCollision] at that position answers [true]. *)
Theorem X21_resolveCollision_sees_edit
    (w : World) (wx wy wz : R) (id : Z) (c : Chunk) :
  let pos := {| vx := wx; vy := wy; vz := wz |} in
  let cx := Zfloor (wx / 16) in
  let cz := Zfloor (wz / 16) in
  let lx := Zfloor (wx - IZR cx * 16) in
  let lz := Zfloor (wz - IZR cz * 16) in
  let ly := Zfloor wy in
  let w' := outcome_world (setBlock w wx wy wz id) in
  chunks_get (chunks w) (getChunkKey (Num cx) (Num cz)) = Some c ->
  Z.of_nat (length (data c)) = 6144 -> in_chunk lx ly lz ->
  Zfloor wx = cx * 16 + lx -> Zfloor wz = cz * 16 + lz ->
  id mod 256 <> BLOCK.AIR ->
  (forall cs,
     resolveCollision cs pos = true <->
     block_at cs (Zfloor wx) (Zfloor (wy - 1.5)) (Zfloor wz) <> Some BLOCK.AIR \/
     block_at cs (Zfloor wx) (Zfloor wy) (Zfloor wz) <> Some BLOCK.AIR) /\
  resolveCollision (chunks w') pos = true.
Proof.
  intros pos cx cz lx lz ly w' Hc Hlen Hin Hx Hz Hid.
  assert (forall cs,
     resolveCollision cs pos = true <->
     block_at cs (Zfloor wx) (Zfloor (wy - 1.5)) (Zfloor wz) <> Some BLOCK.AIR \/
     block_at cs (Zfloor wx) (Zfloor wy) (Zfloor wz) <> Some BLOCK.AIR) as Hiff.
  { intros cs. unfold resolveCollision, pos. cbn [vx vy vz].
    rewrite !isSolid_block_at, orb_true_iff.
    destruct (decide (block_at cs _ (Zfloor (wy - 1.5)) _ = _));
      destruct (decide (block_at cs _ (Zfloor wy) _ = _)); split; try tauto;
      try (intros [?|?]; done). }
  split; [done|]. apply Hiff. right. unfold w', block_at.
  destruct Hin as (Hlx & Hly & Hlz). unfold CHUNK_SIZE in Hlx, Hlz.
  assert (Zfloor wx / 16 = cx /\ Zfloor wx mod 16 = lx) as [-> ->].
  { rewrite Hx. split.
    - rewrite Z.add_comm, Z.div_add by lia. rewrite Z.div_small by lia. lia.
    - rewrite Z.add_comm, Z.mod_add by lia. by apply Z.mod_small. }
  assert (Zfloor wz / 16 = cz /\ Zfloor wz mod 16 = lz) as [-> ->].
  { rewrite Hz. split.
    - rewrite Z.add_comm, Z.div_add by lia. rewrite Z.div_small by lia. lia.
    - rewrite Z.add_comm, Z.mod_add by lia. by apply Z.mod_small. }
  rewrite setBlock_cell_eq. fold cx cz lx lz ly.
  rewrite (setBlock_cell_getBlock_same _ _ _ _ _ _ _ c) by done. congruence.
Qed.

(** X21 for Sand put at [(0.5, 6.5, 0.5)] over the flat chunk. *)
Lemma X21_resolveCollision_sees_edit_witness :
  let w := {| chunks := flat_chunks; scene := []; meshes_made := 0 |} in
  resolveCollision (chunks (outcome_world (setBlock w 0.5 6.5 0.5 BLOCK.SAND)))
    {| vx := 0.5; vy := 6.5; vz := 0.5 |} = true.
Proof.
  intros w.
  assert (Zfloor 0.5 = 0) as H0 by (apply Zfloor_eq; simpl; lra).
  assert (Zfloor (0.5 / 16) = 0) as Hc by (apply Zfloor_eq; simpl; lra).
  assert (Zfloor (0.5 - IZR 0 * 16) = 0) as Hl by (apply Zfloor_eq; simpl; lra).
  assert (Zfloor 6.5 = 6) as H6 by (apply Zfloor_eq; simpl; lra).
  pose proof (X21_resolveCollision_sees_edit w 0.5 6.5 0.5 BLOCK.SAND
                {| data := flat_data; mesh := None |}) as H.
  cbv zeta in H. rewrite H0, Hc, Hl, H6 in H.
  apply H.
  - reflexivity.
  - apply flat_data_wf.
  - unfold in_chunk, CHUNK_SIZE, CHUNK_HEIGHT. lia.
  - lia.
  - lia.
  - done.
Defined.

Section Reach.
Local Open Scope R_scope.

(** Each component of a normalized vector is between -1 and 1. *)
Lemma normalize_bound (u : Vector3) :
  -1 <= vx (normalize u) <= 1 /\ -1 <= vy (normalize u) <= 1 /\
  -1 <= vz (normalize u) <= 1.
Proof.
  unfold normalize, length3. destruct u as [x y z]. cbn [vx vy vz].
  set (q := x * x + y * y + z * z).
  assert (0 <= q) as Hq by (unfold q; nra).
  pose proof (sqrt_pos q) as Hl. pose proof (sqrt_sqrt q Hq) as Hll.
  set (l := sqrt q) in *.
  destruct (Req_dec_T l 0) as [H0|H0].
  - assert (q = 0) as Hq0 by (rewrite <- Hll, H0; ring).
    assert (x = 0 /\ y = 0 /\ z = 0) as (-> & -> & ->) by (unfold q in Hq0; nra).
    lra.
  - assert (0 < l) as Hpos by lra.
    assert (forall v, v * v <= q -> -1 <= v / l <= 1) as Hb.
    { intros v Hv. assert (- l <= v <= l) as [H1 H2] by nra.
      split.
      - apply Rmult_le_reg_r with l; [done|]. unfold Rdiv.
        rewrite Rmult_assoc, Rinv_l by done. lra.
      - apply Rmult_le_reg_r with l; [done|]. unfold Rdiv.
        rewrite Rmult_assoc, Rinv_l by done. lra. }
    split_and!; apply Hb; unfold q; nra.
Qed.

(** With the stick within its range, a step moves the camera by at most
    [2 * SPEED * dt] along each horizontal axis. *)
Lemma moveVec_bound b dt :
  0 <= dt -> -1 <= moveInput_x b <= 1 -> -1 <= moveInput_y b <= 1 ->
  - (2 * SPEED * dt) <= vx (moveVec b dt) <= 2 * SPEED * dt /\
  - (2 * SPEED * dt) <= vz (moveVec b dt) <= 2 * SPEED * dt.
Proof.
  intros Hdt Hx Hy. unfold moveVec, addScaledVector, SPEED. cbn [vx vy vz].
  destruct (normalize_bound
              (set_y (applyQuaternion {| vx := 0; vy := 0; vz := -1 |} (quaternion b)) 0))
    as (Hfx & _ & Hfz).
  destruct (normalize_bound
              (set_y (applyQuaternion {| vx := 1; vy := 0; vz := 0 |} (quaternion b)) 0))
    as (Hrx & _ & Hrz).
  fold (forward_axis b) in Hfx, Hfz. fold (right_axis b) in Hrx, Hrz.
  set (fx := vx (forward_axis b)) in *. set (fz := vz (forward_axis b)) in *.
  set (rx := vx (right_axis b)) in *. set (rz := vz (right_axis b)) in *.
  set (ix := moveInput_x b) in *. set (iy := moveInput_y b) in *.
  assert (forall a c, -1 <= a <= 1 -> -1 <= c <= 1 -> - dt <= a * c * dt <= dt) as Hp.
  { intros a c Ha Hc. assert (-1 <= a * c <= 1) by nra. nra. }
  pose proof (Hp fx iy Hfx Hy). pose proof (Hp rx ix Hrx Hx).
  pose proof (Hp fz iy Hfz Hy). pose proof (Hp rz ix Hrz Hx).
  split; lra.
Qed.

(** Moving by at most a chunk's width changes the chunk coordinate by at
    most one. *)
Lemma chunk_shift (p d : R) :
  -16 <= d <= 16 ->
  (-1 <= Zfloor ((p + d) / 16) - Zfloor (p / 16) <= 1)%Z.
Proof.
  intros Hd. pose proof (Zfloor_bound (p / 16)) as [H1 H2].
  assert (Zfloor (p / 16) - 1 <= Zfloor ((p + d) / 16))%Z.
  { apply Zfloor_lub. rewrite minus_IZR. lra. }
  assert (Zfloor ((p + d) / 16) < Zfloor (p / 16) + 2)%Z.
  { apply Zfloor_lt. rewrite plus_IZR. lra. }
  lia.
Qed.

End Reach.

(** X22: the ground under the player is generated before it is
    sampled.  After a frame of [animate], the chunk holding the block
    that the ground test of the next physics step samples is in the
    map, provided the stick input is within the range [[-1, 1]] that the
    handler of the stick keeps it in: [updateChunks] has filled the
    square around the camera, also after the kill plane moved it, and the
    step moves the camera by less than a chunk. *)
Theorem X22_frame_loads_ground (w : World) (b : Body) :
  (-1 <= moveInput_x b <= 1)%R -> (-1 <= moveInput_y b <= 1)%R ->
  let b' := (animate w b).2 in
  let p := moved b' 0.016 in
  exists w', (animate w b).1 = Returned w' /\
    chunks_get (chunks w')
      (getChunkKey (Num (Zfloor (vx p / 16))) (Num (Zfloor (vz p / 16)))) <> None.
Proof.
  intros Hix Hiy b' p. unfold animate in b' |- *. cbn [fst snd] in b' |- *.
  destruct (updateChunks_streamed w (position b')) as (w' & Hret & _ & Hl).
  exists w'. split; [done|].
  destruct (updatePhysics_input (chunks w) 0.016 b) as [Hx' Hy'].
  fold b' in Hx', Hy'.
  destruct (moveVec_bound b' 0.016) as [Hmx Hmz];
    [lra|by rewrite Hx'|by rewrite Hy'|].
  destruct (moved_horizontal b' 0.016) as [Hpx Hpz]. fold p in Hpx, Hpz.
  unfold SPEED in Hmx, Hmz.
  pose proof (chunk_shift (vx (position b')) (vx (moveVec b' 0.016)) ltac:(lra)) as Hsx.
  pose proof (chunk_shift (vz (position b')) (vz (moveVec b' 0.016)) ltac:(lra)) as Hsz.
  rewrite <- Hpx in Hsx. rewrite <- Hpz in Hsz.
  specialize (Hl (Zfloor (vx p / 16) - Zfloor (vx (position b') / 16))
                 (Zfloor (vz p / 16) - Zfloor (vz (position b') / 16))
                 ltac:(lia) ltac:(lia)).
  unfold loaded in Hl.
  replace (Zfloor (vx (position b') / 16)
           + (Zfloor (vx p / 16) - Zfloor (vx (position b') / 16)))
    with (Zfloor (vx p / 16)) in Hl by lia.
  replace (Zfloor (vz (position b') / 16)
           + (Zfloor (vz p / 16) - Zfloor (vz (position b') / 16)))
    with (Zfloor (vz p / 16)) in Hl by lia.
  done.
Qed.

(** X22 for the body at height 30 with the stick pushed far out. *)
Lemma X22_frame_loads_ground_witness :
  let w := {| chunks := []; scene := []; meshes_made := 0 |} in
  let b := touchmove_move 1000 (-1000) body_at_30 in
  let p := moved (animate w b).2 0.016 in
  exists w', (animate w b).1 = Returned w' /\
    chunks_get (chunks w')
      (getChunkKey (Num (Zfloor (vx p / 16))) (Num (Zfloor (vz p / 16)))) <> None.
Proof.
  intros w b.
  apply (X22_frame_loads_ground w b).
  - unfold b, touchmove_move. cbn [moveInput_x].
    unfold Rmax, Rmin. repeat destruct (Rle_dec _ _); lra.
  - unfold b, touchmove_move. cbn [moveInput_y].
    unfold Rmax, Rmin. repeat destruct (Rle_dec _ _); lra.
Defined.

(** ** The scene and the world map *)

Lemma elem_of_ids (sc : list Mesh) (i : nat) :
  i ∈ map mesh_id sc <-> exists m, m ∈ sc /\ mesh_id m = i.
Proof.
  induction sc as [|a sc IH]; simpl.
  - split; [by intros ?%elem_of_nil|by intros (? & ?%elem_of_nil & _)].
  - rewrite elem_of_cons, IH. split.
    + intros [->|(m & Hm & <-)]; [exists a|exists m]; split; try done.
      * apply list_elem_of_here.
      * by apply list_elem_of_further.
    + intros (m & [->|Hm]%elem_of_cons & <-); [by left|right; by exists m].
Qed.

Lemma elem_of_scene_remove sc m m' :
  m' ∈ scene_remove sc m <-> m' ∈ sc /\ mesh_id m' <> mesh_id m.
Proof. unfold scene_remove. rewrite list_elem_of_filter. tauto. Qed.

Lemma elem_of_ids_remove sc m i :
  i ∈ map mesh_id (scene_remove sc m) <-> i ∈ map mesh_id sc /\ i <> mesh_id m.
Proof.
  rewrite !elem_of_ids. split.
  - intros (m' & [Hm' Hne]%elem_of_scene_remove & <-). split; [by exists m'|done].
  - intros [(m' & Hm' & <-) Hne]. exists m'. by rewrite elem_of_scene_remove.
Qed.

Lemma NoDup_ids_remove sc m :
  NoDup (map mesh_id sc) -> NoDup (map mesh_id (scene_remove sc m)).
Proof.
  unfold scene_remove. induction sc as [|a sc IH]; simpl; [done|].
  intros [Ha Hnd]%NoDup_cons. rewrite filter_cons.
  destruct (decide _); [|by apply IH]. simpl. apply NoDup_cons. split; [|by apply IH].
  intros Hin. apply Ha. apply (elem_of_ids_remove sc m) in Hin. tauto.
Qed.

Lemma shown_ext sc sc' c :
  (forall m, mesh c = Some m ->
     (mesh_id m ∈ map mesh_id sc <-> mesh_id m ∈ map mesh_id sc')) ->
  shown sc c = shown sc' c.
Proof.
  unfold shown. destruct (mesh c) as [m|]; [|done]. intros H.
  specialize (H m eq_refl).
  destruct (decide (_ ∈ map mesh_id sc)), (decide (_ ∈ map mesh_id sc')); tauto.
Qed.

(** The empty world, whatever the number of meshes made so far. *)
Lemma scene_ok_empty n : scene_ok {| chunks := []; scene := []; meshes_made := n |}.
Proof.
  split; simpl; try done.
  - split; [apply NoDup_nil_2|apply Forall_nil_2].
  - by intros m ?%elem_of_nil.
  - apply NoDup_nil_2.
Qed.

(** The meshes of the scene are numbered below the counter. *)
Lemma scene_ok_ids w i :
  scene_ok w -> i ∈ map mesh_id (scene w) -> (i < meshes_made w)%nat.
Proof.
  intros Hok (m & Hm & <-)%elem_of_ids.
  destruct (ok_owner w Hok m Hm) as (key & c & Hc & Hmc).
  by apply (ok_below w Hok key c m).
Qed.

(** The mesh of a chunk that is in the scene under its number is in the
    scene itself. *)
Lemma scene_ok_mesh w key c m :
  scene_ok w -> chunks_get (chunks w) key = Some c -> mesh c = Some m ->
  mesh_id m ∈ map mesh_id (scene w) -> m ∈ scene w.
Proof.
  intros Hok Hc Hm (m' & Hm' & Hid)%elem_of_ids.
  destruct (ok_owner w Hok m' Hm') as (key' & c' & Hc' & Hmc').
  pose proof (ok_distinct w Hok key' key c' c m' m Hc' Hc Hmc' Hm Hid) as ->.
  congruence.
Qed.

Lemma elem_of_ids_without sc mo i :
  i ∈ map mesh_id (scene_without sc mo) <->
  i ∈ map mesh_id sc /\ forall m, mo = Some m -> i <> mesh_id m.
Proof.
  destruct mo as [m|]; simpl.
  - rewrite elem_of_ids_remove. split.
    + intros [Hi Hne]. split; [done|]. by intros m' [= <-].
    + intros [Hi Hne]. split; [done|]. by apply Hne.
  - split; [|tauto]. intros Hi. split; [done|]. by intros m [=].
Qed.

Lemma NoDup_ids_without sc mo :
  NoDup (map mesh_id sc) -> NoDup (map mesh_id (scene_without sc mo)).
Proof. destruct mo; [apply NoDup_ids_remove|done]. Qed.

Lemma elem_of_scene_without sc mo m' :
  m' ∈ scene_without sc mo ->
  m' ∈ sc /\ forall m, mo = Some m -> mesh_id m' <> mesh_id m.
Proof.
  destruct mo as [m|]; simpl.
  - intros [Hm' Hne]%elem_of_scene_remove. split; [done|]. by intros m0 [= <-].
  - intros Hm'. split; [done|]. by intros m [=].
Qed.

(** A chunk whose mesh has left the scene shows nothing. *)
Lemma shown_without sc mo d :
  shown (scene_without sc mo) {| data := d; mesh := mo |} = [].
Proof.
  unfold shown. cbn [mesh]. destruct mo as [m|]; [|done].
  rewrite decide_False; [done|]. simpl. rewrite elem_of_ids_remove. tauto.
Qed.

Section Install.
Variable w : World.
Variables cx cz : Z.
Variable d : list Z.
Hypothesis Hok : scene_ok w.
Hypothesis Hd : wf_data d.

Let key := getChunkKey (Num cx) (Num cz).
Let mo := old_mesh w cx cz.
Let sc := scene_without (scene w) mo.

Lemma install_old_mesh m :
  mo = Some m -> exists c, chunks_get (chunks w) key = Some c /\ mesh c = Some m.
Proof.
  unfold mo, old_mesh. fold key.
  destruct (chunks_get (chunks w) key) as [c|]; [|done].
  simpl. intros Hm. by exists c.
Qed.

(** The meshes of the other chunks stay in the scene. *)
Lemma install_other_shown k c :
  k <> key -> chunks_get (chunks w) k = Some c ->
  forall m, mesh c = Some m ->
    (mesh_id m ∈ map mesh_id sc <-> mesh_id m ∈ map mesh_id (scene w)).
Proof.
  intros Hk Hc m Hm. unfold sc. rewrite elem_of_ids_without. split; [tauto|].
  intros Hi. split; [done|]. intros m0 Hm0 Hid.
  destruct (install_old_mesh m0 Hm0) as (c0 & Hc0 & Hmc0).
  apply Hk. by apply (ok_distinct w Hok k key c c0 m m0).
Qed.

(** The mesh of a scene that has lost the old mesh of the chunk belongs
    to another chunk. *)
Lemma install_owner m' :
  m' ∈ sc ->
  exists k c, k <> key /\ chunks_get (chunks w) k = Some c /\ mesh c = Some m'.
Proof.
  intros [Hm' Hne]%elem_of_scene_without.
  destruct (ok_owner w Hok m' Hm') as (k & c & Hc & Hmc).
  exists k, c. split; [|done]. intros ->.
  apply (Hne m'); [|done]. fold mo. unfold mo, old_mesh. fold key. by rewrite Hc.
Qed.

Lemma scene_ok_install : scene_ok (install w cx cz d).
Proof.
  assert (wf_chunks (chunks w)) as Hwf by apply (ok_chunks w Hok).
  unfold install. fold key. fold mo. fold sc.
  destruct (chunk_quads d (Num cx) (Num cz)) as [|q qs] eqn:Hq.
  - (* no quad: the chunk keeps its old mesh, which has left the scene *)
    assert (forall k c' m, chunks_get (chunks_set (chunks w) key
                                         {| data := d; mesh := mo |}) k = Some c' ->
              mesh c' = Some m ->
              exists c0, chunks_get (chunks w) k = Some c0 /\ mesh c0 = Some m) as Hold.
    { intros k c' m Hc' Hm. destruct (String.eqb_spec key k) as [<-|Hne].
      - rewrite chunks_get_set in Hc'. injection Hc' as <-. simpl in Hm.
        by apply install_old_mesh.
      - rewrite chunks_get_set_ne in Hc' by done. by exists c'. }
    split; cbn [chunks scene meshes_made].
    + apply wf_chunks_set; [done|by exists cx, cz|done].
    + intros cx' cz' c' Hc'.
      destruct (String.eqb_spec key (getChunkKey (Num cx') (Num cz'))) as [He|Hne].
      * rewrite <- He, chunks_get_set in Hc'. injection Hc' as <-.
        apply getChunkKey_inj in He as [<- <-]. cbn [data]. rewrite Hq.
        apply shown_without.
      * rewrite chunks_get_set_ne in Hc' by done.
        rewrite (shown_ext sc (scene w)); [by apply (ok_shown w Hok)|].
        apply (install_other_shown (getChunkKey (Num cx') (Num cz')) c');
          [congruence|done].
    + intros m' Hm'. destruct (install_owner m' Hm') as (k & c & Hk & Hc & Hmc).
      exists k, c. by rewrite chunks_get_set_ne by congruence.
    + apply NoDup_ids_without, (ok_nodup w Hok).
    + intros k c' m Hc' Hm. destruct (Hold k c' m Hc' Hm) as (c0 & Hc0 & Hm0).
      by apply (ok_below w Hok k c0 m).
    + intros k1 k2 c1 c2 m1 m2 Hc1 Hc2 Hm1 Hm2 Hid.
      destruct (Hold k1 c1 m1 Hc1 Hm1) as (c1' & Hc1' & Hm1').
      destruct (Hold k2 c2 m2 Hc2 Hm2) as (c2' & Hc2' & Hm2').
      by apply (ok_distinct w Hok k1 k2 c1' c2' m1 m2).
  - (* a new mesh *)
    set (m := {| mesh_id := meshes_made w; mesh_faces := q :: qs |}).
    assert (forall k c' m', chunks_get (chunks_set (chunks w) key
                                          {| data := d; mesh := Some m |}) k = Some c' ->
              mesh c' = Some m' ->
              (k = key /\ m' = m) \/
              (k <> key /\ chunks_get (chunks w) k = Some c')) as Hold.
    { intros k c' m' Hc' Hm'. destruct (String.eqb_spec key k) as [<-|Hne].
      - rewrite chunks_get_set in Hc'. injection Hc' as <-. simpl in Hm'.
        left. split; [done|congruence].
      - rewrite chunks_get_set_ne in Hc' by done. right. split; [congruence|done]. }
    assert (forall i, i ∈ map mesh_id sc -> (i < meshes_made w)%nat) as Hlt.
    { intros i [Hi _]%elem_of_ids_without. by apply scene_ok_ids. }
    split; cbn [chunks scene meshes_made].
    + apply wf_chunks_set; [done|by exists cx, cz|done].
    + intros cx' cz' c' Hc'.
      destruct (String.eqb_spec key (getChunkKey (Num cx') (Num cz'))) as [He|Hne].
      * rewrite <- He, chunks_get_set in Hc'. injection Hc' as <-.
        apply getChunkKey_inj in He as [<- <-]. cbn [data]. rewrite Hq.
        unfold shown. cbn [mesh]. rewrite decide_True; [done|].
        rewrite map_app, elem_of_app. right. apply list_elem_of_here.
      * rewrite chunks_get_set_ne in Hc' by done.
        rewrite (shown_ext (sc ++ [m]) (scene w)); [by apply (ok_shown w Hok)|].
        intros m2 Hm2. rewrite map_app, elem_of_app.
        rewrite (install_other_shown (getChunkKey (Num cx') (Num cz')) c'
                   ltac:(congruence) Hc' m2 Hm2).
        split; [|tauto]. intros [Hi|Hi%list_elem_of_singleton]; [done|].
        pose proof (ok_below w Hok _ c' m2 Hc' Hm2) as Hb. simpl in Hi. lia.
    + intros m' [Hm'| ->%list_elem_of_singleton]%elem_of_app.
      * destruct (install_owner m' Hm') as (k & c & Hk & Hc & Hmc).
        exists k, c. by rewrite chunks_get_set_ne by congruence.
      * exists key, {| data := d; mesh := Some m |}. by rewrite chunks_get_set.
    + rewrite map_app. apply NoDup_app. split_and!.
      * apply NoDup_ids_without, (ok_nodup w Hok).
      * intros i Hi ->%list_elem_of_singleton. apply Hlt in Hi. simpl in Hi. lia.
      * apply NoDup_singleton.
    + intros k c' m' Hc' Hm'.
      destruct (Hold k c' m' Hc' Hm') as [[-> ->]|[Hk Hc0]]; [simpl; lia|].
      pose proof (ok_below w Hok k c' m' Hc0 Hm'). lia.
    + intros k1 k2 c1 c2 m1 m2 Hc1 Hc2 Hm1 Hm2 Hid.
      destruct (Hold k1 c1 m1 Hc1 Hm1) as [[-> ->]|[Hk1 Hc1']];
        destruct (Hold k2 c2 m2 Hc2 Hm2) as [[-> ->]|[Hk2 Hc2']]; [done| | |].
      * pose proof (ok_below w Hok k2 c2 m2 Hc2' Hm2). simpl in Hid. lia.
      * pose proof (ok_below w Hok k1 c1 m1 Hc1' Hm1). simpl in Hid. lia.
      * by apply (ok_distinct w Hok k1 k2 c1 c2 m1 m2).
Qed.

(** Meshing the stored block array gives the world [install] describes. *)
Lemma buildChunkMesh_install :
  buildChunkMesh
    {| chunks := chunks_set (chunks w) key {| data := d; mesh := mo |};
       scene := sc; meshes_made := meshes_made w |} (Num cx) (Num cz) d
  = Returned (install w cx cz d).
Proof.
  pose proof (buildChunkMesh_loaded
    {| chunks := chunks_set (chunks w) key {| data := d; mesh := mo |};
       scene := sc; meshes_made := meshes_made w |}
    (Num cx) (Num cz) {| data := d; mesh := mo |}) as Hb.
  cbn [data chunks scene meshes_made] in Hb. fold key in Hb.
  rewrite Hb; [|apply chunks_get_set|done].
  f_equal. unfold install. fold key. fold mo. fold sc.
  destruct (chunk_quads d (Num cx) (Num cz)); [done|].
  cbv zeta. by rewrite chunks_set_twice.
Qed.

End Install.

(** An edit with a block id does nothing or stores a new block array
    for the chunk and rebuilds its mesh. *)
Lemma setBlock_install w wx wy wz id :
  wf_chunks (chunks w) -> 0 <= id <= 6 ->
  setBlock w wx wy wz id = Returned w \/
  exists d, wf_data d /\
    setBlock w wx wy wz id
    = Returned (install w (Zfloor wx / 16) (Zfloor wz / 16) d).
Proof.
  intros Hw Hid. rewrite setBlock_unfold. cbv zeta.
  set (cx := Zfloor wx / 16). set (cz := Zfloor wz / 16).
  destruct (chunks_get (chunks w) _) as [c|] eqn:Hc; [|by left].
  destruct (decide _) as [HY|HY]; [|by left]. right.
  destruct (wf_chunks_get _ _ _ Hw Hc) as [_ Hd].
  set (d := data_set (data c) _ id).
  assert (wf_data d) as Hd' by by apply data_set_wf.
  exists d. split; [done|].
  rewrite <- (buildChunkMesh_install w cx cz d Hd').
  unfold old_mesh. rewrite Hc. done.
Qed.

(** One iteration of the loops of [updateChunks] does nothing or stores
    the generated block array and builds its mesh. *)
Lemma stream_chunk_install w cx cz :
  stream_chunk w cx cz = Returned w \/
  stream_chunk w cx cz = Returned (install w cx cz (generateChunkData cx cz)).
Proof.
  unfold stream_chunk.
  destruct (chunks_get (chunks w) _) as [c|] eqn:Hc; [by left|]. right.
  cbv zeta. generalize (generateChunkData_wf cx cz).
  generalize (generateChunkData cx cz). intros d Hd.
  rewrite <- (buildChunkMesh_install w cx cz d Hd).
  unfold old_mesh. rewrite Hc. done.
Qed.

Lemma updateChunks_scene_ok w pos :
  scene_ok w -> exists w', updateChunks w pos = Returned w' /\ scene_ok w'.
Proof.
  intros Hok. unfold updateChunks.
  destruct (for_between_returns scene_ok (fun _ _ => True)
              (- RENDER_DISTANCE) RENDER_DISTANCE
              (fun x => for_between (- RENDER_DISTANCE) RENDER_DISTANCE (fun z o =>
                 obind o (fun w' =>
                   stream_chunk w' (Zfloor (vx pos / IZR CHUNK_SIZE) + x)
                     (Zfloor (vz pos / IZR CHUNK_SIZE) + z)))) w)
    as (w' & Hret & Hok' & _); [|done|by exists w'].
  intros x w1 _ Hok1.
  destruct (for_between_returns scene_ok (fun _ _ => True)
              (- RENDER_DISTANCE) RENDER_DISTANCE
              (fun z o => obind o (fun w' =>
                 stream_chunk w' (Zfloor (vx pos / IZR CHUNK_SIZE) + x)
                   (Zfloor (vz pos / IZR CHUNK_SIZE) + z))) w1)
    as (w2 & Hret & Hok2 & _); [|done|by exists w2].
  intros z w2 _ Hok2. simpl.
  destruct (stream_chunk_install w2 (Zfloor (vx pos / IZR CHUNK_SIZE) + x)
              (Zfloor (vz pos / IZR CHUNK_SIZE) + z)) as [->| ->].
  - by exists w2.
  - eexists. split; [done|]. split; [|done].
    apply scene_ok_install; [done|apply generateChunkData_wf].
Qed.

(** The first loop of [loadWorld] leaves the meshes that belong to no
    chunk of the map. *)
Lemma elem_of_clear_meshes cs sc m' :
  m' ∈ clear_meshes cs sc ->
  m' ∈ sc /\ forall kc m, kc ∈ cs -> mesh (snd kc) = Some m -> mesh_id m' <> mesh_id m.
Proof.
  unfold clear_meshes. revert sc. induction cs as [|kc cs IH]; intros sc; simpl.
  - intros Hm'. split; [done|]. by intros kc m ?%elem_of_nil.
  - intros Hm'. apply IH in Hm' as [Hm' Hrest].
    assert (m' ∈ sc /\ forall m, mesh kc.2 = Some m -> mesh_id m' <> mesh_id m)
      as [Hsc Hkc].
    { destruct (mesh kc.2) as [m0|].
      - apply elem_of_scene_remove in Hm' as [? ?]. split; [done|]. by intros m [= <-].
      - split; [done|]. by intros m [=]. }
    split; [done|]. intros kc' m [->|Hin]%elem_of_cons Hm; [by apply Hkc|].
    by apply (Hrest kc').
Qed.

Lemma clear_meshes_scene_ok w :
  scene_ok w -> clear_meshes (chunks w) (scene w) = [].
Proof.
  intros Hok. destruct (clear_meshes (chunks w) (scene w)) as [|m' l] eqn:E; [done|].
  exfalso.
  assert (m' ∈ clear_meshes (chunks w) (scene w)) as Hin
    by (rewrite E; apply list_elem_of_here).
  apply elem_of_clear_meshes in Hin as [Hsc Hne].
  destruct (ok_owner w Hok m' Hsc) as (key & c & Hc & Hm).
  apply chunks_get_elem_of in Hc. by apply (Hne (key, c) m').
Qed.

(** The second loop of [loadWorld] keeps the scene in agreement with the
    map. *)
Lemma load_entries_scene_ok entries w w' :
  scene_ok w ->
  NoDup (map fst (chunks w) ++ map fst entries) ->
  Forall wf_entry entries ->
  load_entries w entries = Returned w' -> scene_ok w'.
Proof.
  revert w. induction entries as [|[key arr] entries IH]; intros w Hok Hnd Hwf.
  - by intros [= <-].
  - apply Forall_cons in Hwf as [[(cx & cz & Hkey) Hd] Hwf].
    cbn [fst snd] in Hkey, Hd. subst key.
    cbn [load_entries]. rewrite key_coords_chunk_key, (Uint8Array_from_wf _ Hd).
    assert (getChunkKey (Num cx) (Num cz) ∉ map fst (chunks w)) as Hfresh.
    { apply NoDup_app in Hnd as (_ & Hdis & _). intros Hin.
      apply (Hdis _ Hin). simpl. by left. }
    pose proof Hfresh as Hnone. apply chunks_get_None in Hnone.
    pose proof (buildChunkMesh_install w cx cz arr Hd) as Hb.
    unfold old_mesh in Hb. rewrite Hnone in Hb. simpl in Hb. rewrite Hb.
    apply IH; [by apply scene_ok_install| |done].
    assert (map fst (chunks (install w cx cz arr))
            = map fst (chunks w) ++ [getChunkKey (Num cx) (Num cz)]) as ->.
    { unfold install. destruct (chunk_quads _ _ _); cbn [chunks];
        by rewrite map_fst_chunks_set, Hnone. }
    simpl in Hnd. by rewrite <- app_assoc.
Qed.

(** The text of a save of a well-formed world map is read back as the
    entries that were written. *)
Lemma JSON_parse_saveWorld w :
  wf_chunks (chunks w) ->
  JSON_parse (saveWorld w) = Some (save_data (chunks w)) /\
  Forall wf_entry (save_data (chunks w)).
Proof.
  intros [Hnd Hwf]. split.
  - apply JSON_parse_stringify; rewrite map_fst_save_data; [|done].
    apply Forall_fmap. apply (Forall_impl _ _ _ Hwf).
    intros [k c] [(cx & cz & Hk) _]. simpl in *. subst k. apply chunk_key_valid.
  - unfold save_data. apply Forall_fmap. by apply (Forall_impl _ _ _ Hwf).
Qed.

(** X23: edits keep the scene in agreement with the world map.  When
    the scene shows, for every chunk of the map, exactly the quads of
    its block array, and holds no mesh besides those of the chunks, the
    same is true after [setBlock] with a block id from 0 to 6, which
    returns, and therefore after any [doRaycastAction] with such a
    selected block: the old mesh of the edited chunk has left the scene
    and the new one, if the chunk still has a quad, has entered it. *)
Theorem X23_edits_keep_scene (w : World) :
  scene_ok w ->
  (forall wx wy wz id, 0 <= id <= 6 ->
     exists w', setBlock w wx wy wz id = Returned w' /\ scene_ok w') /\
  (forall camera_position selectedBlock intersects a, 0 <= selectedBlock <= 6 ->
     exists w',
       doRaycastAction w camera_position selectedBlock intersects a = Returned w' /\
       scene_ok w').
Proof.
  intros Hok.
  assert (forall wx wy wz id, 0 <= id <= 6 ->
            exists w', setBlock w wx wy wz id = Returned w' /\ scene_ok w') as Hset.
  { intros wx wy wz id Hid.
    destruct (setBlock_install w wx wy wz id (ok_chunks w Hok) Hid)
      as [->|(d & Hd & ->)]; [by exists w|].
    eexists. split; [done|]. by apply scene_ok_install. }
  split; [done|]. intros cam sel hits a Hsel.
  destruct hits as [|hit rest]; [by exists w|]. destruct a.
  - rewrite doRaycastAction_break. apply Hset. unfold BLOCK.AIR. lia.
  - rewrite doRaycastAction_place. cbv zeta.
    destruct (decide _); [by exists w|]. by apply Hset.
Qed.

(** X23 from a world whose only chunk is filled with Stone: a block is
    broken. *)
Lemma X23_edits_keep_scene_witness :
  let w := install {| chunks := []; scene := []; meshes_made := 0 |} 0 0
             (filled BLOCK.STONE) in
  exists w', setBlock w 0.5 0.5 0.5 BLOCK.AIR = Returned w' /\ scene_ok w'.
Proof.
  intros w.
  destruct (X23_edits_keep_scene w) as [Hset _].
  - apply scene_ok_install; [apply scene_ok_empty|].
    apply filled_wf. unfold BLOCK.STONE. lia.
  - apply Hset. unfold BLOCK.AIR. lia.
Defined.

(** X24: streaming keeps the scene in agreement with the world map, and
    so does every frame of [animate]: after [updateChunks], which
    returns, the scene again shows for every chunk of the map, the new
    ones included, exactly the quads of its block array. *)
Theorem X24_streaming_keeps_scene (w : World) :
  scene_ok w ->
  (forall camera_position,
     exists w', updateChunks w camera_position = Returned w' /\ scene_ok w') /\
  (forall b, exists w', (animate w b).1 = Returned w' /\ scene_ok w').
Proof.
  intros Hok. split.
  - intros pos. by apply updateChunks_scene_ok.
  - intros b. unfold animate. cbn [fst]. by apply updateChunks_scene_ok.
Qed.

(** X24 from the empty world, as at start-up. *)
Lemma X24_streaming_keeps_scene_witness :
  exists w',
    updateChunks {| chunks := []; scene := []; meshes_made := 0 |}
      {| vx := 8; vy := 29; vz := 8 |} = Returned w' /\
    scene_ok w'.
Proof.
  destruct (X24_streaming_keeps_scene {| chunks := []; scene := []; meshes_made := 0 |})
    as [Hstream _].
  - apply scene_ok_empty.
  - apply Hstream.
Defined.

(** X25: loading rebuilds the scene.  Loading the save of a well-formed
    world map into a world whose scene agrees with its map ends with
    "World Loaded!"; every mesh of the world that was current has left
    the scene, the scene shows for every loaded chunk exactly the quads
    of its block array, every block query answers what it answers in
    the world that was saved, and saving the loaded world gives the text
    that was loaded. *)
Theorem X25_loadWorld_rebuilds_scene (w0 w : World) :
  scene_ok w0 -> wf_chunks (chunks w) ->
  clear_meshes (chunks w0) (scene w0) = [] /\
  exists w',
    loadWorld w0 (Some (saveWorld w)) = WorldLoaded w' /\
    scene_ok w' /\
    (forall cx cz x y z,
       getBlock (chunks w') cx cz x y z = getBlock (chunks w) cx cz x y z) /\
    saveWorld w' = saveWorld w.
Proof.
  intros Hok0 Hw. pose proof (clear_meshes_scene_ok w0 Hok0) as Hclear.
  split; [done|].
  destruct (JSON_parse_saveWorld w Hw) as [Hparse Hentries].
  rewrite (loadWorld_parsed _ _ _ Hparse), Hclear.
  destruct Hw as [Hnd Hwf].
  destruct (load_entries_wf (save_data (chunks w))
              {| chunks := []; scene := []; meshes_made := meshes_made w0 |})
    as (w' & Hl & Hs).
  { simpl. by rewrite map_fst_save_data. }
  { done. }
  rewrite Hl. exists w'. simpl in Hs. split; [done|]. split; [|split].
  - apply (load_entries_scene_ok (save_data (chunks w))
             {| chunks := []; scene := []; meshes_made := meshes_made w0 |}).
    + apply scene_ok_empty.
    + simpl. by rewrite map_fst_save_data.
    + done.
    + done.
  - intros cx cz x y z. by rewrite !getBlock_data, <- !obj_get_save_data, Hs.
  - unfold saveWorld. by rewrite Hs.
Qed.

(** X25 for the save of the flat chunk, loaded into a world that shows
    a chunk of Stone. *)
Lemma X25_loadWorld_rebuilds_scene_witness :
  let w0 := install {| chunks := []; scene := []; meshes_made := 0 |} 0 0
              (filled BLOCK.STONE) in
  let w := {| chunks := flat_chunks; scene := []; meshes_made := 0 |} in
  exists w',
    loadWorld w0 (Some (saveWorld w)) = WorldLoaded w' /\
    scene_ok w' /\
    (forall cx cz x y z,
       getBlock (chunks w') cx cz x y z = getBlock (chunks w) cx cz x y z) /\
    saveWorld w' = saveWorld w.
Proof.
  intros w0 w.
  destruct (X25_loadWorld_rebuilds_scene w0 w) as [_ H].
  - apply scene_ok_install; [apply scene_ok_empty|].
    apply filled_wf. unfold BLOCK.STONE. lia.
  - apply flat_chunks_wf.
  - exact H.
Defined.

(** An edit with a block id does nothing or stores a new block array
    for the chunk and rebuilds its mesh, whatever the local coordinates
    are. *)
Lemma setBlock_cell_install w cx cz lx ly lz id :
  wf_chunks (chunks w) -> 0 <= id <= 6 ->
  setBlock_cell w cx cz lx ly lz id = Returned w \/
  exists d, wf_data d /\
    setBlock_cell w cx cz lx ly lz id = Returned (install w cx cz d).
Proof.
  intros Hw Hid. unfold setBlock_cell.
  destruct (chunks_get (chunks w) _) as [c|] eqn:Hc; [|by left].
  destruct (_ && _); [|by left]. right.
  destruct (wf_chunks_get _ _ _ Hw Hc) as [_ Hd]. cbv zeta.
  set (d := data_set (data c) _ id).
  assert (wf_data d) as Hd' by by apply data_set_wf.
  exists d. split; [done|].
  rewrite <- (buildChunkMesh_install w cx cz d Hd').
  unfold old_mesh. rewrite Hc. done.
Qed.

(** The operations of a game keep the scene in agreement with the world
    map. *)
Lemma setBlock_cell_scene_ok w cx cz lx ly lz id w' :
  scene_ok w -> 0 <= id <= 6 ->
  setBlock_cell w cx cz lx ly lz id = Returned w' -> scene_ok w'.
Proof.
  intros Hok Hid.
  destruct (setBlock_cell_install w cx cz lx ly lz id (ok_chunks w Hok) Hid)
    as [->|(d & Hd & ->)]; intros [= <-]; [done|]. by apply scene_ok_install.
Qed.

Lemma doRaycastAction_scene_ok w cam sel hits a w' :
  scene_ok w -> 0 <= sel <= 6 ->
  doRaycastAction w cam sel hits a = Returned w' -> scene_ok w'.
Proof.
  intros Hok Hsel.
  destruct hits as [|hit rest]; [by intros [= <-]|]. destruct a.
  - rewrite doRaycastAction_break, setBlock_cell_eq.
    apply setBlock_cell_scene_ok; [done|]. unfold BLOCK.AIR. lia.
  - rewrite doRaycastAction_place. cbv zeta.
    destruct (decide _); [by intros [= <-]|]. rewrite setBlock_cell_eq.
    by apply setBlock_cell_scene_ok.
Qed.

Lemma doRaycastAction64_scene_ok w cam sel hits a w' :
  scene_ok w -> 0 <= sel <= 6 ->
  Binary64.doRaycastAction64 w cam sel hits a = Some (Returned w') -> scene_ok w'.
Proof.
  intros Hok Hsel
    [[= <-]|(cx & cz & lx & ly & lz & id & Hid & Hs)]%doRaycastAction64_cell;
    [done|].
  apply (setBlock_cell_scene_ok w cx cz lx ly lz id); [done| |done].
  destruct Hid as [-> | ->]; [unfold BLOCK.AIR; lia|done].
Qed.

Lemma loadWorld_scene_ok w0 w w' :
  scene_ok w0 -> wf_chunks (chunks w) ->
  loadWorld w0 (Some (saveWorld w)) = WorldLoaded w' -> scene_ok w'.
Proof.
  intros Hok0 Hw. destruct (JSON_parse_saveWorld w Hw) as [Hparse Hentries].
  rewrite (loadWorld_parsed _ _ _ Hparse), (clear_meshes_scene_ok w0 Hok0).
  destruct Hw as [Hnd Hwf].
  destruct (load_entries _ _) as [w1|w1] eqn:Hl; [|done]. intros [= <-].
  apply (load_entries_scene_ok (save_data (chunks w))
           {| chunks := []; scene := []; meshes_made := meshes_made w0 |});
    [apply scene_ok_empty| |done|done].
  simpl. by rewrite map_fst_save_data.
Qed.

Lemma played_scene_ok w : played w -> scene_ok w.
Proof.
  induction 1 as [|w pos w' _ IH Hs|w cam sel hits a w' _ IH Hsel Ha
                  |w cam sel hits a w' _ IH Hsel Ha|w0 w w' _ IH0 _ IH Hl].
  - apply scene_ok_empty.
  - destruct (updateChunks_scene_ok w pos IH) as (w1 & Hs1 & Hok).
    rewrite Hs in Hs1. by injection Hs1 as ->.
  - by apply (doRaycastAction_scene_ok w cam sel hits a).
  - by apply (doRaycastAction64_scene_ok w cam sel hits a).
  - apply (loadWorld_scene_ok w0 w); [done|by apply ok_chunks|done].
Qed.

(** The surface of the terrain at the origin. *)
Lemma terrain_height_origin : terrain_height 0 0 = 7.
Proof.
  unfold terrain_height. rewrite Rmult_0_l, sin_0, cos_0.
  apply Zfloor_eq. simpl. lra.
Qed.

(** X26: what the scene holds in a game.  In every world that the
    program reaches from start-up by streaming chunks, by breaking and
    placing blocks of the ids 0 to 6, whichever cells these edits
    write, and by loading saves of such worlds, a quad is in a mesh of
    the scene exactly when it is the quad of a face of a cell that holds
    a block, in a chunk of the map, towards a neighbouring place that is
    outside the chunk or holds Air in the chunk's block array. *)
Theorem X26_scene_is_the_exposed_faces (w : World) (f : face) :
  played w ->
  (exists m, m ∈ scene w /\ f ∈ mesh_faces m) <->
  (exists cx cz c x y z t n,
     chunks_get (chunks w) (getChunkKey (Num cx) (Num cz)) = Some c /\
     in_chunk x y z /\ data_get (data c) (cell_index x y z) = Some t /\
     t <> BLOCK.AIR /\ n ∈ neighbours /\
     local_block (data c) (x + n.1.1.1) (y + n.1.1.2) (z + n.1.2) = Some BLOCK.AIR /\
     f = quad (Num cx) (Num cz) x y z t n).
Proof.
  intros Hok%played_scene_ok. split.
  - intros (m & Hm & Hf).
    destruct (ok_owner w Hok m Hm) as (key & c & Hc & Hmc).
    destruct (wf_chunks_get _ _ _ (ok_chunks w Hok) Hc) as [(cx & cz & ->) _].
    pose proof (ok_shown w Hok cx cz c Hc) as Hs.
    unfold shown in Hs. rewrite Hmc in Hs.
    rewrite decide_True in Hs by (apply elem_of_ids; by exists m).
    rewrite Hs in Hf. apply elem_of_chunk_quads in Hf as (x & y & z & Hin & Hf).
    apply elem_of_cell_quads in Hf as (t & n & Ht & Hne & Hn & Hair & ->).
    by exists cx, cz, c, x, y, z, t, n.
  - intros (cx & cz & c & x & y & z & t & n & Hc & Hin & Ht & Hne & Hn & Hair & ->).
    assert (quad (Num cx) (Num cz) x y z t n ∈ chunk_quads (data c) (Num cx) (Num cz))
      as Hq.
    { apply elem_of_chunk_quads. exists x, y, z. split; [done|].
      apply elem_of_cell_quads. by exists t, n. }
    rewrite <- (ok_shown w Hok cx cz c Hc) in Hq. unfold shown in Hq.
    destruct (mesh c) as [m|] eqn:Hm; [|by apply elem_of_nil in Hq].
    destruct (decide _) as [Hid|]; [|by apply elem_of_nil in Hq].
    exists m. split; [|done].
    by apply (scene_ok_mesh w (getChunkKey (Num cx) (Num cz)) c).
Qed.

(** X26 at start-up: after the first [updateChunks], with the camera at
    [(8, 29, 8)], the scene holds the top face of the Grass at the
    origin, the cell [(0, 7, 0)] of the chunk [(0, 0)]. *)
Lemma X26_scene_is_the_exposed_faces_witness :
  exists w',
    updateChunks {| chunks := []; scene := []; meshes_made := 0 |}
      {| vx := 8; vy := 29; vz := 8 |} = Returned w' /\
    exists m, m ∈ scene w' /\
      quad (Num 0) (Num 0) 0 7 0 BLOCK.GRASS (0, 1, 0, top) ∈ mesh_faces m.
Proof.
  assert (Zfloor (8 / 16) = 0) as Hch by (apply Zfloor_eq; simpl; lra).
  destruct (updateChunks_streamed {| chunks := []; scene := []; meshes_made := 0 |}
              {| vx := 8; vy := 29; vz := 8 |}) as (w' & Hs & (extra & He & Hg & _) & Hl).
  cbn [vx vz] in Hl. rewrite Hch in Hl. simpl in He.
  exists w'. split; [exact Hs|].
  specialize (Hl 0 0 ltac:(lia) ltac:(lia)). unfold loaded in Hl.
  change (0 + 0) with 0 in Hl.
  destruct (chunks_get (chunks w') (getChunkKey (Num 0) (Num 0))) as [c|] eqn:Hc;
    [|done].
  pose proof Hc as Hin. apply chunks_get_elem_of in Hin. rewrite He in Hin.
  rewrite Forall_forall in Hg.
  destruct (Hg _ Hin) as (cx & cz & _ & Hkey & Hd). cbn [fst snd] in Hkey, Hd.
  apply getChunkKey_inj in Hkey as [<- <-].
  assert (forall y, 0 <= y < 24 ->
            data_get (data c) (cell_index 0 y 0) = Some (column_block 7 y)) as Hcol.
  { intros y Hy. rewrite Hd, generateChunkData_cell
      by (unfold in_chunk, CHUNK_SIZE, CHUNK_HEIGHT; lia).
    change (0 * CHUNK_SIZE + 0) with 0. by rewrite terrain_height_origin. }
  apply (X26_scene_is_the_exposed_faces w').
  - apply (played_stream _ _ _ played_start Hs).
  - exists 0, 0, c, 0, 7, 0, BLOCK.GRASS, (0, 1, 0, top).
    split; [exact Hc|]. cbn [fst snd].
    split; [unfold in_chunk, CHUNK_SIZE, CHUNK_HEIGHT; lia|].
    split; [by rewrite Hcol by lia|]. split; [done|].
    split; [in_neighbours|]. split; [|done].
    rewrite local_block_inside by (unfold in_chunk, CHUNK_SIZE, CHUNK_HEIGHT; lia).
    change (0 + 0) with 0. change (7 + 1) with 8. by rewrite Hcol by lia.
Defined.
